(** * Eden NCR reports: classification, normalisation and chunked aggregation

    A shallow embedding of the record pipeline of [Eden_Final.py]:
    the text classifier (pour extraction, discipline category, tower),
    the record normaliser of [generate_ncr_report_for_eden], the local
    aggregator [process_chunk_locally] and the per-chunk merge of the three
    report generators, followed by the properties established for them.

    Modelling conventions.
    - Text is a sequence of characters with a code below 256 (the Latin-1
      range of Python's [str]); the character classes, [lower], [strip] and
      [int] are Python's on that range.  Characters with a higher code have
      no counterpart in the model.
    - Python integers are [Z]; a pandas [NaN]/[NaT]/[None] cell of the table
      is [None].  Where the code tells [NaN] from [None] (the age test of
      the Safety and Housekeeping fallback), the record holds a cell with
      the three cases.
    - The cache of [@st.cache_data] on [process_chunk_locally] is part of
      the state.  Logging and progress display are not part of the model.
    - The remote completion service is an input of the model: its reply to
      each chunk is a value of a reply type, so every theorem quantifying
      over replies covers whatever the service may answer. *)

From Stdlib Require Import ZArith Ascii String DecimalString DecimalPos.
From stdpp Require Import base option list strings sorting gmap.

Local Open Scope Z_scope.

(** ** Characters and strings *)

Module Text.

Definition code (c : ascii) : nat := nat_of_ascii c.

(** The class [\d] of [re] and the digits [int] reads: below 256 these are
    the ten digits 0-9. *)
Definition is_digit (c : ascii) : bool :=
  ((48 <=? code c) && (code c <=? 57))%nat.

(** [str.isspace], which is also the class [\s] of [re]: TAB, LF, VT, FF,
    CR, FS, GS, RS, US, the space, NEL (133) and the no-break space (160). *)
Definition is_space (c : ascii) : bool :=
  (((9 <=? code c) && (code c <=? 13))
   || ((28 <=? code c) && (code c <=? 32))
   || (code c =? 133) || (code c =? 160))%nat.

(** The capital letters: A-Z and the accented capitals 192-222, without the
    multiplication sign (215) *)
Definition is_upper (c : ascii) : bool :=
  (((65 <=? code c) && (code c <=? 90))
   || ((192 <=? code c) && (code c <=? 222) && negb (code c =? 215)))%nat.

Definition lower_char (c : ascii) : ascii :=
  if is_upper c then ascii_of_nat (code c + 32) else c.

Definition chars (s : string) : list ascii := list_ascii_of_string s.
Definition str (l : list ascii) : string := string_of_list_ascii l.

(** [s.lower()] *)
Definition lower (s : string) : string := str (map lower_char (chars s)).

(** [s.strip()] *)
Fixpoint lstrip (l : list ascii) : list ascii :=
  match l with
  | c :: l' => if is_space c then lstrip l' else l
  | [] => []
  end.
Definition strip (s : string) : string :=
  str (reverse (lstrip (reverse (lstrip (chars s))))).

(** [needle in hay] on strings *)
Fixpoint is_prefix (p s : list ascii) : bool :=
  match p, s with
  | [], _ => true
  | a :: p', b :: s' => if decide (a = b) then is_prefix p' s' else false
  | _ :: _, [] => false
  end.

Fixpoint contains_chars (needle hay : list ascii) : bool :=
  is_prefix needle hay
  || match hay with
     | [] => false
     | _ :: hay' => contains_chars needle hay'
     end.

Definition contains (needle hay : string) : bool :=
  contains_chars (chars needle) (chars hay).

(** [int(digits)] for a run of decimal digits *)
Definition digit_val (c : ascii) : Z := Z.of_nat (code c) - 48.
Definition int (l : list ascii) : Z :=
  foldl (λ acc c, 10 * acc + digit_val c) 0 l.

(** [str(i)] for an integer *)
Definition dec (i : Z) : string := NilZero.string_of_int (Z.to_int i).

(** [s.zfill(w)] for a string without sign *)
Definition zfill (w : nat) (l : list ascii) : list ascii :=
  replicate (w - length l) "0"%char ++ l.

End Text.

Import Text.

(** ** A backtracking matcher for the patterns of the source

    The patterns of the source only repeat character classes, so [Star] and
    [Plus] take a class, and the classes are the five the source uses.
    [ms r s c] lists every way [r] matches a prefix of
    [s], in the order Python's backtracking engine tries them (alternatives
    left to right, repetitions longest first); its head is the match Python
    reports.  A result is (matched text, remaining text, captures).  The
    matcher works in [re.IGNORECASE] mode, as every pattern of the source
    is compiled with that flag. *)

Module Re.

(** The character classes [\d], [\s], [[-\s]], [[0-9,\s&and]] and [[,&]] *)
Inductive cls : Type :=
| Digit
| Space
| DashSpace
| ListClass
| CommaAmp.

Definition in_cls (k : cls) (c : ascii) : bool :=
  match k with
  | Digit => is_digit c
  | Space => is_space c
  | DashSpace => bool_decide (c = "-"%char) || is_space c
  | ListClass =>
      is_digit c || bool_decide (c = ","%char) || is_space c
      || bool_decide (c = "&"%char) || bool_decide (c = "a"%char)
      || bool_decide (c = "n"%char) || bool_decide (c = "d"%char)
  | CommaAmp => bool_decide (c = ","%char) || bool_decide (c = "&"%char)
  end.

Inductive regex : Type :=
| Lit (s : string)
| Cls (p : cls)
| Cat (r1 r2 : regex)
| Alt (r1 r2 : regex)
| Star (p : cls)
| Plus (p : cls)
| Opt (r : regex)
| Grp (n : nat) (r : regex)
| NotAhead (r : regex).

Definition caps : Type := list (nat * list ascii).
Definition result : Type := list ascii * list ascii * caps.

(** [m.group(n)]; an unset group reads as the empty string, as in the
    tuples of [re.findall] *)
Fixpoint group (c : caps) (n : nat) : list ascii :=
  match c with
  | [] => []
  | (k, v) :: c' => if decide (k = n) then v else group c' n
  end.

Fixpoint lit_match (p s : list ascii) : option (list ascii * list ascii) :=
  match p, s with
  | [], _ => Some ([], s)
  | a :: p', b :: s' =>
      if decide (lower_char a = lower_char b)
      then '(m, rest) ← lit_match p' s'; Some (b :: m, rest)
      else None
  | _ :: _, [] => None
  end.

Fixpoint star (p : cls) (s : list ascii) : list (list ascii * list ascii) :=
  match s with
  | x :: s' =>
      if in_cls p (lower_char x)
      then ((λ '(m, rest), (x :: m, rest)) <$> star p s') ++ [([], s)]
      else [([], s)]
  | [] => [([], [])]
  end.

Definition plus (p : cls) (s : list ascii) : list (list ascii * list ascii) :=
  match s with
  | x :: s' =>
      if in_cls p (lower_char x)
      then (λ '(m, rest), (x :: m, rest)) <$> star p s'
      else []
  | [] => []
  end.

Fixpoint ms (r : regex) (s : list ascii) (c : caps) : list result :=
  match r with
  | Lit l =>
      match lit_match (chars l) s with
      | Some (m, rest) => [(m, rest, c)]
      | None => []
      end
  | Cls p =>
      match s with
      | x :: rest => if in_cls p (lower_char x) then [([x], rest, c)] else []
      | [] => []
      end
  | Cat r1 r2 =>
      '(m1, s1, c1) ← ms r1 s c;
      (λ '(m2, s2, c2), (m1 ++ m2, s2, c2)) <$> ms r2 s1 c1
  | Alt r1 r2 => ms r1 s c ++ ms r2 s c
  | Star p => (λ '(m, rest), (m, rest, c)) <$> star p s
  | Plus p => (λ '(m, rest), (m, rest, c)) <$> plus p s
  | Opt r => ms r s c ++ [([], s, c)]
  | Grp n r => (λ '(m, rest, c'), (m, rest, (n, m) :: c')) <$> ms r s c
  | NotAhead r =>
      match ms r s c with
      | [] => [([], s, c)]
      | _ :: _ => []
      end
  end.

(** [re.match]: the first way to match at the start of [s] *)
Definition match_here (r : regex) (s : list ascii) : option result :=
  head (ms r s []).

(** [re.search]: the match at the leftmost position that has one *)
Fixpoint search (r : regex) (s : list ascii) : option result :=
  match match_here r s with
  | Some res => Some res
  | None =>
      match s with
      | [] => None
      | _ :: s' => search r s'
      end
  end.

(** [re.findall]: the captures of the successive non-overlapping matches.
    [skip] counts the characters of the previous match still to step over.
    No pattern of the source matches the empty string, so nothing is tried
    at the end of the text. *)
Fixpoint findall_from (r : regex) (s : list ascii) (skip : nat) : list caps :=
  match s with
  | [] => []
  | _ :: s' =>
      match skip with
      | S k => findall_from r s' k
      | O =>
          match match_here r s with
          | Some (m, _, c) => c :: findall_from r s' (length m - 1)
          | None => findall_from r s' 0
          end
      end
  end.

Definition findall (r : regex) (s : string) : list caps :=
  findall_from r (chars s) 0.

Definition found (r : regex) (s : string) : bool :=
  bool_decide (is_Some (search r (chars s))).

End Re.

Import Re.

Declare Scope re_scope.
Delimit Scope re_scope with re.
Infix ">>" := Cat (at level 60, right associativity) : re_scope.
Infix "|||" := Alt (at level 50, left associativity) : re_scope.

(** ** Text classifier: pour extraction (source lines 305-377) *)

(** [r"common area|flat\s*no"] *)
Definition common_pattern : regex :=
  (Lit "common area" ||| (Lit "flat" >> Star Space >> Lit "no"))%re.

(** [r"(?:pour|p)[-\s]*(\d+)[-\s]*(?:to|-)[-\s]*(\d+)"] *)
Definition range_pattern : regex :=
  ((Lit "pour" ||| Lit "p") >> Star DashSpace >> Grp 1 (Plus Digit)
   >> Star DashSpace >> (Lit "to" ||| Lit "-") >> Star DashSpace
   >> Grp 2 (Plus Digit))%re.

(** [r"(?:pour|p)[-\s]*([0-9,\s&and]+)"] *)
Definition list_pattern : regex :=
  ((Lit "pour" ||| Lit "p") >> Star DashSpace >> Grp 1 (Plus ListClass))%re.

(** [r"(?:pour|p)[-\s]*(\d+)(?!\s*(?:to|-)\s*\d+)"] *)
Definition individual_pattern : regex :=
  ((Lit "pour" ||| Lit "p") >> Star DashSpace >> Grp 1 (Plus Digit)
   >> NotAhead (Star Space >> (Lit "to" ||| Lit "-") >> Star Space
                >> Plus Digit))%re.

(** [r'\d+'] *)
Definition digits_pattern : regex := Grp 0 (Plus Digit).

(** [f"P{i}"] *)
Definition P (i : Z) : string := "P" +:+ dec i.

(** [range(start_num, end_num + 1)] *)
Definition py_range (start_num end_num : Z) : list Z :=
  seqZ start_num (end_num + 1 - start_num).

(** Pattern 1: the loop over [range_matches] *)
Definition add_range (pours : gset string) (m : caps) : gset string :=
  let start_num := int (group m 1) in
  let end_num := int (group m 2) in
  if bool_decide (start_num ≤ end_num) && bool_decide (end_num - start_num ≤ 20)
  then pours ∪ list_to_set (P <$> py_range start_num end_num)
  else pours.

Definition range_tier (description : string) : gset string :=
  foldl add_range ∅ (findall range_pattern description).

(** Patterns 2 and 3: every number of at most 50 becomes a label *)
Definition add_number (pours : gset string) (num_str : list ascii) : gset string :=
  let num := int num_str in
  if bool_decide (num ≤ 50) then pours ∪ {[ P num ]} else pours.

Definition add_list (pours : gset string) (m : caps) : gset string :=
  foldl add_number pours
        ((λ c, group c 0) <$> findall digits_pattern (str (group m 1))).

Definition list_tier (description : string) : gset string :=
  foldl add_list ∅ (findall list_pattern description).

Definition individual_tier (description : string) : gset string :=
  foldl add_number ∅ ((λ c, group c 1) <$> findall individual_pattern description).

(** The set [pours] after the three tiers *)
Definition pours_set (description : string) : gset string :=
  let pours := range_tier description in
  let pours := if decide (pours = ∅) then list_tier description else pours in
  let pours := if decide (pours = ∅) then individual_tier description else pours in
  pours.

(** [sorted(list(pours))] *)
Definition sorted (pours : gset string) : list string :=
  merge_sort String.le (elements pours).

(** The value stored in [cleaned_record["Pours"]]; [description] is the
    lower-cased description. *)
Definition extract_pours (description : string) : list string :=
  if found common_pattern description then ["Common"]
  else
    let pours := pours_set description in
    if decide (pours = ∅) then ["Common"] else sorted pours.

(** ** Text classifier: discipline category (source lines 379-393) *)

Inductive DisciplineVerdict : Type :=
| Dropped                      (* empty tag or "none": [continue] *)
| SkippedHSE                   (* category HSE, then [continue] *)
| Category (cat : string).     (* "SW", "FW" or "MEP" *)

Definition categorize_discipline (Discipline : string) : DisciplineVerdict :=
  let discipline := lower (strip Discipline) in
  if bool_decide (discipline = "none") || bool_decide (discipline = "") then Dropped
  else if contains "hse" discipline then SkippedHSE
  else if contains "structure" discipline || contains "sw" discipline then Category "SW"
  else if contains "civil" discipline || contains "finishing" discipline
          || contains "fw" discipline then Category "FW"
  else Category "MEP".

(** ** Text classifier: tower (source lines 399-438) *)

(** [r"(tower|t)\s*-?\s*(\d+)"] *)
Definition tower_pattern : regex :=
  (Grp 1 (Lit "tower" ||| Lit "t") >> Star Space >> Opt (Lit "-")
   >> Star Space >> Grp 2 (Plus Digit))%re.

(** [r"(tower|t)\s*-?\s*(\d+)\s*([,&]|and)\s*(tower|t)?\s*-?\s*(\d+)"] *)
Definition multiple_tower_pattern : regex :=
  (Grp 1 (Lit "tower" ||| Lit "t") >> Star Space >> Opt (Lit "-")
   >> Star Space >> Grp 2 (Plus Digit) >> Star Space
   >> Grp 3 (Cls CommaAmp ||| Lit "and")
   >> Star Space >> Opt (Grp 4 (Lit "tower" ||| Lit "t")) >> Star Space
   >> Opt (Lit "-") >> Star Space >> Grp 5 (Plus Digit))%re.

(** [r"flat\s*no"] *)
Definition flat_no_pattern : regex :=
  (Lit "flat" >> Star Space >> Lit "no")%re.

Definition club_phrases : list string :=
  ["eden clubhouse"; "eden-clubhouse"; "eden club"].

(** The value stored in [cleaned_record["Tower"]]; [description] is the
    lower-cased description. *)
Definition tower_of (description : string) : string :=
  if existsb (λ phrase, contains phrase description) club_phrases then "Eden-Club"
  else
    let tower_matches := findall tower_pattern description in
    match search multiple_tower_pattern (chars description) with
    | Some (_, _, m) =>
        let tower1 := str (zfill 2 (group m 2)) in
        let tower2 := str (zfill 2 (group m 5)) in
        "Eden-Tower-" +:+ tower1 +:+ "-" +:+ tower2 +:+ "-CommonArea"
    | None =>
        match tower_matches with
        | first :: _ =>
            if found flat_no_pattern description
            then "Eden-Tower-" +:+ str (zfill 2 (group first 2))
            else if contains "common area" description then "Common_Area"
            else "Eden-Tower-" +:+ str (zfill 2 (group first 2))
        | [] => "Common_Area"
        end
    end.

(** ** Record normaliser of [generate_ncr_report_for_eden] (lines 199-453) *)

(** One row of the input table built by [process_json_data].  Dates are day
    numbers; an empty cell is [None]. *)
Record Row : Type := mkRow {
  Days : option Z;
  Created_Date : option Z;
  Expected_Close_Date : option Z;
  Description : option string;
  Status : option string;
  Discipline : option string
}.

Record DataFrame : Type := mkDF {
  columns : list string;
  rows : list Row
}.

(** A date argument of the report: absent, not parseable by
    [pd.to_datetime], or a date. *)
Inductive DateArg : Type :=
| NoDate
| BadDate
| Date (d : Z).

(** [process_json_data]: the [Days] cell is the difference of the two dates
    when both are present. *)
Definition days_diff (created_date expected_close_date : option Z) : option Z :=
  match created_date, expected_close_date with
  | Some c, Some e => Some (e - c)
  | _, _ => None
  end.

Definition process_json_row (created_date expected_close_date : option Z)
    (description form_status discipline : option string) : Row :=
  {| Days := days_diff created_date expected_close_date;
     Created_Date := created_date;
     Expected_Close_Date := expected_close_date;
     Description := description;
     Status := form_status;
     Discipline := discipline |}.

(** The columns [process_json_data] gives its table *)
Definition json_columns : list string :=
  ["Days"; "Created Date (WET)"; "Expected Close Date (WET)"; "Description";
   "Status"; "Discipline"].

Definition has_column (df : DataFrame) (col : string) : bool :=
  bool_decide (col ∈ columns df).

(** [df.empty] *)
Definition df_empty (df : DataFrame) : bool :=
  bool_decide (rows df = []) || bool_decide (columns df = []).

(** [Series.min()] and [Series.max()], which skip empty cells *)
Definition series_min (l : list (option Z)) : option Z :=
  foldl (λ acc x, match acc, x with
                  | Some a, Some b => Some (Z.min a b)
                  | None, o | o, None => o
                  end) None l.
Definition series_max (l : list (option Z)) : option Z :=
  foldl (λ acc x, match acc, x with
                  | Some a, Some b => Some (Z.max a b)
                  | None, o | o, None => o
                  end) None l.

(** Comparisons of cells; a comparison with an empty cell is false *)
Definition cell_ge (a b : option Z) : bool :=
  match a, b with Some x, Some y => bool_decide (y ≤ x) | _, _ => false end.
Definition cell_le (a b : option Z) : bool :=
  match a, b with Some x, Some y => bool_decide (x ≤ y) | _, _ => false end.
Definition cell_gt (a : option Z) (n : Z) : bool :=
  match a with Some x => bool_decide (n < x) | None => false end.
Definition cell_is (a : option string) (s : string) : bool :=
  bool_decide (a = Some s).

(** A filtered row together with its [Days_From_Today] cell; the column
    only exists in the Open report. *)
Definition FilteredRow : Type := Row * option Z.

(** What the generator returns: a dictionary with the single key "error",
    or a dictionary keyed by the report type. *)
Inductive Payload (A : Type) : Type :=
| ErrorPayload (msg : string)
| Report (report_type : string) (result : A).
Arguments ErrorPayload {A} msg.
Arguments Report {A} report_type result.

(** ["error" in payload], the test the callers apply *)
Definition is_error {A} (p : Payload A) : bool :=
  match p with ErrorPayload _ => true | Report _ _ => false end.

(** The Closed branch of the filter (lines 227-258) *)
Definition filter_closed (df : DataFrame) (start_date end_date : DateArg)
    : string + list FilteredRow :=
  let df1 := filter (λ r, is_Some (Created_Date r)) (rows df) in
  if negb (has_column df "Expected Close Date (WET)")
  then inl "Missing Expected Close Date column"
  else
    match start_date, end_date with
    | BadDate, _ | _, BadDate => inl "Invalid date range"
    | _, _ =>
        let start_date :=
          match start_date with
          | Date d => Some d
          | _ => series_min (Created_Date <$> df1)
          end in
        let end_date :=
          match end_date with
          | Date d => Some d
          | _ => series_max (Expected_Close_Date <$> df1)
          end in
        let df2 := filter (λ r, is_Some (Expected_Close_Date r)) df1 in
        let days (r : Row) :=
          if has_column df "Days" then Days r
          else days_diff (Created_Date r) (Expected_Close_Date r) in
        let df3 := (λ r, mkRow (days r) (Created_Date r) (Expected_Close_Date r)
                                (Description r) (Status r) (Discipline r)) <$> df2 in
        inr ((λ r, (r, None)) <$>
             filter (λ r, cell_is (Status r) "Closed"
                          && cell_ge (Created_Date r) start_date
                          && cell_le (Created_Date r) end_date
                          && cell_gt (Days r) 21 = true)
                    df3)
    end.

(** The Open branch of the filter (lines 260-284) *)
Definition filter_open (df : DataFrame) (until_date : DateArg)
    : string + list FilteredRow :=
  let df1 := filter (λ r, is_Some (Created_Date r)) (rows df) in
  match until_date with
  | NoDate => inl "Open Until Date is required"
  | BadDate => inl "Invalid Open Until Date"
  | Date today =>
      let filtered :=
        filter (λ r, cell_is (Status r) "Open" && bool_decide (is_Some (Created_Date r)) = true)
               df1 in
      let days (r : Row) := if has_column df "Days" then Days r else None in
      inr (filter (λ fr : FilteredRow, cell_gt fr.2 21 = true)
                  ((λ r, (mkRow (days r) (Created_Date r) (Expected_Close_Date r)
                                (Description r) (Status r) (Discipline r),
                          (λ c, today - c) <$> Created_Date r)) <$> filtered))
  end.

(** The record handed to the aggregation stage: the dictionary
    [cleaned_record].  [Days_From_Today] is [None] when the key is absent. *)
Record Cleaned : Type := mkCleaned {
  c_Description : string;
  c_Discipline : string;
  c_Created_Date : string;
  c_Expected_Close_Date : string;
  c_Status : string;
  c_Days : Z;
  c_Tower : string;
  c_Days_From_Today : option Z;
  c_Pours : list string;
  c_Discipline_Category : string
}.

Global Instance Cleaned_eq_dec : EqDecision Cleaned.
Proof. solve_decision. Defined.

(** [str(x)] of a table cell holding text *)
Definition py_str (cell : option string) : string := default "None" cell.

Section Normaliser.

(** Rendering of a table date by [astype(str)]; pandas is not part of the
    repository, so the rendering is a parameter. *)
Variable date_str : option Z → string.

(** [record.get(key, "")] followed by [str] *)
Definition get_text (df : DataFrame) (col : string) (cell : option string) : string :=
  if has_column df col then py_str cell else "".

(** The body of the cleaning loop (lines 308-442): [None] is [continue] *)
Definition clean_record (df : DataFrame) (report_type : string)
    (record : FilteredRow) : option Cleaned :=
  let '(row, days_from_today) := record in
  let Description := get_text df "Description" (Description row) in
  let Discipline := get_text df "Discipline" (Discipline row) in
  let description := lower Description in
  if bool_decide (description = "") then None
  else
    let Pours := extract_pours description in
    match categorize_discipline Discipline with
    | Dropped | SkippedHSE => None
    | Category cat =>
        Some {| c_Description := Description;
                c_Discipline := Discipline;
                c_Created_Date := date_str (Created_Date row);
                c_Expected_Close_Date :=
                  if has_column df "Expected Close Date (WET)"
                  then date_str (Expected_Close_Date row) else "";
                c_Status := py_str (Status row);
                c_Days := default 0 (Days row);
                c_Tower := tower_of description;
                c_Days_From_Today :=
                  if bool_decide (report_type = "Open")
                  then Some (default 0 days_from_today) else None;
                c_Pours := Pours;
                c_Discipline_Category := cat |}
    end.

Definition clean (df : DataFrame) (report_type : string)
    (processed_data : list FilteredRow) : list Cleaned :=
  omap (clean_record df report_type) processed_data.

End Normaliser.

(** *** Removal of duplicates (lines 444-450) *)

Inductive pyval : Type :=
| VStr (s : string)
| VInt (i : Z)
| VList (l : list string).

(** [hash(v)] raises [TypeError] on a list *)
Definition hashable (v : pyval) : bool :=
  match v with VList _ => false | _ => true end.

(** [sorted(d.items())] *)
Definition items (d : Cleaned) : list (string * pyval) :=
  [("Created Date (WET)", VStr (c_Created_Date d)); ("Days", VInt (c_Days d))]
  ++ match c_Days_From_Today d with
     | Some n => [("Days_From_Today", VInt n)]
     | None => []
     end
  ++ [("Description", VStr (c_Description d));
      ("Discipline", VStr (c_Discipline d));
      ("Discipline_Category", VStr (c_Discipline_Category d));
      ("Expected Close Date (WET)", VStr (c_Expected_Close_Date d));
      ("Pours", VList (c_Pours d));
      ("Status", VStr (c_Status d));
      ("Tower", VStr (c_Tower d))].

(** Building the set of item tuples raises as soon as one tuple cannot be
    hashed; the handler then keeps [cleaned_data] as it is.  When every
    tuple hashes, the records are kept once each (the order of a Python set
    is not specified; the order of first occurrence stands for it). *)
Definition remove_duplicates (cleaned_data : list Cleaned) : list Cleaned :=
  if forallb (λ d, forallb (λ kv, hashable kv.2) (items d)) cleaned_data
  then remove_dups cleaned_data
  else cleaned_data.

(** ** The chunk loop: [for i in range(0, len(data), chunk_size)] *)

(** [range(0, n, step)] for a positive step *)
Definition range_step (n step : nat) : list nat :=
  (λ k, (k * step)%nat) <$> seq 0 (Nat.div (n + step - 1) step).

(** [data[i:i + chunk_size]] for every [i] of the loop, with the number
    [i // chunk_size] of the chunk *)
Definition chunks {A} (chunk_size : nat) (data : list A) : list (nat * list A) :=
  (λ i, (Nat.div i chunk_size, take chunk_size (drop i data)))
    <$> range_step (length data) chunk_size.

(** ** Aggregation of the NCR report (lines 464-702) *)

Module Ncr.

(** The dictionary kept for one site *)
Record Bucket : Type := mkBucket {
  Descriptions : list string;
  Created : list string;
  Expected_Close : list string;
  Statuses : list string;
  Disciplines : list string;
  Pours : list (list string);
  SW : Z;
  FW : Z;
  MEP : Z;
  Total : Z;
  PoursCount : gmap string Z
}.

Definition new_bucket : Bucket :=
  mkBucket [] [] [] [] [] [] 0 0 0 0 ∅.

(** [all_results[report_type]] *)
Record Agg : Type := mkAgg {
  Sites : gmap string Bucket;
  Grand_Total : Z
}.

Definition empty_agg : Agg := mkAgg ∅ 0.

Global Instance Bucket_eq_dec : EqDecision Bucket.
Proof. solve_decision. Defined.
Global Instance Agg_eq_dec : EqDecision Agg.
Proof. solve_decision. Defined.

Definition set_Descriptions f b := mkBucket (f (Descriptions b)) (Created b)
  (Expected_Close b) (Statuses b) (Disciplines b) (Pours b) (SW b) (FW b) (MEP b)
  (Total b) (PoursCount b).
Definition set_Created f b := mkBucket (Descriptions b) (f (Created b))
  (Expected_Close b) (Statuses b) (Disciplines b) (Pours b) (SW b) (FW b) (MEP b)
  (Total b) (PoursCount b).
Definition set_Expected_Close f b := mkBucket (Descriptions b) (Created b)
  (f (Expected_Close b)) (Statuses b) (Disciplines b) (Pours b) (SW b) (FW b) (MEP b)
  (Total b) (PoursCount b).
Definition set_Statuses f b := mkBucket (Descriptions b) (Created b)
  (Expected_Close b) (f (Statuses b)) (Disciplines b) (Pours b) (SW b) (FW b) (MEP b)
  (Total b) (PoursCount b).
Definition set_Disciplines f b := mkBucket (Descriptions b) (Created b)
  (Expected_Close b) (Statuses b) (f (Disciplines b)) (Pours b) (SW b) (FW b) (MEP b)
  (Total b) (PoursCount b).
Definition set_Pours f b := mkBucket (Descriptions b) (Created b)
  (Expected_Close b) (Statuses b) (Disciplines b) (f (Pours b)) (SW b) (FW b) (MEP b)
  (Total b) (PoursCount b).
Definition set_SW f b := mkBucket (Descriptions b) (Created b)
  (Expected_Close b) (Statuses b) (Disciplines b) (Pours b) (f (SW b)) (FW b) (MEP b)
  (Total b) (PoursCount b).
Definition set_FW f b := mkBucket (Descriptions b) (Created b)
  (Expected_Close b) (Statuses b) (Disciplines b) (Pours b) (SW b) (f (FW b)) (MEP b)
  (Total b) (PoursCount b).
Definition set_MEP f b := mkBucket (Descriptions b) (Created b)
  (Expected_Close b) (Statuses b) (Disciplines b) (Pours b) (SW b) (FW b) (f (MEP b))
  (Total b) (PoursCount b).
Definition set_Total f b := mkBucket (Descriptions b) (Created b)
  (Expected_Close b) (Statuses b) (Disciplines b) (Pours b) (SW b) (FW b) (MEP b)
  (f (Total b)) (PoursCount b).
Definition set_PoursCount f b := mkBucket (Descriptions b) (Created b)
  (Expected_Close b) (Statuses b) (Disciplines b) (Pours b) (SW b) (FW b) (MEP b)
  (Total b) (f (PoursCount b)).

(** [counts[key] = counts.get(key, 0) + n] *)
Definition bump (key : string) (n : Z) (counts : gmap string Z) : gmap string Z :=
  <[key := default 0 (counts !! key) + n]> counts.

(** [if site not in Sites: Sites[site] = {...}] *)
Definition ensure_site (site : string) (agg : Agg) : Agg :=
  match Sites agg !! site with
  | Some _ => agg
  | None => mkAgg (<[site := new_bucket]> (Sites agg)) (Grand_Total agg)
  end.

(** An update in place of [Sites[site]] *)
Definition update_site (site : string) (f : Bucket → Bucket) (agg : Agg) : Agg :=
  mkAgg (alter f site (Sites agg)) (Grand_Total agg).

Definition add_total (n : Z) (agg : Agg) : Agg :=
  mkAgg (Sites agg) (Grand_Total agg + n).

(** *** The local aggregator [process_chunk_locally] (lines 659-702)

    [process_chunk_locally] below is the function as written, that is what a
    call does when its body runs; the decorator of line 659 is [cache_data],
    and the handlers of the chunk loop call the function through it. *)

Definition count_discipline (discipline : string) (b : Bucket) : Bucket :=
  if bool_decide (discipline = "SW") then set_SW (Z.succ) b
  else if bool_decide (discipline = "FW") then set_FW (Z.succ) b
  else if bool_decide (discipline = "MEP") then set_MEP (Z.succ) b
  else b.

Definition add_record (record : Cleaned) (b : Bucket) : Bucket :=
  let b := set_Descriptions (λ l, l ++ [c_Description record]) b in
  let b := set_Created (λ l, l ++ [c_Created_Date record]) b in
  let b := set_Expected_Close (λ l, l ++ [c_Expected_Close_Date record]) b in
  let b := set_Statuses (λ l, l ++ [c_Status record]) b in
  let b := set_Disciplines (λ l, l ++ [c_Discipline record]) b in
  let b := set_Pours (λ l, l ++ [c_Pours record]) b in
  let b := count_discipline (c_Discipline_Category record) b in
  let b := set_Total (λ n, n + 1) b in
  set_PoursCount (λ pc, foldl (λ pc pour, bump pour 1 pc) pc (c_Pours record)) b.

Definition process_record (agg : Agg) (record : Cleaned) : Agg :=
  let tower := c_Tower record in
  add_total 1 (update_site tower (add_record record) (ensure_site tower agg)).

Definition process_chunk_locally (chunk : list Cleaned) (all_results : Agg) : Agg :=
  foldl process_record all_results chunk.

(** [@st.cache_data] (line 659).  The decorator keeps, for the life of the
    process, the arguments of the calls whose body it has run, as they were
    when the call was made.  A call with the arguments of an earlier call
    is answered from the cache: the body is not run, and [all_results],
    which the body would have updated in place, stays as it is. *)
Definition Key : Type := list Cleaned * Agg * string.
Definition Cache : Type := list Key.

Definition cache_data (f : list Cleaned → Agg → Agg)
    (chunk : list Cleaned) (all_results : Agg) (report_type : string)
    (cache : Cache) : Agg * Cache :=
  let key := (chunk, all_results, report_type) in
  if bool_decide (key ∈ cache) then (all_results, cache)
  else (f chunk all_results, key :: cache).

(** *** The reply of the completion service and its merge (lines 547-617)

    A field of the reply that is missing, or of a type on which the merging
    statement raises, is [None]. *)

Record RemoteSite : Type := mkRemoteSite {
  r_Descriptions : option (list string);
  r_Created : option (list string);
  r_Expected_Close : option (list string);
  r_Statuses : option (list string);
  r_Disciplines : option (list string);
  r_Pours : option (list (list string));
  r_SW : option Z;
  r_FW : option Z;
  r_MEP : option Z;
  r_Total : option Z;
  r_PoursCount : option (list (string * option Z))
}.

(** [parsed_json[report_type]]: its ["Sites"] in the order of the reply; a
    site whose value is not an object is [None]. *)
Record ChunkResult : Type := mkChunkResult {
  r_Sites : option (list (string * option RemoteSite))
}.

(** What the call for one chunk produces: an exception of the transport or
    of the decoding of the HTTP body, or a status code with the value of
    [clean_and_parse_json] on the generated text ([None] when nothing
    usable was parsed, else the top-level object). *)
Inductive Reply : Type :=
| Raised
| Http (status_code : Z) (parsed_json : option (gmap string ChunkResult)).

(** Statements that may raise keep the effects made so far: a computation
    returns the new aggregate and [None] when an exception was raised. *)
Definition M (A : Type) : Type := Agg → Agg * option A.

Global Instance M_ret : MRet M := λ A a agg, (agg, Some a).
Global Instance M_bind : MBind M := λ A B f m agg,
  match m agg with
  | (agg', Some a) => f a agg'
  | (agg', None) => (agg', None)
  end.

Definition raise {A} : M A := λ agg, (agg, None).
Definition exec (f : Agg → Agg) : M unit := λ agg, (f agg, Some ()).

(** Reading a field of the reply: [KeyError]/[TypeError] when unusable *)
Definition field {A} (o : option A) : M A :=
  match o with Some a => mret a | None => raise end.

Fixpoint for_each {A} (l : list A) (body : A → M unit) : M unit :=
  match l with
  | [] => mret ()
  | x :: l' => body x ≫= λ _, for_each l' body
  end.

(** The loop over [data["PoursCount"].items()] *)
Definition merge_pours_count (site : string) (counts : list (string * option Z)) : M unit :=
  for_each counts (λ '(pour, count),
    count ← field count;
    exec (update_site site (set_PoursCount (bump pour count)))).

Definition merge_site (site : string) (data : option RemoteSite) : M unit :=
  exec (ensure_site site);;
  data ← field data;
  l ← field (r_Descriptions data);
  exec (update_site site (set_Descriptions (λ old, old ++ l)));;
  l ← field (r_Created data);
  exec (update_site site (set_Created (λ old, old ++ l)));;
  l ← field (r_Expected_Close data);
  exec (update_site site (set_Expected_Close (λ old, old ++ l)));;
  l ← field (r_Statuses data);
  exec (update_site site (set_Statuses (λ old, old ++ l)));;
  l ← field (r_Disciplines data);
  exec (update_site site (set_Disciplines (λ old, old ++ l)));;
  l ← field (r_Pours data);
  exec (update_site site (set_Pours (λ old, old ++ l)));;
  n ← field (r_SW data);
  exec (update_site site (set_SW (λ old, old + n)));;
  n ← field (r_FW data);
  exec (update_site site (set_FW (λ old, old + n)));;
  n ← field (r_MEP data);
  exec (update_site site (set_MEP (λ old, old + n)));;
  n ← field (r_Total data);
  exec (update_site site (set_Total (λ old, old + n)));;
  counts ← field (r_PoursCount data);
  merge_pours_count site counts.

(** The body of the [if parsed_json and report_type in parsed_json] branch *)
Definition merge_chunk (chunk_result : ChunkResult) (chunk : list Cleaned) : M unit :=
  sites ← field (r_Sites chunk_result);
  for_each sites (λ '(site, data), merge_site site data);;
  exec (add_total (Z.of_nat (length chunk))).

(** One iteration of the chunk loop: the [try] and its handlers, with the
    cache of the local aggregator before and after *)
Definition process_chunk (report_type : string) (chunk : list Cleaned)
    (reply : Reply) (all_results : Agg) (cache : Cache) : Agg * Cache :=
  match reply with
  | Http 200 (Some parsed_json) =>
      match parsed_json !! report_type with
      | Some chunk_result =>
          match merge_chunk chunk_result chunk all_results with
          | (all_results', Some _) => (all_results', cache)
          | (all_results', None) =>
              cache_data process_chunk_locally chunk all_results' report_type cache
          end
      | None => cache_data process_chunk_locally chunk all_results report_type cache
      end
  | _ => cache_data process_chunk_locally chunk all_results report_type cache
  end.

(** The chunk loop, from the cache the process has when the loop begins *)
Definition aggregate (report_type : string) (chunk_size : nat)
    (service : nat → Reply) (cleaned_data : list Cleaned) (cache : Cache)
    : Agg * Cache :=
  foldl (λ '(all_results, cache) '(k, chunk),
           process_chunk report_type chunk (service k) all_results cache)
        (empty_agg, cache) (chunks chunk_size cleaned_data).

(** [sum(bucket["Total"] for bucket in Sites.values())] *)
Definition sum_totals (sites : gmap string Bucket) : Z :=
  map_fold (λ _ b acc, Total b + acc) 0 sites.

End Ncr.

(** ** The NCR report generator, from the table to the payload *)

(** What the generator takes from its surroundings: the token of
    [get_access_token] ([None] when the token service fails), the value of
    [int(os.getenv("CHUNK_SIZE", 20))], the reply of the completion service
    to each chunk, and the cache of the local aggregator. *)
Record Env : Type := mkEnv {
  access_token : option string;
  CHUNK_SIZE : Z;
  service : nat → Ncr.Reply;
  cache : Ncr.Cache
}.

(** [not access_token]: no token, or an empty one *)
Definition no_token (access_token : option string) : bool :=
  match access_token with
  | Some token => bool_decide (token = "")
  | None => true
  end.

(** [str(missing_columns)] *)
Definition list_repr (l : list string) : string :=
  "[" +:+ String.concat ", " ((λ c, "'" +:+ c +:+ "'") <$> l) +:+ "]".

Definition no_records_message (report_type : string) : string :=
  "No " +:+ report_type +:+ " records found with duration > 21 days".

(** The status, age and date filter of the report type (lines 225-284) *)
Definition ncr_filter (df : DataFrame) (report_type : string)
    (start_date end_date until_date : DateArg) : string + list FilteredRow :=
  if bool_decide (report_type = "Closed")
  then filter_closed df start_date end_date
  else filter_open df until_date.

Section Generator.

Variable date_str : option Z → string.
Variable env : Env.

Definition generate_ncr_report_for_eden (df : option DataFrame)
    (report_type : string) (start_date end_date until_date : DateArg)
    : Payload Ncr.Agg :=
  match df with
  | None => ErrorPayload "Empty DataFrame"
  | Some df =>
    if df_empty df then ErrorPayload "Empty DataFrame"
    else if negb (bool_decide (report_type ∈ ["Open"; "Closed"]))
    then ErrorPayload "Invalid report_type"
    else
      let missing_columns :=
        filter (λ col, col ∉ columns df) ["Created Date (WET)"; "Status"] in
      if negb (bool_decide (missing_columns = []))
      then ErrorPayload ("Missing columns: " +:+ list_repr missing_columns)
      else
        match ncr_filter df report_type start_date end_date until_date with
        | inl msg => ErrorPayload msg
        | inr [] => ErrorPayload (no_records_message report_type)
        | inr processed_data =>
            let cleaned_data :=
              remove_duplicates (clean date_str df report_type processed_data) in
            match cleaned_data with
            | [] => Report report_type Ncr.empty_agg
            | _ :: _ =>
                if no_token (access_token env)
                then ErrorPayload "Failed to obtain access token"
                else
                  (* [range] raises on a zero step and is empty on a
                     negative one *)
                  if bool_decide (CHUNK_SIZE env = 0)
                  then ErrorPayload "Unexpected Error: range() arg 3 must not be zero"
                  else if bool_decide (CHUNK_SIZE env < 0)
                  then Report report_type Ncr.empty_agg
                  else Report report_type
                         (Ncr.aggregate report_type (Z.to_nat (CHUNK_SIZE env))
                                        (service env) cleaned_data (cache env)).1
            end
        end
  end.

End Generator.

(** ** Aggregation of the Safety and Housekeeping reports
    (lines 807-1044 and 1241-1509) *)

Module Hse.

(** The value a record holds under "Days": a number, the float [NaN] of
    an empty cell of a numeric column, or the [None] of an empty cell of a
    column of objects *)
Inductive Cell : Type :=
| Num (n : Z)
| NaN
| PyNone.

(** The type pandas gave the column "Days" of the table, which decides
    what [to_dict] hands out for an empty cell *)
Inductive Dtype : Type :=
| Float64
| Object.

Definition cell_of (dtype : Dtype) (cell : option Z) : Cell :=
  match cell, dtype with
  | Some n, _ => Num n
  | None, Float64 => NaN
  | None, Object => PyNone
  end.

(** The dictionary [cleaned_record] of these two generators.
    [Days_From_Today] is [None] when the key is absent (Closed report); a
    key that is present holds a number. *)
Record Cleaned : Type := mkCleaned {
  c_Description : string;
  c_Created_Date : string;
  c_Expected_Close_Date : string;
  c_Status : string;
  c_Days : Cell;
  c_Days_From_Today : option Z;
  c_Discipline : string;
  c_Tower : string
}.

Record Bucket : Type := mkBucket {
  Count : Z;
  Descriptions : list string;
  Created : list string;
  Expected_Close : list string;
  Statuses : list string
}.

Definition new_bucket : Bucket := mkBucket 0 [] [] [] [].

Record Agg : Type := mkAgg {
  Sites : gmap string Bucket;
  Grand_Total : Z
}.

Definition empty_agg : Agg := mkAgg ∅ 0.

(** The arrays and count of one site of the reply, with the defaults of
    [values.get(key, default)] already applied *)
Record SiteValues : Type := mkSiteValues {
  v_Descriptions : list string;
  v_Created : list string;
  v_Expected_Close : list string;
  v_Statuses : list string;
  v_Count : Z
}.

(** [parsed_json.get(key, {})] with its ["Sites"] (a value that is not an
    object is [None]) and ["Grand_Total"], defaults applied *)
Record ChunkResult : Type := mkChunkResult {
  chunk_sites : list (string * option SiteValues);
  chunk_grand_total : Z
}.

Definition no_result : ChunkResult := mkChunkResult [] 0.

(** The generated text of a 200 reply: no balanced object found by the
    brace scan, an object [json.loads] rejects, an object whose members
    have a type on which the merge raises (no handler of the loop catches
    that), or a decoded object. *)
Inductive Generated : Type :=
| NoObject
| Undecodable
| IllTyped
| Decoded (parsed_json : gmap string ChunkResult).

Inductive Reply : Type :=
| ReadTimeout
| RequestException
| Http (status_code : Z) (text : Generated).

Definition ensure_site (site : string) (result : Agg) : Agg :=
  match Sites result !! site with
  | Some _ => result
  | None => mkAgg (<[site := new_bucket]> (Sites result)) (Grand_Total result)
  end.

Definition update_site (site : string) (f : Bucket → Bucket) (result : Agg) : Agg :=
  mkAgg (alter f site (Sites result)) (Grand_Total result).

Definition add_total (n : Z) (result : Agg) : Agg :=
  mkAgg (Sites result) (Grand_Total result + n).

(** [record.get(key, 0)] for the numeric keys of a record *)
Definition get_number (key : string) (record : Cleaned) : Cell :=
  if bool_decide (key = "Days") then c_Days record
  else if bool_decide (key = "Days_From_Today")
  then Num (default 0 (c_Days_From_Today record))
  else Num 0.

(** [x > n]: false on [NaN]; on [None] the comparison raises [TypeError],
    which is the result [None] here *)
Definition gt (x : Cell) (n : Z) : option bool :=
  match x with
  | Num x => Some (bool_decide (n < x))
  | NaN => Some false
  | PyNone => None
  end.

Section Generator.

(** The word list of the report, the key of its result and the key its
    fallback reads for the age of an open record. *)
Variable keywords : list string.
Variable report_key : string.
Variable open_days_key : string.

(** [is_housekeeping_record] / [is_safety_record] *)
Definition is_report_record (description : string) : bool :=
  let description_lower := lower description in
  existsb (λ keyword, contains keyword description_lower) keywords.

(** The condition of the fallback loops,
    [is_report_record(...) and (Days > 7 or open_days > 7) and Discipline == "HSE"]:
    [and] and [or] evaluate their right operand only when the left one does
    not decide, and the result is [None] when a comparison that is reached
    raises. *)
Definition counted_locally (record : Cleaned) : option bool :=
  if is_report_record (c_Description record)
  then
    old ← (days ← gt (get_number "Days" record) 7;
           if days : bool then Some true
           else gt (get_number open_days_key record) 7);
    Some (old && bool_decide (c_Discipline record = "HSE"))
  else Some false.

Definition add_record (record : Cleaned) (b : Bucket) : Bucket :=
  mkBucket (Count b + 1)
           (Descriptions b ++ [c_Description record])
           (Created b ++ [c_Created_Date record])
           (Expected_Close b ++ [c_Expected_Close_Date record])
           (Statuses b ++ [c_Status record]).

(** The fallback loop, the same in every handler; [None] when the
    condition raises on a record: no handler of the loop over the chunks
    catches a [TypeError], and the generator returns an error payload. *)
Definition count_record (result : Agg) (record : Cleaned) : option Agg :=
  counted ← counted_locally record;
  Some (if counted : bool
        then let site := c_Tower record in
             add_total 1 (update_site site (add_record record)
                                      (ensure_site site result))
        else result).

Definition count_locally (chunk : list Cleaned) (result : Agg) : option Agg :=
  foldl (λ result record, result ← result; count_record result record)
        (Some result) chunk.

Definition merge_values (values : SiteValues) (b : Bucket) : Bucket :=
  mkBucket (Count b + v_Count values)
           (Descriptions b ++ v_Descriptions values)
           (Created b ++ v_Created values)
           (Expected_Close b ++ v_Expected_Close values)
           (Statuses b ++ v_Statuses values).

(** The merge of a decoded reply *)
Definition merge_chunk (chunk_result : ChunkResult) (result : Agg) : Agg :=
  add_total (chunk_grand_total chunk_result)
    (foldl (λ result '(site, values),
              match values with
              | None => result
              | Some values =>
                  update_site site (merge_values values) (ensure_site site result)
              end)
           result (chunk_sites chunk_result)).

(** One iteration of the chunk loop; [None] when an exception leaves the
    loop and the generator returns an error payload. *)
Definition process_chunk (chunk : list Cleaned) (reply : Reply) (result : Agg)
    : option Agg :=
  match reply with
  | Http 200 (Decoded parsed_json) =>
      Some (merge_chunk (default no_result (parsed_json !! report_key)) result)
  | Http 200 IllTyped => None
  | _ => count_locally chunk result
  end.

(** [list(set(l))]; the order of first occurrence stands for the
    unspecified order of a Python set *)
Definition dedup_bucket (b : Bucket) : Bucket :=
  mkBucket (Count b) (remove_dups (Descriptions b)) (remove_dups (Created b))
           (remove_dups (Expected_Close b)) (remove_dups (Statuses b)).

(** The loop over the chunks of ten records and the final pass *)
Definition aggregate (service : nat → Reply) (cleaned_data : list Cleaned)
    : Payload Agg :=
  match foldl (λ result '(k, chunk),
                 result ← result; process_chunk chunk (service k) result)
              (Some empty_agg) (chunks 10 cleaned_data) with
  | Some result =>
      Report report_key (mkAgg (dedup_bucket <$> Sites result) (Grand_Total result))
  | None => ErrorPayload "Unexpected Error"
  end.

End Generator.

End Hse.

Definition housekeeping_keywords : list string :=
  ["housekeeping"; "cleaning"; "cleanliness"; "waste disposal"; "waste management";
   "garbage"; "trash"; "rubbish"; "debris"; "litter"; "dust"; "untidy"; "cluttered";
   "accumulation of waste"; "construction waste"; "pile of garbage";
   "poor housekeeping"; "material storage"; "construction debris";
   "cleaning schedule"; "garbage collection"; "waste bins"; "dirty"; "mess";
   "unclean"; "disorderly"; "dirty floor"; "waste disposal area"; "waste collection";
   "cleaning protocol"; "sanitation"; "trash removal"; "waste accumulation";
   "unkept area"; "refuse collection"; "workplace cleanliness"].

Definition safety_keywords : list string :=
  ["safety precautions"; "temporary electricity";
   "on-site labor is working without wearing safety belt"; "safety norms";
   "Missing Cabin Glass – Tower Crane"; "Crane Operator cabin front glass";
   "site on priority basis lifeline is not fixed at the working place";
   "operated only after Third Party Inspection and certification crane operated without TPIC";
   "safety precautions are not taken seriously at site Tower crane operator cabin front glass is missing while crane operator is working inside cabin";
   "no barrier around";
   "Lock and Key arrangement to restrict unauthorized operations, buzzer while operation, gates at landing platforms, catch net in the vicinity";
   "safety precautions are not taken seriously"; "firecase"; "Health and Safety Plan";
   "noticed that submission of statistics report is regularly delayed";
   "crane operator cabin front glass is missing while crane operator is working inside cabin";
   "labor is working without wearing safety belt"; "barricading"; "tank";
   "safety shoes"; "safety belt"; "helmet"; "lifeline"; "guard rails";
   "fall protection"; "PPE"; "electrical hazard"; "unsafe platform"; "catch net";
   "edge protection"; "TPI"; "scaffold"; "lifting equipment"; "dust suppression";
   "debris chute"; "spill control"; "crane operator"; "halogen lamps";
   "fall catch net"; "environmental contamination"; "fire hazard";
   " continuous down slope movement of soil"; "continuous collapse of soil leading "].

(** The chunk loop of [generate_ncr_Housekeeping_report_for_eden] *)
Definition housekeeping_aggregate : (nat → Hse.Reply) → list Hse.Cleaned → Payload Hse.Agg :=
  Hse.aggregate housekeeping_keywords "Housekeeping" "Days_From_Today".

(** The chunk loop of [generate_ncr_Safety_report_for_eden] *)
Definition safety_aggregate : (nat → Hse.Reply) → list Hse.Cleaned → Payload Hse.Agg :=
  Hse.aggregate safety_keywords "Safety" "Days_From_Reference".

(** ** Notions used by the statements *)

(** The bucket of a site, an absent site reading as a fresh bucket *)
Definition bucket_of (site : string) (agg : Ncr.Agg) : Ncr.Bucket :=
  default Ncr.new_bucket (Ncr.Sites agg !! site).

(** The records of a chunk that belong to a site *)
Definition records_of (site : string) (chunk : list Cleaned) : list Cleaned :=
  filter (λ record, c_Tower record = site) chunk.

(** A reply on which nothing is merged: the transport raised, the status
    is not 200, nothing was parsed, or the parsed object lacks the key of
    the report type. *)
Definition unusable (report_type : string) (reply : Ncr.Reply) : bool :=
  match reply with
  | Ncr.Http 200 (Some parsed_json) => bool_decide (parsed_json !! report_type = None)
  | _ => true
  end.

(** A cache without a key that holds a chunk of the list for the report
    type: none of these chunks was handed to the local aggregator for this
    report type before.  The empty cache of a new process is one. *)
Definition fresh (report_type : string) (cl : list (nat * list Cleaned))
    (cache : Ncr.Cache) : Prop :=
  ∀ k chunk all_results,
    (k, chunk) ∈ cl → (chunk, all_results, report_type) ∉ cache.

(** A site of the reply with every member present and well typed *)
Definition complete_site (data : option Ncr.RemoteSite) : bool :=
  match data with
  | Some d =>
      bool_decide (is_Some (Ncr.r_Descriptions d))
      && bool_decide (is_Some (Ncr.r_Created d))
      && bool_decide (is_Some (Ncr.r_Expected_Close d))
      && bool_decide (is_Some (Ncr.r_Statuses d))
      && bool_decide (is_Some (Ncr.r_Disciplines d))
      && bool_decide (is_Some (Ncr.r_Pours d))
      && bool_decide (is_Some (Ncr.r_SW d))
      && bool_decide (is_Some (Ncr.r_FW d))
      && bool_decide (is_Some (Ncr.r_MEP d))
      && bool_decide (is_Some (Ncr.r_Total d))
      && match Ncr.r_PoursCount d with
         | Some counts => forallb (λ pc : string * option Z, bool_decide (is_Some pc.2)) counts
         | None => false
         end
  | None => false
  end.

(** The sum of the totals the reply reports for its sites *)
Definition reported_total (sites : list (string * option Ncr.RemoteSite)) : Z :=
  foldr (λ sd acc, default 0 (sd.2 ≫= Ncr.r_Total) + acc) 0 sites.

(** A reply that is either unusable, or complete with reported totals that
    add up to the size of the chunk *)
Definition accurate (report_type : string) (chunk : list Cleaned)
    (reply : Ncr.Reply) : bool :=
  match reply with
  | Ncr.Http 200 (Some parsed_json) =>
      match parsed_json !! report_type with
      | Some chunk_result =>
          match Ncr.r_Sites chunk_result with
          | Some sites =>
              forallb (λ sd : string * option Ncr.RemoteSite, complete_site sd.2) sites
              && bool_decide (reported_total sites = Z.of_nat (length chunk))
          | None => false
          end
      | None => true
      end
  | _ => true
  end.

(** A reply of the Safety/Housekeeping service that sends the chunk to the
    fallback loop: a timeout, a request error, a status other than 200, or
    a text without a decodable object. *)
Definition falls_back (reply : Hse.Reply) : bool :=
  match reply with
  | Hse.Http 200 (Hse.Decoded _) | Hse.Http 200 Hse.IllTyped => false
  | _ => true
  end.

(** A number above 7 under "Days", and one under "Days_From_Today" *)
Definition days_over_7 (record : Hse.Cleaned) : Prop :=
  ∃ n, Hse.c_Days record = Hse.Num n ∧ 7 < n.
Definition open_over_7 (record : Hse.Cleaned) : Prop :=
  ∃ n, Hse.c_Days_From_Today record = Some n ∧ 7 < n.

(** A computation that leaves the grand total alone, whether it raises or
    not *)
Definition keeps {A} (m : Ncr.M A) : Prop :=
  ∀ agg, Ncr.Grand_Total (m agg).1 = Ncr.Grand_Total agg.

(** The groups a pattern may set, and those every match of it sets to a
    non-empty run of digits *)
Fixpoint groups (r : regex) : list nat :=
  match r with
  | Grp n r => n :: groups r
  | Cat r1 r2 | Alt r1 r2 => groups r1 ++ groups r2
  | Opt r => groups r
  | _ => []
  end.

Fixpoint digit_groups (r : regex) : list nat :=
  match r with
  | Grp n (Plus Digit) => [n]
  | Grp n r => filter (λ k, k ≠ n) (digit_groups r)
  | Cat r1 r2 => digit_groups r2 ++ filter (λ k, k ∉ groups r2) (digit_groups r1)
  | Alt r1 r2 => filter (λ k, k ∈ digit_groups r2) (digit_groups r1)
  | _ => []
  end.

(** A non-empty run of decimal digits *)
Definition digits (l : list ascii) : Prop :=
  l ≠ [] ∧ Forall (λ x, is_digit x = true) l.

Definition digits_at (n : nat) (c : caps) : Prop := digits (group c n).

(** The forms of a tower name; [ok] is what is asked of a tower number *)
Definition tower_form (ok : list ascii → Prop) (tower : string) : Prop :=
  tower = "Eden-Club" ∨ tower = "Common_Area"
  ∨ (∃ n, ok n ∧ tower = "Eden-Tower-" +:+ str n)
  ∨ (∃ n m, ok n ∧ ok m
            ∧ tower = "Eden-Tower-" +:+ str n +:+ "-" +:+ str m +:+ "-CommonArea").

(** Exactly two digits, and at least two digits *)
Definition two_digits (n : list ascii) : Prop :=
  length n = 2%nat ∧ Forall (λ x, is_digit x = true) n.
Definition padded_digits (n : list ascii) : Prop :=
  (2 ≤ length n)%nat ∧ Forall (λ x, is_digit x = true) n.

(** A label [P<n>] *)
Definition pour_label (x : string) : Prop := ∃ n : Z, 0 ≤ n ∧ x = P n.

(** The forms of the list of pours: the sentinel, or a non-empty list of
    distinct labels in lexicographic order *)
Definition pours_form (pours : list string) : Prop :=
  pours = ["Common"]
  ∨ (pours ≠ [] ∧ StronglySorted String.le pours ∧ NoDup pours
     ∧ Forall pour_label pours).

(** A set of pours that only holds labels *)
Definition all_labels (pours : gset string) : Prop := ∀ x, x ∈ pours → pour_label x.

(** A "common area" or "flat no" marker in a text: the phrase "common
    area", or "flat" and "no" with nothing but blanks between them *)
Definition common_marker (description : string) : Prop :=
  contains "common area" description = true
  ∨ ∃ pre blanks post,
      Forall (λ x, is_space x = true) blanks
      ∧ chars description = pre ++ chars "flat" ++ blanks ++ chars "no" ++ post.

(** The text "pour <a> to <b>" *)
Definition pour_range_text (a b : list ascii) : string :=
  str (chars "pour " ++ a ++ chars " to " ++ b).

(** A repetition stops at the end of the text or in front of a character
    that is not of its class. *)
Definition stops (p : cls) (rest : list ascii) : Prop :=
  match rest with
  | [] => True
  | y :: _ => in_cls p (lower_char y) = false
  end.

(** A range match the first tier accepts *)
Definition accepted (m : caps) : Prop :=
  int (group m 1) ≤ int (group m 2) ∧ int (group m 2) - int (group m 1) ≤ 20.

(** A bucket whose arrays all have as many entries as its total says, and
    whose three discipline counters are counts of some of these entries *)
Definition consistent (b : Ncr.Bucket) : Prop :=
  Z.of_nat (length (Ncr.Descriptions b)) = Ncr.Total b
  ∧ Z.of_nat (length (Ncr.Created b)) = Ncr.Total b
  ∧ Z.of_nat (length (Ncr.Expected_Close b)) = Ncr.Total b
  ∧ Z.of_nat (length (Ncr.Statuses b)) = Ncr.Total b
  ∧ Z.of_nat (length (Ncr.Disciplines b)) = Ncr.Total b
  ∧ Z.of_nat (length (Ncr.Pours b)) = Ncr.Total b
  ∧ 0 ≤ Ncr.SW b ∧ 0 ≤ Ncr.FW b ∧ 0 ≤ Ncr.MEP b
  ∧ Ncr.SW b + Ncr.FW b + Ncr.MEP b ≤ Ncr.Total b.

(** The number of records of a list with a given discipline category *)
Definition with_category (cat : string) (records : list Cleaned) : Z :=
  Z.of_nat (length (filter (λ record, c_Discipline_Category record = cat) records)).

(** The number of times a pour is listed by the records of a list *)
Definition listed (pour : string) (records : list Cleaned) : Z :=
  Z.of_nat (length (filter (λ p, p = pour) (concat (c_Pours <$> records)))).

(** The records of a chunk that the fallback loop of the Safety and
    Housekeeping generators counts for a site *)
Definition counted_of (keywords : list string) (open_days_key : string)
    (site : string) (chunk : list Hse.Cleaned) : list Hse.Cleaned :=
  filter (λ record, Hse.c_Tower record = site)
         (filter (λ record, Hse.counted_locally keywords open_days_key record = Some true)
                 chunk).

(** A set of pours that only holds labels of numbers up to a limit *)
Definition labels_up_to (limit : Z) (pours : gset string) : Prop :=
  ∀ x, x ∈ pours → ∃ n : Z, 0 ≤ n ≤ limit ∧ x = P n.

(** ** The workbook writers (lines 1516-2603)

    Only what the writers compute is modelled: the names of the sheets, the
    site a key of the result is shown under, the level of a pour and the
    counts of the summary rows.  The cells and their formats are not. *)

(** [s[:k]] *)
Definition slice_to (k : Z) (l : list ascii) : list ascii :=
  if bool_decide (0 ≤ k) then take (Z.to_nat k) l
  else take (Z.to_nat (Z.of_nat (length l) + k)) l.

(** [truncate_sheet_name], the same in the four writers; every call leaves
    [max_length] at its default of 31 *)
Definition truncate_sheet_name (base_name : string) (max_length : Z) : string :=
  if bool_decide (max_length < Z.of_nat (length (chars base_name)))
  then str (slice_to (max_length - 3) (chars base_name)) +:+ "..."
  else base_name.

(** [s.split(sep)] for a non-empty separator: [cur] holds, last character
    first, the piece being read, and [skip] counts the characters of a
    separator still to step over *)
Fixpoint split_from (sep s : list ascii) (skip : nat) (cur : list ascii)
    : list (list ascii) :=
  match s with
  | [] => [reverse cur]
  | x :: s' =>
      match skip with
      | S k => split_from sep s' k cur
      | O =>
          if is_prefix sep s
          then reverse cur :: split_from sep s' (length sep - 1) []
          else split_from sep s' 0 (x :: cur)
      end
  end.

Definition split (sep s : string) : list (list ascii) :=
  split_from (chars sep) (chars s) 0 [].

(** [s.startswith(p)] *)
Definition startswith (p s : string) : bool := is_prefix (chars p) (chars s).

(** A character of [str.isdigit]: a digit 0-9 or one of the superscripts
    two and three (178, 179) and one (185), which [int] does not read *)
Definition is_digit_char (c : ascii) : bool :=
  (is_digit c || (code c =? 178) || (code c =? 179) || (code c =? 185))%nat.

(** [s.isdigit()] *)
Definition isdigit (s : list ascii) : bool :=
  bool_decide (s ≠ []) && forallb is_digit_char s.

(** The blanks [int] steps over at both ends: TAB, LF, VT, FF, CR, the
    space, NEL (133) and the no-break space (160) *)
Definition is_blank (c : ascii) : bool :=
  (((9 <=? code c) && (code c <=? 13)) || (code c =? 32)
   || (code c =? 133) || (code c =? 160))%nat.

Fixpoint lstrip_blank (l : list ascii) : list ascii :=
  match l with
  | c :: l' => if is_blank c then lstrip_blank l' else l
  | [] => []
  end.

(** The digits of an integer literal: single underscores may stand between
    two digits *)
Fixpoint literal (l : list ascii) (after_digit : bool) : bool :=
  match l with
  | [] => after_digit
  | x :: l' =>
      if is_digit x then literal l' true
      else if bool_decide (x = "_"%char) then after_digit && literal l' false
      else false
  end.

(** [int(s)]; [None] is [ValueError] *)
Definition py_int (s : list ascii) : option Z :=
  let s := reverse (lstrip_blank (reverse (lstrip_blank s))) in
  let '(sign, body) :=
    match s with
    | "+"%char :: body => (1, body)
    | "-"%char :: body => (-1, body)
    | _ => (1, s)
    end in
  if literal body false
  then Some (sign * int (filter (λ x, is_digit x = true) body))
  else None.

(** [f"Pour {num}" if 1 <= num <= 2], else the function goes on to its
    last line *)
Definition pour_level_of (num : option Z) : string :=
  match num with
  | Some num =>
      if bool_decide (1 ≤ num) && bool_decide (num ≤ 2) then "Pour " +:+ dec num
      else "common"
  | None => "common"
  end.

(** [map_pour_to_level] (lines 1882-1918 and 2227-2261), on a pour that is
    a text.  The branch of [isdigit] calls [int] outside a [try]: the call
    of the function raises [ValueError] when [int] rejects the text.
    [map_pour_to_level_raises] tells the texts on which it does, and
    [map_pour_to_level] is the value returned on the others. *)
Definition map_pour_to_level_raises (pour_name : string) : bool :=
  if bool_decide (pour_name = "") then false
  else
    let pour_str := lower (strip pour_name) in
    if startswith "module " pour_str then false
    else if startswith "pour " pour_str then false
    else if isdigit (chars pour_str)
    then bool_decide (py_int (chars pour_str) = None)
    else false.

Definition map_pour_to_level (pour_name : string) : string :=
  if bool_decide (pour_name = "") then "common"
  else
    let pour_str := lower (strip pour_name) in
    if startswith "module " pour_str
    then pour_level_of (split " " pour_str !! 1%nat ≫= py_int)
    else if startswith "pour " pour_str
    then pour_level_of (split " " pour_str !! 1%nat ≫= py_int)
    else if isdigit (chars pour_str)
    then pour_level_of (py_int (chars pour_str))
    else if bool_decide (pour_str ∈ ["common"; "general"; "misc"; "miscellaneous"; ""])
    then "common"
    else "common".

Definition pour_levels : list string := ["Pour 1"; "Pour 2"].

(** *** The site a key of the result is shown under *)

(** [r'(?:eden-)?tower-(\d+)(?:-(\d+))?-commonarea'] *)
Definition tower_common_pattern : regex :=
  (Opt (Lit "eden-") >> Lit "tower-" >> Grp 1 (Plus Digit)
   >> Opt (Lit "-" >> Grp 2 (Plus Digit)) >> Lit "-commonarea")%re.

(** [r'(?:eden-)?(?:tower|t)[- ]?(\d+)'] *)
Definition site_tower_pattern : regex :=
  (Opt (Lit "eden-") >> (Lit "tower" ||| Lit "t") >> Opt (Lit "-" ||| Lit " ")
   >> Grp 1 (Plus Digit))%re.

(** What [normalize_site_name] returns: a text, or a pair of texts for the
    common area of two towers *)
Inductive Normalized : Type :=
| Single (site : string)
| Combined (tower1 tower2 : string).

(** [site_mapping[k]]: the list of the sites a key is shown under *)
Definition shown_under (normalized : Normalized) : list string :=
  match normalized with
  | Single site => [site]
  | Combined tower1 tower2 => [tower1; tower2]
  end.

(** *** The summary rows of a tower in the NCR workbook
    ([generate_consolidated_ncr_OpenClose_excel_for_eden], lines 1940-2117) *)

Module OpenClose.

(** [normalize_site_name] (lines 1834-1864).  A key "Eden-Tower-" followed
    by digit characters of which one is a superscript makes [int] raise in
    the source; the value given here for such a key is not returned. *)
Definition normalize_site_name (site : string) : Normalized :=
  match search tower_common_pattern (chars site) with
  | Some (_, _, m) =>
      let tower_num1 := group m 1 in
      let tower_num2 := group m 2 in
      if bool_decide (tower_num2 ≠ [])
      then Combined ("Tower " +:+ dec (int tower_num1)) ("Tower " +:+ dec (int tower_num2))
      else Single ("Tower " +:+ dec (int tower_num1))
  | None =>
      if contains "CommonArea" site || contains "Common Area" site
      then Single "Common_Area"
      else
        let tower_num :=
          if startswith "Eden-Tower-" site
          then tower_num ← split "Eden-Tower-" site !! 1%nat;
               if isdigit tower_num then Some tower_num else None
          else None in
        match tower_num with
        | Some tower_num => Single ("Tower " +:+ dec (int tower_num))
        | None =>
            match search site_tower_pattern (chars site) with
            | Some (_, _, m) => Single ("Tower " +:+ dec (int (group m 1)))
            | None => Single site
            end
        end
  end.

(** The dictionary with the keys 'Civil Finishing', 'Structure Works' and
    'MEP' that a row of the summary is written from *)
Record Counts : Type := mkCounts {
  Civil_Finishing : Z;
  Structure_Works : Z;
  MEP : Z
}.

Definition no_counts : Counts := mkCounts 0 0 0.

(** [counts[cat] += 1]; [cat] is always one of the three keys *)
Definition tally (cat : string) (counts : Counts) : Counts :=
  if bool_decide (cat = "Civil Finishing")
  then mkCounts (Civil_Finishing counts + 1) (Structure_Works counts) (MEP counts)
  else if bool_decide (cat = "Structure Works")
  then mkCounts (Civil_Finishing counts) (Structure_Works counts + 1) (MEP counts)
  else if bool_decide (cat = "MEP")
  then mkCounts (Civil_Finishing counts) (Structure_Works counts) (MEP counts + 1)
  else counts.

(** [sum(counts.values())] *)
Definition total (counts : Counts) : Z :=
  Civil_Finishing counts + Structure_Works counts + MEP counts.

(** The category of an entry of the "Discipline" array in the rows of a
    tower *)
Definition category (discipline : string) : string :=
  if bool_decide (discipline = "SW") then "Structure Works"
  else if bool_decide (discipline = "FW") then "Civil Finishing"
  else if bool_decide (discipline ∈ ["MEP"; "HSE"]) then "MEP"
  else "Structure Works".

(** The counters of one side (resolved or open) of a tower: one dictionary
    for each level of [pour_levels] and one for the "Common Description"
    row *)
Record TowerCounts : Type := mkTowerCounts {
  pour_counts : gmap string Counts;
  common_counts : Counts
}.

Definition no_tower_counts : TowerCounts :=
  mkTowerCounts (list_to_map ((λ level, (level, no_counts)) <$> pour_levels)) no_counts.

(** The body of [for pour in pour_list] *)
Definition count_pour (cat : string) (tc : TowerCounts) (pour : string) : TowerCounts :=
  let pour_level := map_pour_to_level pour in
  if bool_decide (pour_level ∈ pour_levels)
  then mkTowerCounts (alter (tally cat) pour_level (pour_counts tc)) (common_counts tc)
  else mkTowerCounts (pour_counts tc) (tally cat (common_counts tc)).

(** [enumerate(l)], counting from [i] *)
Fixpoint enumerate {A} (i : nat) (l : list A) : list (nat * A) :=
  match l with
  | [] => []
  | x :: l' => (i, x) :: enumerate (S i) l'
  end.

(** [pours[i] if i < len(pours) else ['Common']] *)
Definition pour_list (pours : list (list string)) (i : nat) : list string :=
  default ["Common"] (pours !! i).

(** The loop [for i, discipline in enumerate(disciplines)] over the data of
    a key that is no common area *)
Definition count_entries (disciplines : list string) (pours : list (list string))
    (tc : TowerCounts) : TowerCounts :=
  foldl (λ tc '(i, discipline),
           foldl (count_pour (category discipline)) tc (pour_list pours i))
        tc (enumerate 0 disciplines).

(** [pour_counts[level]] and the sum of the row of a level *)
Definition level_counts (level : string) (tc : TowerCounts) : Counts :=
  default no_counts (pour_counts tc !! level).

(** [counts[cat]] of the head row of a tower: the levels and the common
    row added up (lines 2079-2081) *)
Definition row_counts (tc : TowerCounts) : Counts :=
  let sum f := foldr (λ level acc, f (level_counts level tc) + acc) 0 pour_levels in
  mkCounts (sum Civil_Finishing + Civil_Finishing (common_counts tc))
           (sum Structure_Works + Structure_Works (common_counts tc))
           (sum MEP + MEP (common_counts tc)).

(** The last cell of the head row, of the row of a level and of the
    "Common Description" row *)
Definition site_total (resolved open : TowerCounts) : Z :=
  total (row_counts resolved) + total (row_counts open).
Definition level_total (level : string) (resolved open : TowerCounts) : Z :=
  total (level_counts level resolved) + total (level_counts level open).
Definition common_total (resolved open : TowerCounts) : Z :=
  total (common_counts resolved) + total (common_counts open).

(** The dictionaries of the two levels are there *)
Definition levels_present (tc : TowerCounts) : Prop :=
  ∀ level, level ∈ pour_levels → is_Some (pour_counts tc !! level).

End OpenClose.

(** The number of pours the entries of a "Discipline" array are counted
    for: those of the entry of "Pours" at the same place, or one when that
    array is too short *)
Definition pours_counted (disciplines : list string) (pours : list (list string)) : Z :=
  foldr (λ '(i, _) acc, Z.of_nat (length (OpenClose.pour_list pours i)) + acc) 0
        (OpenClose.enumerate 0 disciplines).

(** *** The workbooks of the Housekeeping and Safety reports
    (lines 1516-1748) *)

Module HseExcel.

(** [normalize_site_name] (lines 1564-1573 and 1681-1690) *)
Definition normalize_site_name (site : string) : string :=
  if bool_decide (site = "Common_Area") then site
  else if contains "CommonArea" site || contains "Common Area" site then "Common_Area"
  else
    match search site_tower_pattern (chars site) with
    | Some (_, _, m) => "Eden-Tower " +:+ str (zfill 2 (group m 1))
    | None => site
    end.

Definition standard_sites : list string :=
  ["Eden-Tower 04"; "Eden-Tower 05"; "Eden-Tower 06"; "Eden-Tower 07"; "Common_Area"].

(** The cell of the summary for a site: the count of the first key of the
    result that is shown under the site.  [data] lists the sites of the
    result in the order of the dictionary. *)
Definition summary_value (data : list (string * Hse.Bucket)) (site : string) : Z :=
  match head (filter (λ kv, normalize_site_name kv.1 = site) data) with
  | Some (original_key, site_data) =>
      if bool_decide (original_key ≠ "") then Hse.Count site_data else 0
  | None => 0
  end.

End HseExcel.

(** *** The tower of a record of the Housekeeping report (lines 790-792) *)

(** [r"(tower|t)\s*-?\s*(\d+|2021|28)"] *)
Definition housekeeping_tower_pattern : regex :=
  (Grp 1 (Lit "tower" ||| Lit "t") >> Star Space >> Opt (Lit "-") >> Star Space
   >> Grp 2 (Plus Digit ||| Lit "2021" ||| Lit "28"))%re.

(** The value of [cleaned_record["Tower"]]; [description] is the stripped
    description *)
Definition housekeeping_tower (description : string) : string :=
  match search housekeeping_tower_pattern (chars (lower description)) with
  | Some (_, _, m) => "Eden-Tower" +:+ str (zfill 2 (group m 2))
  | None => "Common_Area"
  end.

(** ** Notions used for the patterns *)

(** A pattern all of whose matches hold a character that is [x] in lower
    case *)
Fixpoint must_have (r : regex) (x : ascii) : bool :=
  match r with
  | Lit l => bool_decide (x ∈ lower_char <$> chars l)
  | Cat r1 r2 => must_have r1 x || must_have r2 x
  | Alt r1 r2 => must_have r1 x && must_have r2 x
  | Grp _ r => must_have r x
  | _ => false
  end.

(** A pattern that only matches digits *)
Fixpoint digit_only (r : regex) : bool :=
  match r with
  | Lit l => forallb is_digit (chars l)
  | Cls Digit | Star Digit | Plus Digit => true
  | Cat r1 r2 | Alt r1 r2 => digit_only r1 && digit_only r2
  | Opt r | Grp _ r => digit_only r
  | _ => false
  end.

(** A pattern in which the group [n] only encloses patterns of digits *)
Fixpoint digit_grouped (n : nat) (r : regex) : bool :=
  match r with
  | Grp k r => (if decide (k = n) then digit_only r else true) && digit_grouped n r
  | Cat r1 r2 | Alt r1 r2 => digit_grouped n r1 && digit_grouped n r2
  | Opt r => digit_grouped n r
  | _ => true
  end.

(** ** The object in the generated text (lines 891-903 and 1355-1367) *)

(** The loop over the characters of the generated text: [idx] is the index
    of the head of [text]; the result is the pair of [start_idx] and [idx]
    at the [break], [None] when the loop runs to the end. *)
Fixpoint brace_scan (text : list ascii) (idx : nat) (brace_count : Z)
    (start_idx : option nat) : option (nat * nat) :=
  match text with
  | [] => None
  | char :: text' =>
      if decide (char = "{"%char)
      then brace_scan text' (S idx) (brace_count + 1)
                      (if decide (brace_count = 0) then Some idx else start_idx)
      else if decide (char = "}"%char)
      then
        let brace_count := brace_count - 1 in
        match start_idx with
        | Some start =>
            if decide (brace_count = 0) then Some (start, idx)
            else brace_scan text' (S idx) brace_count start_idx
        | None => brace_scan text' (S idx) brace_count start_idx
        end
      else brace_scan text' (S idx) brace_count start_idx
  end.

(** [json_str] after the loop: [generated_text[start_idx:idx + 1]] *)
Definition json_str (generated_text : string) : option string :=
  '(start_idx, idx) ← brace_scan (chars generated_text) 0 0 None;
  Some (str (take (S idx - start_idx) (drop start_idx (chars generated_text)))).

(** The opening braces of a text minus its closing braces *)
Definition depth_step (d : Z) (c : ascii) : Z :=
  if decide (c = "{"%char) then d + 1 else if decide (c = "}"%char) then d - 1 else d.
Definition depth (l : list ascii) : Z := foldl depth_step 0 l.

(** A text whose braces close at its end and not before *)
Definition balanced (j : list ascii) : Prop :=
  depth j = 0 ∧ ∀ k, (0 < k < length j)%nat → 0 < depth (take k j).

(** A text without braces *)
Definition brace_free (l : list ascii) : Prop :=
  Forall (λ c, c ≠ "{"%char ∧ c ≠ "}"%char) l.

(** ** The Housekeeping report, from the table to the payload
    (lines 708-805)

    The table is that of [process_json_data], with its six columns; the
    type of its column "Days" comes with it.  (pandas makes the column one
    of objects when no row has a number of days, and a numeric one
    otherwise.) *)

Module Housekeeping.

(** [is_housekeeping_record] on a cell of the table *)
Definition is_housekeeping_record (description : option string) : bool :=
  match description with
  | Some description => Hse.is_report_record housekeeping_keywords description
  | None => false
  end.

(** [pd.to_datetime(d) if d else None], which raises on a date it cannot
    read *)
Definition date_of (d : DateArg) : option Z :=
  match d with Date d => Some d | _ => None end.
Definition rejected (d : DateArg) : bool :=
  match d with BadDate => true | _ => false end.

(** The Closed branch of the filter (lines 737-749) *)
Definition filter_closed (table : list Row) (closed_start closed_end : option Z)
    : list FilteredRow :=
  let filtered_df :=
    filter (λ r, cell_is (Discipline r) "HSE" && cell_is (Status r) "Closed"
                 && bool_decide (is_Some (Days r)) && cell_gt (Days r) 7
                 && is_housekeeping_record (Description r) = true) table in
  let filtered_df :=
    match closed_start, closed_end with
    | Some closed_start, Some closed_end =>
        filter (λ r, cell_ge (Created_Date r) (Some closed_start)
                     && cell_le (Expected_Close_Date r) (Some closed_end) = true)
               filtered_df
    | _, _ => filtered_df
    end in
  (λ r, (r, None)) <$> filtered_df.

(** The Open branch of the filter (lines 750-762); [today] is the day the
    report is made *)
Definition filter_open (today : Z) (table : list Row) (open_until : option Z)
    : list FilteredRow :=
  let filtered_df :=
    filter (λ r, cell_is (Discipline r) "HSE" && cell_is (Status r) "Open"
                 && bool_decide (is_Some (Created_Date r))
                 && is_housekeeping_record (Description r) = true) table in
  let filtered_df :=
    (λ r, (r, (λ c, today - c) <$> Created_Date r)) <$> filtered_df in
  let filtered_df := filter (λ fr : FilteredRow, cell_gt fr.2 7 = true) filtered_df in
  match open_until with
  | Some open_until =>
      filter (λ fr : FilteredRow, cell_le (Created_Date fr.1) (Some open_until) = true)
             filtered_df
  | None => filtered_df
  end.

Section Cleaning.

Variable date_str : option Z → string.
Variable report_type : string.
Variable days_dtype : Hse.Dtype.

(** The cleaning loop (lines 772-795); [seen] is [seen_descriptions] *)
Fixpoint clean_from (seen : gset string) (processed_data : list FilteredRow)
    : list Hse.Cleaned :=
  match processed_data with
  | [] => []
  | (record, days_from_today) :: processed_data =>
      let description := strip (py_str (Description record)) in
      if bool_decide (description ≠ "") && bool_decide (description ∉ seen)
      then
        {| Hse.c_Description := description;
           Hse.c_Created_Date := date_str (Created_Date record);
           Hse.c_Expected_Close_Date := date_str (Expected_Close_Date record);
           Hse.c_Status := py_str (Status record);
           Hse.c_Days := Hse.cell_of days_dtype (Days record);
           Hse.c_Days_From_Today :=
             if bool_decide (report_type = "Open")
             then Some (default 0 days_from_today) else None;
           Hse.c_Discipline := "HSE";
           Hse.c_Tower := housekeeping_tower description |}
        :: clean_from (seen ∪ {[ description ]}) processed_data
      else clean_from seen processed_data
  end.

Definition clean (processed_data : list FilteredRow) : list Hse.Cleaned :=
  clean_from ∅ processed_data.

End Cleaning.

(** The filter of the report type: everything but "Closed" is treated as
    Open *)
Definition filtered (today : Z) (table : list Row) (report_type : string)
    (start_date end_date until_date : DateArg) : list FilteredRow :=
  if bool_decide (report_type = "Closed")
  then filter_closed table (date_of start_date) (date_of end_date)
  else filter_open today table (date_of until_date).

(** [generate_ncr_Housekeeping_report_for_eden]; a date that
    [pd.to_datetime] rejects ends in the handler of the function *)
Definition generate_ncr_Housekeeping_report_for_eden
    (today : Z) (date_str : option Z → string) (access_token : option string)
    (service : nat → Hse.Reply) (table : list Row) (days_dtype : Hse.Dtype)
    (report_type : string)
    (start_date end_date until_date : DateArg) : Payload Hse.Agg :=
  if rejected start_date || rejected end_date || rejected until_date
  then ErrorPayload "Unexpected Error"
  else
    match filtered today table report_type start_date end_date until_date with
    | [] => Report "Housekeeping" Hse.empty_agg
    | processed_data =>
        match clean date_str report_type days_dtype processed_data with
        | [] => Report "Housekeeping" Hse.empty_agg
        | cleaned_data =>
            if no_token access_token
            then ErrorPayload "Failed to obtain access token"
            else housekeeping_aggregate service cleaned_data
        end
    end.

End Housekeeping.

(** A word that neither begins nor ends with a blank *)
Definition trimmed (word : string) : bool :=
  match chars word, reverse (chars word) with
  | a :: _, z :: _ => negb (is_space a) && negb (is_space z)
  | _, _ => false
  end.

(** ** The pages of [fetch_project_data] (lines 90-128) *)

(** The body of an answer of the search service, with the defaults of
    [.get] applied: the number of records the service announces and the
    forms of the page *)
Record Page (A : Type) : Type := mkPage {
  results_total : Z;
  forms : list A
}.
Arguments mkPage {A} results_total forms.
Arguments results_total {A} p.
Arguments forms {A} p.

Section Fetch.

Context {A : Type}.

(** The answer to the request that starts at a record; [None] when the
    body cannot be decoded *)
Variable post : Z → option (Page A).
Variable record_limit : Z.

(** The loop [while True]; [fuel] bounds the number of requests, [None] is
    a loop that has not ended within it.  The result is [total_records]
    and [all_data]. *)
Fixpoint fetch_loop (fuel : nat) (start_record : Z) (total_records : option Z)
    (all_data : list A) : option (option Z * list A) :=
  match fuel with
  | O => None
  | S fuel =>
      match post start_record with
      | None => Some (total_records, all_data)
      | Some response_json =>
          let total_records := default (results_total response_json) total_records in
          let all_data := all_data ++ forms response_json in
          if bool_decide (total_records ≤ start_record + record_limit - 1)
          then Some (Some total_records, all_data)
          else fetch_loop fuel (start_record + record_limit) (Some total_records) all_data
      end
  end.

Definition fetch_project_data (fuel : nat) : option (option Z * list A) :=
  fetch_loop fuel 1 None [].

End Fetch.

(** The number of pages that hold [total] records, at least one *)
Definition pages_needed (total record_limit : Z) : nat :=
  Z.to_nat (Z.max 1 ((total + record_limit - 1) / record_limit)).

(** The first record of the page [k], counted from 0 *)
Definition page_start (record_limit : Z) (k : nat) : Z := 1 + Z.of_nat k * record_limit.

(** ** The towers of the Safety report (lines 1116-1138 and 1201-1233) *)

Module Safety.

(** [r"(?:eden-)?(?:tower|t)\s*-?\s*(\d+|2021|28)"] *)
Definition tower_pattern : regex :=
  (Opt (Lit "eden-") >> (Lit "tower" ||| Lit "t") >> Star Space >> Opt (Lit "-")
   >> Star Space >> Grp 1 (Plus Digit ||| Lit "2021" ||| Lit "28"))%re.

(** [normalize_site_name] of the generator, on a description that is a
    text *)
Definition normalize_site_name (description : string) : Normalized :=
  let desc_lower := lower description in
  match search tower_common_pattern (chars desc_lower) with
  | Some (_, _, m) =>
      let tower_num1 := zfill 2 (group m 1) in
      if bool_decide (group m 2 ≠ [])
      then Combined ("Eden-Tower " +:+ str tower_num1)
                    ("Eden-Tower " +:+ str (zfill 2 (group m 2)))
      else Single ("Eden-Tower " +:+ str tower_num1)
  | None =>
      if contains "commonarea" desc_lower || contains "common area" desc_lower
      then Single "Common_Area"
      else
        match search tower_pattern (chars desc_lower) with
        | Some (_, _, m) => Single ("Eden-Tower " +:+ str (zfill 2 (group m 1)))
        | None => Single "Common_Area"
        end
  end.

Section Cleaning.

Variable date_str : option Z → string.
Variable report_type : string.
Variable days_dtype : Hse.Dtype.

(** The cleaning loop (lines 1207-1233): a record for every tower of the
    description; [seen] is [seen_descriptions] *)
Fixpoint clean_from (seen : gset string) (processed_data : list FilteredRow)
    : list Hse.Cleaned :=
  match processed_data with
  | [] => []
  | (record, days_from_today) :: processed_data =>
      let description := strip (py_str (Description record)) in
      if bool_decide (description ≠ "") && bool_decide (description ∉ seen)
      then
        ((λ tower,
            {| Hse.c_Description := description;
               Hse.c_Created_Date := date_str (Created_Date record);
               Hse.c_Expected_Close_Date := date_str (Expected_Close_Date record);
               Hse.c_Status := py_str (Status record);
               Hse.c_Days := Hse.cell_of days_dtype (Days record);
               Hse.c_Days_From_Today :=
                 if bool_decide (report_type = "Open")
                 then Some (default 0 days_from_today) else None;
               Hse.c_Discipline := "HSE";
               Hse.c_Tower := tower |})
           <$> shown_under (normalize_site_name description))
        ++ clean_from (seen ∪ {[ description ]}) processed_data
      else clean_from seen processed_data
  end.

Definition clean (processed_data : list FilteredRow) : list Hse.Cleaned :=
  clean_from ∅ processed_data.

End Cleaning.

End Safety.

(** The name of a site of the Safety and Housekeeping workbooks *)
Definition workbook_site (site : string) : Prop :=
  site = "Common_Area" ∨ ∃ ds, padded_digits ds ∧ site = "Eden-Tower " +:+ str ds.

(** * Properties *)

(** ** Discipline categorisation *)

(** The record is left out of [cleaned_data] when its discipline is dropped
    or is an HSE one. *)
Lemma clean_record_discipline date_str df report_type row dft :
  categorize_discipline (get_text df "Discipline" (Discipline row)) ∈ [Dropped; SkippedHSE] →
  clean_record date_str df report_type (row, dft) = None.
Proof.
  intros Hin. unfold clean_record.
  case_bool_decide; [done|].
  set_unfold in Hin. by destruct Hin as [-> | [-> | []]].
Qed.

(** C6 (as the code has it): with [t] the trimmed, lower-cased tag, an empty
    [t] or "none" drops the record; otherwise a [t] containing "hse" is an
    HSE record and is skipped; otherwise a [t] containing "structure" or
    "sw" is SW; otherwise a [t] containing "civil", "finishing" or "fw" is
    FW; any other tag is MEP.  Dropped and skipped records never reach
    [cleaned_data]. *)
Theorem C6_discipline_rules (tag : string) :
  let t := lower (strip tag) in
  ((t = "" ∨ t = "none") → categorize_discipline tag = Dropped)
  ∧ (t ≠ "" → t ≠ "none" → contains "hse" t = true →
     categorize_discipline tag = SkippedHSE)
  ∧ (t ≠ "" → t ≠ "none" → contains "hse" t = false →
     (contains "structure" t = true ∨ contains "sw" t = true) →
     categorize_discipline tag = Category "SW")
  ∧ (t ≠ "" → t ≠ "none" → contains "hse" t = false →
     contains "structure" t = false → contains "sw" t = false →
     (contains "civil" t = true ∨ contains "finishing" t = true
      ∨ contains "fw" t = true) →
     categorize_discipline tag = Category "FW")
  ∧ (t ≠ "" → t ≠ "none" → contains "hse" t = false →
     contains "structure" t = false → contains "sw" t = false →
     contains "civil" t = false → contains "finishing" t = false →
     contains "fw" t = false →
     categorize_discipline tag = Category "MEP")
  ∧ (categorize_discipline tag ∈ [Dropped; SkippedHSE] →
     ∀ date_str df report_type row dft,
       get_text df "Discipline" (Discipline row) = tag →
       clean_record date_str df report_type (row, dft) = None).
Proof.
  intros t. unfold categorize_discipline. fold t.
  repeat split.
  - intros [-> | ->]; reflexivity.
  - intros H1 H2 ->. by rewrite !bool_decide_eq_false_2.
  - intros H1 H2 -> Hsw. rewrite !bool_decide_eq_false_2 by done. simpl.
    by destruct Hsw as [-> | ->]; rewrite ?orb_true_r.
  - intros H1 H2 -> -> -> Hfw. rewrite !bool_decide_eq_false_2 by done. simpl.
    by destruct Hfw as [-> | [-> | ->]]; rewrite ?orb_true_r.
  - intros H1 H2 -> -> -> -> -> ->. by rewrite !bool_decide_eq_false_2.
  - intros Hin date_str df report_type row dft <-.
    by apply clean_record_discipline.
Qed.

Lemma C6_discipline_rules_witness :
  categorize_discipline "" = Dropped
  ∧ categorize_discipline "HSE Safety" = SkippedHSE
  ∧ categorize_discipline " SW " = Category "SW"
  ∧ categorize_discipline "Civil" = Category "FW"
  ∧ categorize_discipline "Electrical" = Category "MEP"
  ∧ clean_record (λ _, "") (mkDF json_columns [])
      "Closed" (mkRow None None None (Some "leak") None (Some "none"), None) = None.
Proof.
  split; [|split; [|split; [|split; [|split]]]].
  - apply (C6_discipline_rules ""). by left.
  - by apply (C6_discipline_rules "HSE Safety").
  - apply (C6_discipline_rules " SW "); [done..|by right].
  - apply (C6_discipline_rules "Civil"); [done..|by left].
  - by apply (C6_discipline_rules "Electrical").
  - apply (C6_discipline_rules "none"); [|done].
    set_unfold. by left.
Defined.

(** C6, the tag of the claim: "Structural Works" contains neither
    "structure" nor "sw" and is classified MEP, not SW. *)
Lemma C6_structural_works_is_mep :
  categorize_discipline "Structural Works" = Category "MEP"
  ∧ categorize_discipline "Structural Works" ≠ Category "SW".
Proof. by split. Qed.

(** ** The Closed filter *)

(** What the Closed filter guarantees of a retained row: status Closed, a
    close date, an age above 21 days, and a creation date within the
    bounds. *)
Lemma filter_closed_retained df start_date end_date l r x :
  filter_closed df start_date end_date = inr l → (r, x) ∈ l →
  Status r = Some "Closed"
  ∧ is_Some (Expected_Close_Date r)
  ∧ (∃ d, Days r = Some d ∧ 21 < d)
  ∧ (∀ lo, start_date = Date lo → ∃ c, Created_Date r = Some c ∧ lo ≤ c)
  ∧ (∀ hi, end_date = Date hi → ∃ c, Created_Date r = Some c ∧ c ≤ hi).
Proof.
  unfold filter_closed. case_match; [done|].
  intros Hl Hin.
  destruct start_date, end_date; simplify_eq;
    apply list_elem_of_fmap in Hin as (r' & [= -> ->] & Hin);
    apply list_elem_of_filter in Hin as [Hcond Hin];
    apply list_elem_of_fmap in Hin as (r0 & Hr0 & Hin); subst;
    apply list_elem_of_filter in Hin as [Hclose _];
    simpl in *;
    apply andb_prop in Hcond as [Hcond Hdays];
    apply andb_prop in Hcond as [Hcond Hle];
    apply andb_prop in Hcond as [Hst Hge];
    (split; [by apply bool_decide_eq_true in Hst|]);
    (split; [done|]);
    (split; [unfold cell_gt in Hdays; case_match; [|done];
             apply bool_decide_eq_true in Hdays; eauto|]);
    unfold cell_ge in Hge; unfold cell_le in Hle;
    destruct (Created_Date r0) as [c|]; try done;
    (split; [intros lo Hlo|intros hi Hhi]); simplify_eq;
    repeat match goal with
           | H : bool_decide _ = true |- _ => apply bool_decide_eq_true in H
           end; eauto.
Qed.

(** C7, evaluated: a Closed record created on day 0 and closed on day 100
    is retained for the window from day 0 to day 50, because the upper bound
    of the window is compared with the creation date (line 256), not with
    the close date. *)
Theorem C7_close_date_after_window_retained :
  let row := process_json_row (Some 0) (Some 100) (Some "crack in slab at tower 4")
                              (Some "Closed") (Some "SW") in
  filter_closed (mkDF json_columns [row]) (Date 0) (Date 50) = inr [(row, None)]
  ∧ Expected_Close_Date row = Some 100
  ∧ ¬ (100 ≤ 50).
Proof. by vm_compute. Qed.

(** ** Removal of duplicates *)

Lemma remove_duplicates_keeps (cleaned_data : list Cleaned) :
  remove_duplicates cleaned_data = cleaned_data.
Proof.
  unfold remove_duplicates. destruct cleaned_data as [|d l]; [done|].
  assert (forallb (λ kv : string * pyval, hashable kv.2) (items d) = false) as Hd.
  { unfold items. rewrite !forallb_app. simpl. by rewrite !andb_false_r. }
  cbn [forallb]. by rewrite Hd.
Qed.

(** The whole generator on two identical rows: both reach the aggregate
    and the grand total is 2. *)
Lemma duplicates_counted_twice :
  let row := process_json_row (Some 0) (Some 30) (Some "Crack in slab at Tower 4 pour 2")
                              (Some "Closed") (Some "SW") in
  let env := mkEnv (Some "token") 20 (λ _, Ncr.Raised) [] in
  ∃ result,
    generate_ncr_report_for_eden (λ _, "date") env
      (Some (mkDF json_columns [row; row])) "Closed" NoDate NoDate NoDate
    = Report "Closed" result
    ∧ Ncr.Grand_Total result = 2
    ∧ Ncr.Descriptions <$> Ncr.Sites result !! "Eden-Tower-04"
      = Some ["Crack in slab at Tower 4 pour 2"; "Crack in slab at Tower 4 pour 2"].
Proof. eexists. split; [vm_compute; reflexivity|]. by vm_compute. Qed.

(** C9, as the code behaves: every record holds its pours as a list, a list
    cannot be hashed, so the set of item tuples is never built and
    [cleaned_data] is kept as it is, duplicates included: two identical
    records both reach the aggregation stage, and on a table of two
    identical rows the grand total is 2. *)
Theorem C9_duplicates_are_kept :
  (∀ (d : Cleaned) (cleaned_data : list Cleaned),
     remove_duplicates (d :: d :: cleaned_data) = d :: d :: cleaned_data)
  ∧ (let row := process_json_row (Some 0) (Some 30)
                  (Some "Crack in slab at Tower 4 pour 2") (Some "Closed") (Some "SW") in
     let env := mkEnv (Some "token") 20 (λ _, Ncr.Raised) [] in
     ∃ result,
       generate_ncr_report_for_eden (λ _, "date") env
         (Some (mkDF json_columns [row; row])) "Closed" NoDate NoDate NoDate
       = Report "Closed" result
       ∧ Ncr.Grand_Total result = 2
       ∧ Ncr.Descriptions <$> Ncr.Sites result !! "Eden-Tower-04"
         = Some ["Crack in slab at Tower 4 pour 2"; "Crack in slab at Tower 4 pour 2"]).
Proof.
  split.
  - intros d cleaned_data. apply remove_duplicates_keeps.
  - apply duplicates_counted_twice.
Qed.

(** ** The empty result *)

(** C8 (as the code has it): on a non-empty table with the required
    columns, a filter that keeps no row makes the generator return the
    error-keyed payload "No <type> records found with duration > 21 days";
    the explicit empty result [{type: {Sites: {}, Grand_Total: 0}}] is
    returned when rows pass the filter and none survives the cleaning. *)
Theorem C8_zero_rows_payload date_str env df report_type start_date end_date until_date :
  df_empty df = false →
  report_type ∈ ["Open"; "Closed"] →
  "Created Date (WET)" ∈ columns df →
  "Status" ∈ columns df →
  (ncr_filter df report_type start_date end_date until_date = inr [] →
   generate_ncr_report_for_eden date_str env (Some df) report_type
     start_date end_date until_date
   = ErrorPayload (no_records_message report_type))
  ∧ (∀ processed_data,
       ncr_filter df report_type start_date end_date until_date = inr processed_data →
       processed_data ≠ [] →
       clean date_str df report_type processed_data = [] →
       generate_ncr_report_for_eden date_str env (Some df) report_type
         start_date end_date until_date
       = Report report_type Ncr.empty_agg).
Proof.
  intros Hne Hrt Hc Hs. unfold generate_ncr_report_for_eden.
  rewrite Hne. rewrite (bool_decide_eq_true_2 _ Hrt). simpl.
  assert (filter (λ col, col ∉ columns df) ["Created Date (WET)"; "Status"] = []) as ->.
  { rewrite !filter_cons, filter_nil.
    destruct (decide ("Created Date (WET)" ∉ columns df)); [done|].
    by destruct (decide ("Status" ∉ columns df)). }
  simpl. split.
  - by intros ->.
  - intros processed_data -> Hp Hclean.
    destruct processed_data; [done|].
    by rewrite remove_duplicates_keeps, Hclean.
Qed.

Lemma C8_zero_rows_payload_witness :
  let env := mkEnv (Some "token") 20 (λ _, Ncr.Raised) [] in
  let open_row := process_json_row (Some 0) (Some 30) (Some "Crack at tower 4")
                                   (Some "Open") (Some "SW") in
  let hse_row := process_json_row (Some 0) (Some 30) (Some "No helmet at tower 4")
                                  (Some "Closed") (Some "HSE") in
  generate_ncr_report_for_eden (λ _, "date") env (Some (mkDF json_columns [open_row]))
    "Closed" NoDate NoDate NoDate
  = ErrorPayload "No Closed records found with duration > 21 days"
  ∧ generate_ncr_report_for_eden (λ _, "date") env (Some (mkDF json_columns [hse_row]))
      "Closed" NoDate NoDate NoDate
    = Report "Closed" Ncr.empty_agg.
Proof.
  intros env open_row hse_row. split.
  - apply (C8_zero_rows_payload (λ _, "date") env (mkDF json_columns [open_row])
             "Closed" NoDate NoDate NoDate);
      [reflexivity | by apply (bool_decide_unpack _) ..| reflexivity].
  - apply (C8_zero_rows_payload (λ _, "date") env (mkDF json_columns [hse_row])
             "Closed" NoDate NoDate NoDate)
      with (processed_data := [(hse_row, None)]);
      [reflexivity | by apply (bool_decide_unpack _) ..| reflexivity | done | reflexivity].
Defined.

(** C8, on a table of one Open record asked for the Closed report: the
    filter keeps no row and the payload returned carries the key "error",
    like the payloads of the failures. *)
Lemma C8_zero_rows_is_error_payload :
  let env := mkEnv (Some "token") 20 (λ _, Ncr.Raised) [] in
  let df := mkDF json_columns
              [process_json_row (Some 0) (Some 30) (Some "Crack at tower 4")
                                (Some "Open") (Some "SW")] in
  df_empty df = false
  ∧ ncr_filter df "Closed" NoDate NoDate NoDate = inr []
  ∧ is_error (generate_ncr_report_for_eden (λ _, "date") env (Some df)
                "Closed" NoDate NoDate NoDate) = true
  ∧ is_error (generate_ncr_report_for_eden (λ _, "date") env None
                "Closed" NoDate NoDate NoDate) = true.
Proof. by vm_compute. Qed.

(** ** The chunk loop *)

Lemma range_chunks_concat {A} (chunk_size m : nat) (data : list A) :
  (length data ≤ m * chunk_size)%nat →
  concat ((λ k, take chunk_size (drop (k * chunk_size) data)) <$> seq 0 m) = data.
Proof.
  revert data. induction m as [|m IH]; intros data Hlen.
  - simpl in *. by destruct data; [|simpl in Hlen; lia].
  - rewrite <-cons_seq, <-fmap_S_seq. cbn [fmap list_fmap concat]. simpl.
    rewrite <-list_fmap_compose.
    transitivity (take chunk_size data ++ drop chunk_size data); [|apply take_drop].
    f_equal. etrans; [|apply (IH (drop chunk_size data))].
    + f_equal. apply list_fmap_ext. intros _ k _. simpl.
      by rewrite drop_drop.
    + rewrite length_drop. simpl in Hlen. lia.
Qed.

(** The chunks are consecutive and cover the data *)
Lemma chunks_concat {A} (chunk_size : nat) (data : list A) :
  (0 < chunk_size)%nat → concat (snd <$> chunks chunk_size data) = data.
Proof.
  intros Hpos. unfold chunks, range_step.
  rewrite <-!list_fmap_compose.
  erewrite list_fmap_ext; [apply (range_chunks_concat chunk_size)|done].
  pose proof (Nat.div_mod (length data + chunk_size - 1) chunk_size ltac:(lia)).
  pose proof (Nat.mod_upper_bound (length data + chunk_size - 1) chunk_size ltac:(lia)).
  nia.
Qed.

Lemma range_step_bound (n step i : nat) :
  (0 < step)%nat → i ∈ range_step n step → (i < n)%nat ∧ ∃ k, i = (k * step)%nat.
Proof.
  intros Hpos (k & -> & Hk%elem_of_seq)%list_elem_of_fmap. split; [|by eexists].
  pose proof (Nat.div_mod (n + step - 1) step ltac:(lia)).
  pose proof (Nat.mod_upper_bound (n + step - 1) step ltac:(lia)).
  nia.
Qed.

(** No chunk of the loop is empty *)
Lemma chunks_not_empty {A} (chunk_size : nat) (data : list A) :
  (0 < chunk_size)%nat →
  Forall (λ kc : nat * list A, kc.2 ≠ []) (chunks chunk_size data).
Proof.
  intros Hpos. apply Forall_forall.
  intros [k chunk] (i & [= -> ->] & Hi)%list_elem_of_fmap.
  apply range_step_bound in Hi as [Hi _]; [|done]. simpl.
  intros Hnil. apply (f_equal length) in Hnil.
  rewrite length_take, length_drop in Hnil. simpl in Hnil. lia.
Qed.

(** ** The NCR aggregate *)

Section NcrFacts.
Import Ncr.

Lemma sum_totals_empty : sum_totals ∅ = 0.
Proof. apply map_fold_empty. Qed.

Lemma sum_totals_insert (sites : gmap string Bucket) k b :
  sites !! k = None → sum_totals (<[k:=b]> sites) = Total b + sum_totals sites.
Proof.
  intros Hk. unfold sum_totals.
  rewrite map_fold_insert_L; [done| intros; lia | done].
Qed.

Lemma sum_totals_alter (sites : gmap string Bucket) k b f :
  sites !! k = Some b →
  sum_totals (alter f k sites) = sum_totals sites + (Total (f b) - Total b).
Proof.
  intros Hk. rewrite <-(insert_delete_id sites k b) at 1 2 by done.
  rewrite alter_insert_eq, !sum_totals_insert by apply lookup_delete_eq. lia.
Qed.

Lemma ensure_site_lookup site agg :
  Sites (ensure_site site agg) !! site = Some (bucket_of site agg).
Proof.
  unfold ensure_site, bucket_of.
  destruct (Sites agg !! site) eqn:E; simpl; [done|].
  by rewrite lookup_insert_eq.
Qed.

Lemma ensure_site_lookup_ne site t agg :
  t ≠ site → Sites (ensure_site site agg) !! t = Sites agg !! t.
Proof.
  intros Hne. unfold ensure_site.
  destruct (Sites agg !! site); simpl; [done|].
  by rewrite lookup_insert_ne.
Qed.

Lemma ensure_site_sum site agg :
  sum_totals (Sites (ensure_site site agg)) = sum_totals (Sites agg).
Proof.
  unfold ensure_site.
  destruct (Sites agg !! site) eqn:E; simpl; [done|].
  by rewrite sum_totals_insert.
Qed.

Lemma ensure_site_total site agg :
  Grand_Total (ensure_site site agg) = Grand_Total agg.
Proof. unfold ensure_site. by destruct (Sites agg !! site). Qed.

(** An update of a present site moves the sum of the totals by what it
    adds to the total of the bucket. *)
Lemma update_site_sum site f n agg :
  is_Some (Sites agg !! site) →
  (∀ b, Total (f b) = Total b + n) →
  sum_totals (Sites (update_site site f agg)) = sum_totals (Sites agg) + n.
Proof.
  intros [b Hb] Hf. simpl. rewrite (sum_totals_alter _ _ b) by done.
  rewrite Hf. lia.
Qed.

Lemma update_site_is_Some site f t agg :
  is_Some (Sites (update_site site f agg) !! t) ↔ is_Some (Sites agg !! t).
Proof.
  simpl. rewrite lookup_alter. case_decide; [subst|done].
  by rewrite fmap_is_Some.
Qed.

Lemma add_record_total record b : Total (add_record record b) = Total b + 1.
Proof.
  unfold add_record, count_discipline.
  by repeat case_bool_decide.
Qed.

Lemma process_record_lookup agg record t :
  Sites (process_record agg record) !! t =
  if decide (t = c_Tower record)
  then Some (add_record record (bucket_of t agg))
  else Sites agg !! t.
Proof.
  unfold process_record. simpl. rewrite lookup_alter.
  destruct (decide (t = c_Tower record)) as [->|Hne].
  - rewrite decide_True by done. by rewrite ensure_site_lookup.
  - rewrite decide_False by done. by apply ensure_site_lookup_ne.
Qed.

Lemma process_record_total agg record :
  Grand_Total (process_record agg record) = Grand_Total agg + 1.
Proof. unfold process_record. simpl. by rewrite ensure_site_total. Qed.

Lemma process_record_sum agg record :
  sum_totals (Sites (process_record agg record)) = sum_totals (Sites agg) + 1.
Proof.
  unfold process_record.
  change (Sites (add_total 1 ?a)) with (Sites a).
  rewrite (update_site_sum _ _ 1).
  - by rewrite ensure_site_sum.
  - rewrite ensure_site_lookup. eauto.
  - apply add_record_total.
Qed.

Lemma process_chunk_locally_total chunk agg :
  Grand_Total (process_chunk_locally chunk agg) = Grand_Total agg + Z.of_nat (length chunk).
Proof.
  unfold process_chunk_locally. revert agg.
  induction chunk as [|r chunk IH]; intros agg; simpl; [lia|].
  rewrite IH, process_record_total. lia.
Qed.

Lemma process_chunk_locally_sum chunk agg :
  sum_totals (Sites (process_chunk_locally chunk agg))
  = sum_totals (Sites agg) + Z.of_nat (length chunk).
Proof.
  unfold process_chunk_locally. revert agg.
  induction chunk as [|r chunk IH]; intros agg; simpl; [lia|].
  rewrite IH, process_record_sum. lia.
Qed.

(** Every record of the chunk is appended to the bucket of its tower, in
    the order of the chunk. *)
Lemma process_chunk_locally_bucket chunk agg site :
  bucket_of site (process_chunk_locally chunk agg)
  = foldl (λ b record, add_record record b) (bucket_of site agg) (records_of site chunk).
Proof.
  unfold process_chunk_locally, records_of. revert agg.
  induction chunk as [|r chunk IH]; intros agg; simpl; [done|].
  rewrite IH. rewrite filter_cons.
  unfold bucket_of at 1. rewrite process_record_lookup.
  destruct (decide (c_Tower r = site)) as [<-|Hne].
  - by rewrite decide_True.
  - rewrite decide_False by done. done.
Qed.

End NcrFacts.

Section MergeFacts.
Import Ncr.

Lemma keeps_ret {A} (a : A) : keeps (mret a).
Proof. done. Qed.

Lemma keeps_field {A} (o : option A) : keeps (field o).
Proof. by destruct o. Qed.

Lemma keeps_exec f : (∀ agg, Grand_Total (f agg) = Grand_Total agg) → keeps (exec f).
Proof. intros Hf agg. apply Hf. Qed.

Lemma keeps_bind {A B} (m : M A) (f : A → M B) :
  keeps m → (∀ a, keeps (f a)) → keeps (m ≫= f).
Proof.
  intros Hm Hf agg. unfold mbind, M_bind.
  specialize (Hm agg). destruct (m agg) as [agg' [a|]]; simpl in *; [|done].
  by rewrite Hf.
Qed.

Lemma keeps_for_each {A} (l : list A) (body : A → M unit) :
  (∀ x, keeps (body x)) → keeps (for_each l body).
Proof.
  intros Hbody. induction l as [|x l IH]; simpl; [apply keeps_ret|].
  apply keeps_bind; [apply Hbody|done].
Qed.

Lemma keeps_update site f : keeps (exec (update_site site f)).
Proof. by apply keeps_exec. Qed.

Lemma keeps_ensure site : keeps (exec (ensure_site site)).
Proof. apply keeps_exec, ensure_site_total. Qed.

Lemma merge_site_keeps site data : keeps (merge_site site data).
Proof.
  unfold merge_site.
  repeat first
    [ apply keeps_update | apply keeps_ensure | apply keeps_field
    | apply keeps_for_each; intros [] | apply keeps_bind; [|intros ?]
    | unfold merge_pours_count ].
Qed.

(** The merge of a reply adds the size of the chunk to the grand total
    when it completes and leaves the grand total alone when it raises. *)
Lemma merge_chunk_total chunk_result chunk agg :
  Grand_Total (merge_chunk chunk_result chunk agg).1
  = Grand_Total agg
    + match (merge_chunk chunk_result chunk agg).2 with
      | Some _ => Z.of_nat (length chunk)
      | None => 0
      end.
Proof.
  unfold merge_chunk. destruct (r_Sites chunk_result) as [sites|]; simpl; [|lia].
  unfold mbind, M_bind. simpl.
  pose proof (keeps_for_each sites (λ '(site, data), merge_site site data)) as Hk.
  specialize (Hk (λ '(site, data), merge_site_keeps site data) agg).
  destruct (for_each sites _ agg) as [agg' [[]|]]; simpl in *; lia.
Qed.

(** A call of the cached function runs the body when every key of the
    cache for its chunk and report type holds an aggregate with a smaller
    grand total. *)
Lemma cache_data_miss f chunk agg report_type cache :
  (∀ a, (chunk, a, report_type) ∈ cache → Grand_Total a < Grand_Total agg) →
  cache_data f chunk agg report_type cache
  = (f chunk agg, (chunk, agg, report_type) :: cache).
Proof.
  intros Hb. unfold cache_data. rewrite bool_decide_eq_false_2; [done|].
  intros Hin. specialize (Hb _ Hin). lia.
Qed.

(** An iteration either merges the whole reply, or calls the local
    aggregator on an aggregate that still has the grand total the iteration
    began with; that aggregate is the one the iteration began with when
    nothing of the reply is merged. *)
Lemma process_chunk_view report_type chunk reply agg cache :
  (∃ chunk_result agg1,
      merge_chunk chunk_result chunk agg = (agg1, Some ())
      ∧ process_chunk report_type chunk reply agg cache = (agg1, cache))
  ∨ (∃ agg0,
      Grand_Total agg0 = Grand_Total agg
      ∧ (unusable report_type reply = true → agg0 = agg)
      ∧ process_chunk report_type chunk reply agg cache
        = cache_data process_chunk_locally chunk agg0 report_type cache).
Proof.
  unfold process_chunk, unusable.
  repeat case_match; subst; try (right; exists agg; by split_and!).
  - left. match goal with u : unit |- _ => destruct u end. eauto.
  - right. match goal with
    | H : merge_chunk ?c ?ch ?a = (?a0, None) |- _ =>
        pose proof (merge_chunk_total c ch a) as Ht; rewrite H in Ht; simpl in Ht;
        exists a0
    end.
    split_and!; [lia| |done].
    intros Hu%bool_decide_eq_true. congruence.
Qed.

Lemma process_chunk_total report_type chunk reply agg cache :
  (∀ a, (chunk, a, report_type) ∈ cache → Grand_Total a < Grand_Total agg) →
  Grand_Total (process_chunk report_type chunk reply agg cache).1
  = Grand_Total agg + Z.of_nat (length chunk).
Proof.
  intros Hb.
  destruct (process_chunk_view report_type chunk reply agg cache)
    as [(cr & agg1 & Hm & ->)|(agg0 & Ht & _ & ->)].
  - pose proof (merge_chunk_total cr chunk agg) as H. rewrite Hm in H. simpl in *. lia.
  - rewrite cache_data_miss by (intros a Ha; rewrite Ht; by apply Hb).
    simpl. rewrite process_chunk_locally_total. lia.
Qed.

(** The keys an iteration adds hold its chunk and an aggregate with the
    grand total the iteration began with. *)
Lemma process_chunk_keys report_type chunk reply agg cache (key : Key) :
  key ∈ (process_chunk report_type chunk reply agg cache).2 →
  key ∈ cache ∨ Grand_Total key.1.2 = Grand_Total agg.
Proof.
  destruct (process_chunk_view report_type chunk reply agg cache)
    as [(cr & agg1 & Hm & ->)|(agg0 & Ht & _ & ->)]; simpl; [by left|].
  unfold cache_data. case_bool_decide; simpl; [by left|].
  intros [->|?]%elem_of_cons; [by right|by left].
Qed.

(** Without a key for the chunk, a call that is answered from the cache
    is not possible; with one, the grand total either grows by the size of
    the chunk or stays. *)
Lemma process_chunk_total_or report_type chunk reply agg cache :
  Grand_Total (process_chunk report_type chunk reply agg cache).1
  = Grand_Total agg + Z.of_nat (length chunk)
  ∨ (Grand_Total (process_chunk report_type chunk reply agg cache).1 = Grand_Total agg
     ∧ (process_chunk report_type chunk reply agg cache).2 = cache
     ∧ ∃ a, (chunk, a, report_type) ∈ cache ∧ Grand_Total a = Grand_Total agg).
Proof.
  destruct (process_chunk_view report_type chunk reply agg cache)
    as [(cr & agg1 & Hm & ->)|(agg0 & Ht & _ & ->)].
  - left. pose proof (merge_chunk_total cr chunk agg) as H. rewrite Hm in H.
    simpl in *. lia.
  - unfold cache_data. case_bool_decide as Hin; simpl.
    + right. split_and!; [done..|]. by exists agg0.
    + left. rewrite process_chunk_locally_total. lia.
Qed.

End MergeFacts.

Section MergeSum.
Import Ncr.

Lemma update_site_sum0 site f agg :
  (∀ b, Total (f b) = Total b) →
  sum_totals (Sites (update_site site f agg)) = sum_totals (Sites agg).
Proof.
  intros Hf. simpl. destruct (Sites agg !! site) as [b|] eqn:E.
  - rewrite (sum_totals_alter _ _ b) by done. rewrite Hf. lia.
  - f_equal. apply map_eq. intros i. rewrite lookup_alter.
    case_decide; [subst; by rewrite E|done].
Qed.

Lemma complete_site_inv data :
  complete_site data = true →
  ∃ l1 l2 l3 l4 l5 l6 n1 n2 n3 n4 counts,
    data = Some (mkRemoteSite (Some l1) (Some l2) (Some l3) (Some l4) (Some l5)
                              (Some l6) (Some n1) (Some n2) (Some n3) (Some n4)
                              (Some counts))
    ∧ Forall (λ pc : string * option Z, is_Some pc.2) counts.
Proof.
  destruct data as [[f1 f2 f3 f4 f5 f6 f7 f8 f9 f10 f11]|]; [|done].
  unfold complete_site. cbn [r_Descriptions r_Created r_Expected_Close r_Statuses
    r_Disciplines r_Pours r_SW r_FW r_MEP r_Total r_PoursCount].
  rewrite !andb_true_iff, !bool_decide_eq_true.
  intros [[[[[[[[[[[? ->] [? ->]] [? ->]] [? ->]] [? ->]] [? ->]] [? ->]] [? ->]] [? ->]] [? ->]] H11].
  destruct f11 as [counts|]; [|done].
  do 11 eexists. split; [done|].
  apply Forall_forall. intros pc Hpc.
  rewrite forallb_forall in H11.
  eapply bool_decide_eq_true_1, H11. by apply list_elem_of_In.
Qed.

Lemma merge_pours_count_complete site counts agg :
  Forall (λ pc : string * option Z, is_Some pc.2) counts →
  ∃ agg', merge_pours_count site counts agg = (agg', Some ())
    ∧ sum_totals (Sites agg') = sum_totals (Sites agg).
Proof.
  unfold merge_pours_count. intros Hc. revert agg.
  induction Hc as [|[pour count] counts [n Hn] _ IH]; intros agg.
  - by exists agg.
  - simpl in Hn. subst count.
    destruct (IH (update_site site (set_PoursCount (bump pour n)) agg))
      as (agg' & Hrun & Hsum).
    exists agg'. split; [exact Hrun|].
    rewrite Hsum. by apply update_site_sum0.
Qed.

Lemma merge_site_complete site data agg :
  complete_site data = true →
  ∃ agg', merge_site site data agg = (agg', Some ())
    ∧ sum_totals (Sites agg') = sum_totals (Sites agg) + default 0 (data ≫= r_Total).
Proof.
  intros (l1 & l2 & l3 & l4 & l5 & l6 & n1 & n2 & n3 & n4 & counts & -> & Hc)%complete_site_inv.
  cbv [merge_site mbind M_bind mret M_ret field exec r_Descriptions r_Created
    r_Expected_Close r_Statuses r_Disciplines r_Pours r_SW r_FW r_MEP r_Total
    r_PoursCount option_bind default].
  match goal with
  | |- ∃ agg', merge_pours_count _ _ ?a = _ ∧ _ =>
      destruct (merge_pours_count_complete site counts a Hc) as (agg' & Hrun & Hsum)
  end.
  exists agg'. split; [exact Hrun|].
  rewrite Hsum.
  rewrite (update_site_sum _ _ n4);
    [| by rewrite !update_site_is_Some, ensure_site_lookup | done].
  rewrite !update_site_sum0 by done.
  by rewrite ensure_site_sum.
Qed.

Lemma merge_sites_complete sites agg :
  forallb (λ sd : string * option RemoteSite, complete_site sd.2) sites = true →
  ∃ agg', for_each sites (λ '(site, data), merge_site site data) agg = (agg', Some ())
    ∧ sum_totals (Sites agg') = sum_totals (Sites agg) + reported_total sites.
Proof.
  revert agg. induction sites as [|[site data] sites IH]; intros agg Hall.
  - exists agg. split; [done|]. simpl. lia.
  - cbn [forallb] in Hall. apply andb_prop in Hall as [Hd Hall].
    destruct (merge_site_complete site data agg Hd) as (agg1 & Hrun1 & Hsum1).
    destruct (IH agg1 Hall) as (agg' & Hrun & Hsum).
    exists agg'. split.
    + cbn [for_each]. unfold mbind, M_bind. by rewrite Hrun1.
    + rewrite Hsum, Hsum1. simpl. lia.
Qed.

(** A chunk whose reply is accurate moves the sum of the site totals by the
    size of the chunk. *)
Lemma process_chunk_sum report_type chunk reply agg cache :
  (∀ a, (chunk, a, report_type) ∈ cache → Grand_Total a < Grand_Total agg) →
  accurate report_type chunk reply = true →
  sum_totals (Sites (process_chunk report_type chunk reply agg cache).1)
  = sum_totals (Sites agg) + Z.of_nat (length chunk).
Proof.
  unfold accurate, process_chunk. intros Hb Hacc.
  repeat case_match; subst; rewrite ?cache_data_miss by done;
    try apply process_chunk_locally_sum; try done;
    apply andb_prop in Hacc as [Hall Htot%bool_decide_eq_true];
    match goal with
    | H : merge_chunk _ _ _ = _, Hs : r_Sites _ = Some ?sites |- _ =>
        unfold merge_chunk in H; rewrite Hs in H;
        destruct (merge_sites_complete sites agg Hall) as (agg' & Hrun & Hsum);
        cbv [mbind M_bind field mret M_ret exec] in H; rewrite Hrun in H;
        simplify_eq
    end.
  simpl. lia.
Qed.

Lemma process_chunk_unusable report_type chunk reply agg cache :
  unusable report_type reply = true →
  process_chunk report_type chunk reply agg cache
  = cache_data process_chunk_locally chunk agg report_type cache.
Proof.
  intros Hu.
  destruct (process_chunk_view report_type chunk reply agg cache)
    as [(cr & agg1 & Hm & Heq)|(agg0 & _ & Hagg & ->)]; [|by rewrite Hagg].
  unfold unusable, process_chunk in *.
  repeat case_match; try done; apply bool_decide_eq_true in Hu; simplify_eq.
Qed.

(** The loop over chunks that are not empty, from a cache that answers no
    call on them: no call of the loop is answered from the cache, since the
    grand total grows with every chunk and the keys the loop adds hold the
    smaller grand totals of before. *)
Lemma fold_chunks_cold report_type service (cl : list (nat * list Cleaned)) agg cache :
  Forall (λ kc : nat * list Cleaned, kc.2 ≠ []) cl →
  (∀ k chunk a, (k, chunk) ∈ cl → (chunk, a, report_type) ∈ cache →
                Grand_Total a < Grand_Total agg) →
  let result :=
    foldl (λ '(all_results, cache) '(k, chunk),
             process_chunk report_type chunk (service k) all_results cache)
          (agg, cache) cl in
  Grand_Total result.1 = Grand_Total agg + Z.of_nat (length (concat (snd <$> cl)))
  ∧ ((∀ k chunk, (k, chunk) ∈ cl → accurate report_type chunk (service k) = true) →
     sum_totals (Sites result.1)
     = sum_totals (Sites agg) + Z.of_nat (length (concat (snd <$> cl))))
  ∧ ((∀ k chunk, (k, chunk) ∈ cl → unusable report_type (service k) = true) →
     result.1 = process_chunk_locally (concat (snd <$> cl)) agg).
Proof.
  revert agg cache. induction cl as [|[k chunk] cl IH]; intros agg cache Hne Hb.
  { simpl. split_and!; [lia|intros; lia|done]. }
  apply Forall_cons in Hne as [Hk Hne]. simpl in Hk.
  assert (∀ a, (chunk, a, report_type) ∈ cache → Grand_Total a < Grand_Total agg) as Hb1.
  { intros a. apply (Hb k). by left. }
  pose proof (process_chunk_total report_type chunk (service k) agg cache Hb1) as Ht.
  cbn [foldl].
  destruct (process_chunk report_type chunk (service k) agg cache) as [agg1 cache1] eqn:E.
  simpl in Ht.
  assert (0 < Z.of_nat (length chunk)) as Hlen.
  { destruct chunk; [done|]. simpl length. lia. }
  destruct (IH agg1 cache1 Hne) as (IHt & IHs & IHu).
  { intros k' chunk' a Hin Ha.
    pose proof (process_chunk_keys report_type chunk (service k) agg cache
                  (chunk', a, report_type)) as Hkey.
    rewrite E in Hkey. destruct (Hkey Ha) as [Hold|Hnew].
    - specialize (Hb k' chunk' a (list_elem_of_further _ _ _ Hin) Hold). lia.
    - simpl in Hnew. lia. }
  rewrite fmap_cons. cbn [concat snd]. rewrite length_app.
  split_and!.
  - rewrite IHt. lia.
  - intros Hacc. rewrite IHs by (intros; apply Hacc; by right).
    pose proof (process_chunk_sum report_type chunk (service k) agg cache Hb1
                  (Hacc k chunk ltac:(by left))) as Hs.
    rewrite E in Hs. simpl in Hs. lia.
  - intros Hun. rewrite IHu by (intros k' c' ?; apply (Hun k' c'); by right).
    pose proof (process_chunk_unusable report_type chunk (service k) agg cache
                  (Hun k chunk ltac:(by left))) as Hu.
    rewrite E, cache_data_miss in Hu by done. injection Hu as -> _.
    unfold process_chunk_locally. by rewrite foldl_app.
Qed.

(** From a fresh cache the loop of the generator counts every record. *)
Lemma aggregate_cold report_type chunk_size service cleaned_data cache :
  (0 < chunk_size)%nat →
  fresh report_type (chunks chunk_size cleaned_data) cache →
  let result := (aggregate report_type chunk_size service cleaned_data cache).1 in
  Grand_Total result = Z.of_nat (length cleaned_data)
  ∧ ((∀ k chunk, (k, chunk) ∈ chunks chunk_size cleaned_data →
                 accurate report_type chunk (service k) = true) →
     sum_totals (Sites result) = Z.of_nat (length cleaned_data))
  ∧ ((∀ k chunk, (k, chunk) ∈ chunks chunk_size cleaned_data →
                 unusable report_type (service k) = true) →
     result = process_chunk_locally cleaned_data empty_agg).
Proof.
  intros Hpos Hfresh. unfold aggregate.
  destruct (fold_chunks_cold report_type service (chunks chunk_size cleaned_data)
              empty_agg cache) as (Ht & Hs & Hu).
  - apply chunks_not_empty. done.
  - intros k chunk a Hin Ha. by destruct (Hfresh k chunk a Hin).
  - rewrite chunks_concat in * by done. simpl in *. rewrite sum_totals_empty in Hs.
    split_and!; [lia|intros Hacc; rewrite Hs by done; lia|done].
Qed.

End MergeSum.

Section HseFacts.
Import Hse.
Context (keywords : list string) (report_key open_days_key : string).

(** Once the condition has raised, the loop is over. *)
Lemma hse_count_raised chunk :
  foldl (λ result record,
           result ← result; count_record keywords open_days_key result record)
        None chunk = None.
Proof. by induction chunk. Qed.

Lemma hse_count_locally_app c1 c2 result :
  count_locally keywords open_days_key (c1 ++ c2) result
  = count_locally keywords open_days_key c1 result
    ≫= count_locally keywords open_days_key c2.
Proof.
  unfold count_locally. rewrite foldl_app.
  destruct (foldl _ (Some result) c1) as [r1|]; [done|]. apply hse_count_raised.
Qed.

Lemma hse_count_locally_cons r chunk result :
  count_locally keywords open_days_key (r :: chunk) result
  = count_record keywords open_days_key result r
    ≫= count_locally keywords open_days_key chunk.
Proof. apply (hse_count_locally_app [r] chunk). Qed.

(** The loop raises exactly when the condition raises on a record. *)
Lemma hse_count_locally_None chunk result :
  count_locally keywords open_days_key chunk result = None
  ↔ Exists (λ r, counted_locally keywords open_days_key r = None) chunk.
Proof.
  revert result. induction chunk as [|r chunk IH]; intros result.
  - split; [done|]. by intros ?%Exists_nil.
  - rewrite hse_count_locally_cons, Exists_cons. unfold count_record.
    destruct (counted_locally keywords open_days_key r) as [c|];
      cbn [mbind option_bind].
    + rewrite IH. split; [by right|]. by intros [?|?].
    + split; [by left|done].
Qed.

Lemma hse_count_locally_total chunk result result' :
  count_locally keywords open_days_key chunk result = Some result' →
  Grand_Total result'
  = Grand_Total result
    + Z.of_nat (length (filter (λ r, counted_locally keywords open_days_key r = Some true)
                               chunk)).
Proof.
  revert result. induction chunk as [|r chunk IH]; intros result.
  - intros [= <-]. simpl. lia.
  - rewrite hse_count_locally_cons. unfold count_record. rewrite filter_cons.
    destruct (counted_locally keywords open_days_key r) as [[]|];
      cbn [mbind option_bind]; [..|done].
    + intros ->%IH. rewrite decide_True by done. simpl.
      unfold ensure_site. destruct (Sites result !! c_Tower r); simpl; lia.
    + intros ->%IH. rewrite decide_False by done. lia.
Qed.

Lemma hse_merge_chunk_total chunk_result result :
  Grand_Total (merge_chunk chunk_result result)
  = Grand_Total result + chunk_grand_total chunk_result.
Proof.
  unfold merge_chunk. simpl. f_equal.
  generalize (chunk_sites chunk_result). intros sites. revert result.
  induction sites as [|[site [values|]] sites IH]; intros result; simpl; [done|..].
  - rewrite IH. simpl. unfold ensure_site. by destruct (Sites result !! site).
  - by rewrite IH.
Qed.

Lemma hse_process_chunk_falls_back chunk reply result :
  falls_back reply = true →
  process_chunk keywords report_key open_days_key chunk reply result
  = count_locally keywords open_days_key chunk result.
Proof. unfold falls_back, process_chunk. intros Hf. by repeat case_match. Qed.

(** The condition raises on the records with a keyword that hold [None]
    under "Days", and on no other. *)
Lemma hse_counted_locally_None record :
  counted_locally keywords open_days_key record = None
  ↔ is_report_record keywords (c_Description record) = true ∧ c_Days record = PyNone.
Proof.
  unfold counted_locally, get_number.
  rewrite (bool_decide_eq_true_2 ("Days" = "Days")) by done.
  destruct (is_report_record keywords (c_Description record)); [|by split; [|intros []]].
  destruct (c_Days record) as [n| |]; cbn [gt mbind option_bind].
  - split; [|by intros []]. repeat case_bool_decide; done.
  - split; [|by intros []]. repeat case_bool_decide; done.
  - done.
Qed.

End HseFacts.

(** ** The grand total and the site totals *)





(** C1 with a cache that holds the chunk: the same two records are handed
    to the generator twice while the service is out of reach.  The first
    loop counts them; in the second loop the call of the local aggregator
    has the arguments of the first one, the cache answers it, and the
    aggregate stays empty: the grand total is 0 for 2 records. *)
Example cache_hit_leaves_chunk_out :
  let record n := mkCleaned ("Crack at tower 4 pour " +:+ dec n) "SW" "2024-01-01"
                            "2024-03-01" "Closed" 60 "Eden-Tower-04" None [P n] "SW" in
  let first := Ncr.aggregate "Closed" 20 (λ _, Ncr.Raised) [record 1; record 2] [] in
  let second := Ncr.aggregate "Closed" 20 (λ _, Ncr.Raised) [record 1; record 2] first.2 in
  Ncr.Grand_Total first.1 = 2
  ∧ second.1 = Ncr.empty_agg
  ∧ Ncr.Grand_Total second.1 ≠ Z.of_nat (length [record 1; record 2]).
Proof. by vm_compute. Qed.


(** ** The fallback *)

Lemma fold_add_record_descriptions (l : list Cleaned) (b : Ncr.Bucket) :
  Ncr.Descriptions (foldl (λ b record, Ncr.add_record record b) b l)
  = Ncr.Descriptions b ++ (c_Description <$> l).
Proof.
  revert b. induction l as [|r l IH]; intros b; simpl; [by rewrite app_nil_r|].
  rewrite IH. unfold Ncr.add_record, Ncr.count_discipline.
  repeat case_bool_decide; simpl; by rewrite <-app_assoc.
Qed.

Lemma fold_add_record_total (l : list Cleaned) (b : Ncr.Bucket) :
  Ncr.Total (foldl (λ b record, Ncr.add_record record b) b l)
  = Ncr.Total b + Z.of_nat (length l).
Proof.
  revert b. induction l as [|r l IH]; intros b; [simpl; lia|].
  cbn [foldl]. rewrite IH, add_record_total. simpl length. lia.
Qed.

(** What the fallback loops test: the Housekeeping loop counts a record
    with a keyword and the discipline HSE whose "Days" is above 7 or, when
    "Days" is a smaller number or [NaN], whose "Days_From_Today" is above
    7; the Safety loop reads "Days_From_Reference" in its place, a key no
    record has, so only "Days" counts there. *)
Lemma housekeeping_counted record :
  Hse.counted_locally housekeeping_keywords "Days_From_Today" record = Some true
  ↔ Hse.is_report_record housekeeping_keywords (Hse.c_Description record) = true
    ∧ Hse.c_Discipline record = "HSE"
    ∧ Hse.c_Days record ≠ Hse.PyNone
    ∧ (days_over_7 record ∨ open_over_7 record).
Proof.
  unfold Hse.counted_locally, Hse.get_number, days_over_7, open_over_7.
  rewrite (bool_decide_eq_true_2 ("Days" = "Days")) by done.
  rewrite (bool_decide_eq_false_2 ("Days_From_Today" = "Days")) by done.
  rewrite (bool_decide_eq_true_2 ("Days_From_Today" = "Days_From_Today")) by done.
  destruct (Hse.is_report_record housekeeping_keywords (Hse.c_Description record));
    [|by split; [|intros []]].
  destruct (Hse.c_Days record) as [n| |], (Hse.c_Days_From_Today record) as [m|];
    cbn [Hse.gt mbind option_bind default];
    repeat case_bool_decide; cbn [mbind option_bind andb];
    (split; [intros [=]; split_and!; eauto with lia
            |intros (_ & ? & ? & [(? & [=] & ?)|(? & [=] & ?)]); subst; try done; try lia]).
Qed.

Lemma safety_counted record :
  Hse.counted_locally safety_keywords "Days_From_Reference" record = Some true
  ↔ Hse.is_report_record safety_keywords (Hse.c_Description record) = true
    ∧ Hse.c_Discipline record = "HSE"
    ∧ days_over_7 record.
Proof.
  unfold Hse.counted_locally, Hse.get_number, days_over_7.
  rewrite (bool_decide_eq_true_2 ("Days" = "Days")) by done.
  rewrite (bool_decide_eq_false_2 ("Days_From_Reference" = "Days")) by done.
  rewrite (bool_decide_eq_false_2 ("Days_From_Reference" = "Days_From_Today")) by done.
  destruct (Hse.is_report_record safety_keywords (Hse.c_Description record));
    [|by split; [|intros []]].
  destruct (Hse.c_Days record) as [n| |];
    cbn [Hse.gt mbind option_bind default];
    repeat case_bool_decide; cbn [mbind option_bind andb];
    (split; [intros [=]; split_and!; eauto with lia
            |intros (_ & ? & (? & [=] & ?)); subst; try done; try lia]).
Qed.




(** A reply whose first site is complete and whose second site lacks its
    total: the first site is merged, the merge raises, and the fallback adds
    the whole chunk again.  The grand total is the size of the chunk, the
    site totals sum to more. *)
Example partial_merge_then_fallback :
  let record := mkCleaned "Crack at tower 4" "SW" "2024-01-01" "2024-03-01" "Closed"
                          60 "Eden-Tower-04" None ["Common"] "SW" in
  let site1 := Ncr.mkRemoteSite (Some ["Crack at tower 4"]) (Some ["2024-01-01"])
                 (Some ["2024-03-01"]) (Some ["Closed"]) (Some ["SW"])
                 (Some [["Common"]]) (Some 1) (Some 0) (Some 0) (Some 1)
                 (Some [("Common", Some 1)]) in
  let site2 := Ncr.mkRemoteSite (Some []) (Some []) (Some []) (Some []) (Some [])
                 (Some []) (Some 0) (Some 0) (Some 0) None (Some []) in
  let reply := Ncr.Http 200
    (Some {[ "Closed" := Ncr.mkChunkResult
               (Some [("Eden-Tower-04", Some site1); ("Common_Area", Some site2)]) ]}) in
  let result := (Ncr.process_chunk "Closed" [record] reply Ncr.empty_agg []).1 in
  Ncr.Grand_Total result = 1
  ∧ Ncr.sum_totals (Ncr.Sites result) = 2
  ∧ Ncr.Descriptions (bucket_of "Eden-Tower-04" result)
    = ["Crack at tower 4"; "Crack at tower 4"].
Proof. by vm_compute. Qed.

(** The fallback of the Safety path reads the age of an open record under
    the key "Days_From_Reference", which no record carries: an open record
    with a safety keyword that has been open for 30 days, and whose [Days]
    cell is [NaN], is left out, where a loop reading "Days_From_Today", as
    the Housekeeping one does, counts it. *)
Example safety_fallback_open_record :
  let record := Hse.mkCleaned "No helmet at Tower 5" "2024-01-01" "NaT" "Open"
                              Hse.NaN (Some 30) "HSE" "Eden-Tower 05" in
  Hse.counted_locally safety_keywords "Days_From_Reference" record = Some false
  ∧ Hse.counted_locally safety_keywords "Days_From_Today" record = Some true.
Proof. by vm_compute. Qed.

(** An open record with a keyword from a table whose column "Days" holds
    no number: the record holds [None] under "Days", the comparison of the
    fallback loop raises, and the generator returns an error payload. *)
Example fallback_raises_on_none :
  let record := Hse.mkCleaned "Garbage heap at Tower 5" "2024-01-01" "NaT" "Open"
                              Hse.PyNone (Some 30) "HSE" "Eden-Tower05" in
  Hse.counted_locally housekeeping_keywords "Days_From_Today" record = None
  ∧ housekeeping_aggregate (λ _, Hse.ReadTimeout) [record] = ErrorPayload "Unexpected Error".
Proof. by vm_compute. Qed.

(** ** The matcher *)

Lemma is_digit_lower x : is_digit (lower_char x) = is_digit x.
Proof. by destruct x as [[] [] [] [] [] [] [] []]. Qed.

Lemma is_space_lower x : is_space (lower_char x) = is_space x.
Proof. by destruct x as [[] [] [] [] [] [] [] []]. Qed.

Lemma star_elem p s m rest :
  (m, rest) ∈ star p s →
  m ++ rest = s ∧ Forall (λ x, in_cls p (lower_char x) = true) m.
Proof.
  revert m rest. induction s as [|x s IH]; intros m rest; simpl.
  - intros [= -> ->]%list_elem_of_singleton. by split.
  - destruct (in_cls p (lower_char x)) eqn:E.
    + rewrite elem_of_app, list_elem_of_fmap, list_elem_of_singleton.
      intros [([m' rest'] & [= -> ->] & Hin) | [= -> ->]]; [|by split].
      apply IH in Hin as [<- Hall]. split; [done|]. by constructor.
    + intros [= -> ->]%list_elem_of_singleton. by split.
Qed.

Lemma plus_elem p s m rest :
  (m, rest) ∈ plus p s →
  m ≠ [] ∧ m ++ rest = s ∧ Forall (λ x, in_cls p (lower_char x) = true) m.
Proof.
  unfold plus. destruct s as [|x s]; [by intros ?%elem_of_nil|].
  destruct (in_cls p (lower_char x)) eqn:E; [|by intros ?%elem_of_nil].
  rewrite list_elem_of_fmap.
  intros ([m' rest'] & [= -> ->] & [<- Hall]%star_elem).
  repeat split; [done|]. by constructor.
Qed.

Lemma group_cons_eq n m c : group ((n, m) :: c) n = m.
Proof. simpl. by rewrite decide_True. Qed.

Lemma group_cons_ne k n m c : n ≠ k → group ((k, m) :: c) n = group c n.
Proof. intros. simpl. by rewrite decide_False. Qed.

(** Membership in an empty or a one-element list of results *)
Local Ltac elem_inv H :=
  first [ by apply elem_of_nil in H
        | apply list_elem_of_singleton in H; by simplify_eq ].

(** A match leaves the groups it does not contain as they were. *)
Lemma ms_frame r s c m rest c' n :
  (m, rest, c') ∈ ms r s c → n ∉ groups r → group c' n = group c n.
Proof.
  revert s c m rest c'.
  induction r as [l|p|r1 IH1 r2 IH2|r1 IH1 r2 IH2|p|p|r IH|k r IH|r IH];
    intros s c m rest c' Hin Hn; simpl in *.
  - destruct (lit_match _ _) as [[? ?]|]; elem_inv Hin.
  - destruct s; [elem_inv Hin|]. case_match; elem_inv Hin.
  - apply not_elem_of_app in Hn as [Hn1 Hn2].
    destruct (proj1 (list_elem_of_bind _ _ _) Hin) as ([[m1 s1] c1] & Hin2 & H1).
    destruct (proj1 (list_elem_of_fmap _ _ _) Hin2) as ([[m2 s2] c2] & [= -> -> ->] & H2).
    by rewrite (IH2 _ _ _ _ _ H2 Hn2), (IH1 _ _ _ _ _ H1 Hn1).
  - apply not_elem_of_app in Hn as [Hn1 Hn2].
    destruct (proj1 (elem_of_app _ _ _) Hin) as [Hin1|Hin2];
      [by eapply IH1|by eapply IH2].
  - by destruct (proj1 (list_elem_of_fmap _ _ _) Hin) as ([? ?] & [= -> -> ->] & _).
  - by destruct (proj1 (list_elem_of_fmap _ _ _) Hin) as ([? ?] & [= -> -> ->] & _).
  - destruct (proj1 (elem_of_app _ _ _) Hin) as [Hin1|Hin2];
      [by eapply IH|elem_inv Hin2].
  - apply not_elem_of_cons in Hn as [Hk Hr].
    destruct (proj1 (list_elem_of_fmap _ _ _) Hin) as ([[m1 s1] c1] & [= -> -> ->] & H1).
    rewrite group_cons_ne by done. by eapply IH.
  - destruct (ms r s c); elem_inv Hin.
Qed.

(** Every match sets the groups of [digit_groups] to runs of digits. *)
Lemma ms_digits r s c m rest c' n :
  (m, rest, c') ∈ ms r s c → n ∈ digit_groups r → digits_at n c'.
Proof.
  revert s c m rest c'.
  induction r as [l|p|r1 IH1 r2 IH2|r1 IH1 r2 IH2|p|p|r IH|k r IH|r IH];
    intros s c m rest c' Hin Hn; try (by apply elem_of_nil in Hn).
  - cbn [digit_groups] in Hn. cbn [ms] in Hin.
    destruct (proj1 (list_elem_of_bind _ _ _) Hin) as ([[m1 s1] c1] & Hin2 & H1).
    destruct (proj1 (list_elem_of_fmap _ _ _) Hin2) as ([[m2 s2] c2] & [= -> -> ->] & H2).
    destruct (proj1 (elem_of_app _ _ _) Hn) as [Hr2|Hr1]; [by eapply IH2|].
    apply list_elem_of_filter in Hr1 as [Hn2 Hn1].
    unfold digits_at. rewrite (ms_frame _ _ _ _ _ _ _ H2 Hn2).
    by eapply IH1.
  - cbn [digit_groups] in Hn. cbn [ms] in Hin.
    apply list_elem_of_filter in Hn as [Hn2 Hn1].
    destruct (proj1 (elem_of_app _ _ _) Hin) as [Hin1|Hin2];
      [by eapply IH1|by eapply IH2].
  - cbn [ms] in Hin.
    destruct (proj1 (list_elem_of_fmap _ _ _) Hin) as ([[m1 s1] c1] & [= -> -> ->] & H1).
    assert (n ≠ k → n ∈ digit_groups r → digits_at n ((k, m1) :: c1)) as Hother.
    { intros Hne Hnr. unfold digits_at. rewrite group_cons_ne by done.
      by eapply IH. }
    destruct r as [| | | | |p| | |];
      try (cbn [digit_groups] in Hn;
           apply list_elem_of_filter in Hn as [Hne Hnr]; by apply Hother).
    destruct p;
      try (cbn [digit_groups] in Hn;
           apply list_elem_of_filter in Hn as [Hne Hnr]; by apply Hother).
    cbn [digit_groups] in Hn. apply list_elem_of_singleton in Hn as ->.
    unfold digits_at. rewrite group_cons_eq.
    cbn [ms] in H1.
    destruct (proj1 (list_elem_of_fmap _ _ _) H1) as ([m2 s2] & [= -> -> ->] & H2).
    apply plus_elem in H2 as (Hne & _ & Hall). split; [done|].
    eapply Forall_impl; [exact Hall|]. intros x Hx. simpl in Hx.
    by rewrite is_digit_lower in Hx.
Qed.

(** The captures [re.findall] and [re.search] report are those of a match. *)
Lemma match_here_elem r s res :
  match_here r s = Some res → res ∈ ms r s [].
Proof. unfold match_here. apply head_Some_elem_of. Qed.

Lemma search_elem r s res :
  search r s = Some res → ∃ s', res ∈ ms r s' [].
Proof.
  induction s as [|x s IH]; simpl.
  - destruct (match_here r []) eqn:E; [|done].
    intros [= ->]. eauto using match_here_elem.
  - destruct (match_here r (x :: s)) eqn:E.
    + intros [= ->]. eauto using match_here_elem.
    + exact IH.
Qed.

Lemma findall_from_elem r s k c :
  c ∈ findall_from r s k → ∃ s' m rest, (m, rest, c) ∈ ms r s' [].
Proof.
  revert k. induction s as [|x s IH]; intros k; simpl; [by intros ?%elem_of_nil|].
  destruct k as [|k]; [|apply IH].
  destruct (match_here r (x :: s)) as [[[m rest] c0]|] eqn:E; [|apply IH].
  intros [->|Hin]%elem_of_cons; [|by eapply IH].
  eauto using match_here_elem.
Qed.

Lemma findall_digits r s c n :
  c ∈ findall r s → n ∈ digit_groups r → digits_at n c.
Proof.
  unfold findall. intros (s' & m & rest & Hin)%findall_from_elem Hn.
  by eapply ms_digits.
Qed.

Lemma search_digits r s m rest c n :
  search r s = Some (m, rest, c) → n ∈ digit_groups r → digits_at n c.
Proof. intros [s' Hin]%search_elem Hn. by eapply ms_digits. Qed.

(** ** The tower of a record *)

Lemma zfill_padded l : digits l → padded_digits (zfill 2 l).
Proof.
  intros [Hne Hall]. unfold zfill, padded_digits. split.
  - rewrite length_app, length_replicate. lia.
  - apply Forall_app. split; [|done]. by apply Forall_replicate.
Qed.

Lemma tower_of_form description : tower_form padded_digits (tower_of description).
Proof.
  unfold tower_of. case_match; [by left|].
  destruct (search multiple_tower_pattern (chars description))
    as [[[m rest] c]|] eqn:E.
  - right; right; right.
    exists (zfill 2 (group c 2)), (zfill 2 (group c 5)).
    split; [|split; [|done]]; apply zfill_padded.
    + eapply (search_digits _ _ _ _ _ 2); [exact E|]. by apply (bool_decide_unpack _).
    + eapply (search_digits _ _ _ _ _ 5); [exact E|]. by apply (bool_decide_unpack _).
  - destruct (findall tower_pattern description) as [|first l] eqn:F; [by right; left|].
    assert (padded_digits (zfill 2 (group first 2))) as Hfirst.
    { apply zfill_padded.
      apply (findall_digits tower_pattern description first 2).
      - rewrite F. by left.
      - by apply (bool_decide_unpack _). }
    repeat case_match; try (by right; left); right; right; left; eauto.
Qed.

(** ** The pours of a record *)

Lemma digit_val_nonneg x : is_digit x = true → 0 ≤ digit_val x.
Proof.
  unfold is_digit, digit_val. intros [H1 _]%andb_prop.
  apply Nat.leb_le in H1. lia.
Qed.

Lemma int_nonneg l : Forall (λ x, is_digit x = true) l → 0 ≤ int l.
Proof.
  intros Hall. unfold int.
  cut (∀ acc, 0 ≤ acc → 0 ≤ foldl (λ acc c, 10 * acc + digit_val c) acc l);
    [intros H; by apply H|].
  induction Hall as [|x l Hx _ IH]; intros acc Hacc; simpl; [done|].
  apply IH. pose proof (digit_val_nonneg x Hx). lia.
Qed.

Lemma foldl_invariant {A B} (I : A → Prop) (f : A → B → A) (l : list B) (a : A) :
  I a → (∀ acc y, y ∈ l → I acc → I (f acc y)) → I (foldl f a l).
Proof.
  revert a. induction l as [|y l IH]; intros a Ha Hf; simpl; [done|].
  apply IH; [apply Hf; [by left|done]|].
  intros acc z Hz. apply Hf. by right.
Qed.

Lemma add_number_labels pours num_str :
  digits num_str → all_labels pours → all_labels (add_number pours num_str).
Proof.
  intros [_ Hd] Hp x. unfold add_number. case_bool_decide; [|apply Hp].
  intros [Hx| ->%elem_of_singleton]%elem_of_union; [by apply Hp|].
  exists (int num_str). split; [by apply int_nonneg|done].
Qed.

Lemma add_range_labels pours m :
  digits_at 1 m → all_labels pours → all_labels (add_range pours m).
Proof.
  intros [_ Hd] Hp x. unfold add_range.
  destruct (_ && _); [|apply Hp].
  intros [Hx|Hx]%elem_of_union; [by apply Hp|].
  apply elem_of_list_to_set, list_elem_of_fmap in Hx as (i & -> & Hi).
  apply elem_of_seqZ in Hi. exists i. split; [|done].
  pose proof (int_nonneg _ Hd). lia.
Qed.

Lemma range_tier_labels description : all_labels (range_tier description).
Proof.
  unfold range_tier. apply (foldl_invariant all_labels); [by intros x ?%not_elem_of_empty|].
  intros acc m Hm Hacc. apply add_range_labels; [|done].
  apply (findall_digits range_pattern description); [done|].
  by apply (bool_decide_unpack _).
Qed.

Lemma list_tier_labels description : all_labels (list_tier description).
Proof.
  unfold list_tier. apply (foldl_invariant all_labels); [by intros x ?%not_elem_of_empty|].
  intros acc m _ Hacc. unfold add_list.
  apply (foldl_invariant all_labels); [done|].
  intros acc' num_str (c & -> & Hc)%list_elem_of_fmap Hacc'.
  apply add_number_labels; [|done].
  apply (findall_digits digits_pattern (str (group m 1)) c 0); [done|].
  by apply (bool_decide_unpack _).
Qed.

Lemma individual_tier_labels description : all_labels (individual_tier description).
Proof.
  unfold individual_tier.
  apply (foldl_invariant all_labels); [by intros x ?%not_elem_of_empty|].
  intros acc num_str (c & -> & Hc)%list_elem_of_fmap Hacc.
  apply add_number_labels; [|done].
  apply (findall_digits individual_pattern description c 1); [done|].
  by apply (bool_decide_unpack _).
Qed.

Lemma pours_set_labels description : all_labels (pours_set description).
Proof.
  unfold pours_set. repeat case_decide;
    auto using range_tier_labels, list_tier_labels, individual_tier_labels.
Qed.

Lemma elem_of_sorted (pours : gset string) x : x ∈ sorted pours ↔ x ∈ pours.
Proof. unfold sorted. by rewrite merge_sort_Permutation, elem_of_elements. Qed.

Lemma sorted_form (pours : gset string) :
  pours ≠ ∅ → all_labels pours →
  sorted pours ≠ [] ∧ StronglySorted String.le (sorted pours) ∧ NoDup (sorted pours)
  ∧ Forall pour_label (sorted pours).
Proof.
  intros Hne Hall. split; [|split; [|split]].
  - intros Hnil. apply Hne. apply leibniz_equiv, elements_empty_inv.
    apply Permutation_nil_r. unfold sorted in Hnil.
    by rewrite <-Hnil, merge_sort_Permutation.
  - apply (StronglySorted_merge_sort _).
  - unfold sorted. rewrite merge_sort_Permutation. apply NoDup_elements.
  - apply Forall_forall. intros x Hx. by apply Hall, elem_of_sorted.
Qed.

Lemma extract_pours_form description : pours_form (extract_pours description).
Proof.
  unfold extract_pours. case_match; [by left|].
  case_decide; [by left|]. right.
  apply sorted_form; [done|apply pours_set_labels].
Qed.

(** ** The output of the classifier *)

(** C10 (as the code has it): every record that survives cleaning has a
    non-empty list of pours that is either ["Common"] or a list of distinct
    labels P<n> in lexicographic order, and a tower that is "Eden-Club",
    "Common_Area", "Eden-Tower-<N>" or "Eden-Tower-<N>-<M>-CommonArea" where
    the numbers are runs of digits padded with zeros to at least two
    digits. *)
Theorem C10_classifier_output date_str df report_type record cleaned :
  clean_record date_str df report_type record = Some cleaned →
  c_Pours cleaned ≠ []
  ∧ pours_form (c_Pours cleaned)
  ∧ tower_form padded_digits (c_Tower cleaned).
Proof.
  unfold clean_record. destruct record as [row days_from_today].
  case_bool_decide; [done|]. case_match; try done.
  intros [= <-]. simpl.
  pose proof (extract_pours_form (lower (get_text df "Description" (Description row)))) as Hp.
  split; [|split; [done|apply tower_of_form]].
  by destruct Hp as [->|[? _]].
Qed.

Lemma C10_classifier_output_witness :
  let row := process_json_row (Some 0) (Some 30) (Some "Crack at Tower 4, pour 8 to 11")
                              (Some "Closed") (Some "SW") in
  let cleaned := mkCleaned "Crack at Tower 4, pour 8 to 11" "SW" "date" "date" "Closed"
                           30 "Eden-Tower-04" None ["P10"; "P11"; "P8"; "P9"] "SW" in
  clean_record (λ _, "date") (mkDF json_columns [row]) "Closed" (row, None) = Some cleaned
  ∧ c_Pours cleaned ≠ []
  ∧ pours_form (c_Pours cleaned)
  ∧ tower_form padded_digits (c_Tower cleaned).
Proof.
  intros row cleaned.
  assert (clean_record (λ _, "date") (mkDF json_columns [row]) "Closed" (row, None)
          = Some cleaned) as Hc by (vm_compute; reflexivity).
  split; [exact Hc|].
  exact (C10_classifier_output _ _ _ _ _ Hc).
Defined.

(** C10, on a tower number of three digits: the description "Leak at Tower
    100" gives the tower "Eden-Tower-100", whose number is not a two-digit
    one. *)
Lemma C10_three_digit_tower :
  let row := process_json_row (Some 0) (Some 30) (Some "Leak at Tower 100")
                              (Some "Closed") (Some "Civil") in
  ∃ cleaned,
    clean_record (λ _, "date") (mkDF json_columns [row]) "Closed" (row, None) = Some cleaned
    ∧ c_Tower cleaned = "Eden-Tower-100"
    ∧ ¬ tower_form two_digits (c_Tower cleaned).
Proof.
  intros row. eexists. split; [vm_compute; reflexivity|]. split; [done|].
  simpl. intros [H|[H|[(n & [Hl _] & H)|(n & m & [Hl _] & _ & H)]]]; try done.
  all: destruct n as [|a [|b [|? ?]]]; try done; simpl in H; by simplify_eq.
Qed.

(** ** Finding the markers and the ranges *)

Lemma chars_str l : chars (str l) = l.
Proof. apply list_ascii_of_string_of_list_ascii. Qed.

Lemma str_chars s : str (chars s) = s.
Proof. apply string_of_list_ascii_of_string. Qed.

Lemma is_prefix_split p s : is_prefix p s = true → ∃ post, s = p ++ post.
Proof.
  revert s. induction p as [|a p IH]; intros s; simpl; [by eexists|].
  destruct s as [|b s]; [done|]. case_decide; [subst|done].
  intros [post ->]%IH. by eexists.
Qed.

Lemma contains_chars_split needle hay :
  contains_chars needle hay = true → ∃ pre post, hay = pre ++ needle ++ post.
Proof.
  induction hay as [|x hay IH]; simpl.
  - rewrite orb_false_r. intros [post ->]%is_prefix_split. by exists [], post.
  - intros [[post Hp]%is_prefix_split | (pre & post & ->)%IH]%orb_prop.
    + exists [], post. by rewrite Hp.
    + by exists (x :: pre), post.
Qed.

Lemma lit_match_app p rest : lit_match p (p ++ rest) = Some (p, rest).
Proof.
  induction p as [|a p IH]; simpl; [done|].
  rewrite decide_True by done. by rewrite IH.
Qed.

Lemma star_whole p l rest :
  Forall (λ x, in_cls p (lower_char x) = true) l → (l, rest) ∈ star p (l ++ rest).
Proof.
  induction 1 as [|x l Hx _ IH]; simpl.
  - destruct rest as [|y rest]; simpl; [by left|].
    case_match; [apply elem_of_app; right|]; by left.
  - rewrite Hx. apply elem_of_app. left.
    apply list_elem_of_fmap. by exists (l, rest).
Qed.

Lemma ms_cat_elem r1 r2 s c m1 s1 c1 m2 s2 c2 :
  (m1, s1, c1) ∈ ms r1 s c → (m2, s2, c2) ∈ ms r2 s1 c1 →
  (m1 ++ m2, s2, c2) ∈ ms (Cat r1 r2) s c.
Proof.
  intros H1 H2. simpl. apply list_elem_of_bind. exists (m1, s1, c1).
  split; [|done]. apply list_elem_of_fmap. by exists (m2, s2, c2).
Qed.

Lemma ms_lit_elem l rest c : (chars l, rest, c) ∈ ms (Lit l) (chars l ++ rest) c.
Proof. simpl. rewrite lit_match_app. by left. Qed.

Lemma match_here_is_Some r s res : res ∈ ms r s [] → is_Some (match_here r s).
Proof.
  unfold match_here. intros Hin. apply head_is_Some. by intros Hnil; rewrite Hnil in Hin;
    apply elem_of_nil in Hin.
Qed.

Lemma search_app r pre s : is_Some (match_here r s) → is_Some (search r (pre ++ s)).
Proof.
  intros Hs. induction pre as [|x pre IH]; simpl.
  - destruct s; simpl; destruct Hs as [res ->]; eauto.
  - destruct (match_here r (x :: pre ++ s)); eauto.
Qed.

(** The search for [common_pattern] finds every marker. *)
Lemma found_common_marker description :
  common_marker description → found common_pattern description = true.
Proof.
  unfold found, contains. intros Hm. apply bool_decide_eq_true.
  destruct Hm as [(pre & post & ->)%contains_chars_split
                 | (pre & blanks & post & Hb & ->)].
  - apply search_app. eapply match_here_is_Some.
    unfold common_pattern. cbn [ms]. apply elem_of_app. left.
    rewrite lit_match_app. by left.
  - apply search_app. eapply match_here_is_Some.
    unfold common_pattern. cbn [ms]. apply elem_of_app. right.
    fold (ms (Lit "flat" >> Star Space >> Lit "no")%re
             (chars "flat" ++ blanks ++ chars "no" ++ post) []).
    eapply ms_cat_elem; [apply ms_lit_elem|].
    eapply ms_cat_elem; [|apply ms_lit_elem].
    cbn [ms]. apply list_elem_of_fmap. exists (blanks, chars "no" ++ post).
    split; [done|]. apply star_whole.
    eapply Forall_impl; [exact Hb|]. intros x Hx. simpl.
    by rewrite is_space_lower.
Qed.

(** *** The first match of a pattern *)

Lemma head_ms_lit l s c m rest :
  lit_match (chars l) s = Some (m, rest) → head (ms (Lit l) s c) = Some (m, rest, c).
Proof. intros H. simpl. by rewrite H. Qed.

Lemma head_ms_alt_l r1 r2 s c res :
  head (ms r1 s c) = Some res → head (ms (Alt r1 r2) s c) = Some res.
Proof. intros H. simpl. by rewrite head_app, H. Qed.

Lemma head_ms_cat r1 r2 s c m1 s1 c1 m2 s2 c2 :
  head (ms r1 s c) = Some (m1, s1, c1) →
  head (ms r2 s1 c1) = Some (m2, s2, c2) →
  head (ms (Cat r1 r2) s c) = Some (m1 ++ m2, s2, c2).
Proof.
  intros [l1 H1]%head_Some [l2 H2]%head_Some. simpl. rewrite H1.
  cbn [mbind list_bind]. by rewrite H2.
Qed.

Lemma head_star p l rest :
  Forall (λ x, in_cls p (lower_char x) = true) l → stops p rest →
  head (star p (l ++ rest)) = Some (l, rest).
Proof.
  intros Hl Hrest. induction Hl as [|x l Hx _ IH]; simpl.
  - destruct rest as [|y rest]; [done|]. simpl in *. by rewrite Hrest.
  - rewrite Hx. rewrite head_app. destruct (star p (l ++ rest)) as [|[m r] t]; [done|].
    simpl in *. by simplify_eq.
Qed.

Lemma head_ms_star p l rest c :
  Forall (λ x, in_cls p (lower_char x) = true) l → stops p rest →
  head (ms (Star p) (l ++ rest) c) = Some (l, rest, c).
Proof.
  intros Hl Hrest. simpl.
  pose proof (head_star p l rest Hl Hrest) as H.
  destruct (star p (l ++ rest)) as [|[m r] t]; simpl in *; by simplify_eq.
Qed.

Lemma head_ms_plus p l rest c :
  l ≠ [] → Forall (λ x, in_cls p (lower_char x) = true) l → stops p rest →
  head (ms (Plus p) (l ++ rest) c) = Some (l, rest, c).
Proof.
  intros Hne Hl Hrest. destruct Hl as [|x l Hx Hl]; [done|].
  cbn [ms plus app]. rewrite Hx.
  pose proof (head_star p l rest Hl Hrest) as H.
  destruct (star p (l ++ rest)) as [|[m r] t]; simpl in *; by simplify_eq.
Qed.

Lemma head_ms_grp n r s c m rest c' :
  head (ms r s c) = Some (m, rest, c') →
  head (ms (Grp n r) s c) = Some (m, rest, (n, m) :: c').
Proof. intros [l H]%head_Some. simpl. by rewrite H. Qed.

Lemma digits_in_cls l :
  Forall (λ x, is_digit x = true) l →
  Forall (λ x, in_cls Digit (lower_char x) = true) l.
Proof.
  intros Hl. eapply Forall_impl; [exact Hl|].
  intros x Hx. simpl. by rewrite is_digit_lower.
Qed.

Lemma digit_not_dash_space x :
  is_digit x = true → in_cls DashSpace (lower_char x) = false.
Proof. by destruct x as [[] [] [] [] [] [] [] []]. Qed.

Lemma digit_not_marker_start x :
  is_digit x = true → lower_char x ≠ "c"%char ∧ lower_char x ≠ "f"%char.
Proof. by destruct x as [[] [] [] [] [] [] [] []]. Qed.

(** The range pattern on "pour <a> to <b>" matches the whole text and
    captures the two numbers. *)
Lemma range_pattern_on_text a b :
  digits a → digits b →
  match_here range_pattern (chars (pour_range_text a b))
  = Some (chars (pour_range_text a b), [], [(2%nat, b); (1%nat, a)]).
Proof.
  intros [Ha Hda] [Hb Hdb]. unfold pour_range_text, match_here. rewrite chars_str.
  destruct a as [|x a]; [done|]. destruct b as [|y b]; [done|].
  pose proof (Forall_inv Hda) as Hx. pose proof (Forall_inv Hdb) as Hy.
  assert (head (ms range_pattern
                   (chars "pour" ++ [" "%char] ++ (x :: a) ++ [" "%char] ++ chars "to"
                    ++ [" "%char] ++ (y :: b) ++ []) [])
          = Some (chars "pour" ++ [" "%char] ++ (x :: a) ++ [" "%char] ++ chars "to"
                  ++ [" "%char] ++ (y :: b), [], [(2%nat, y :: b); (1%nat, x :: a)])) as H.
  { unfold range_pattern.
    eapply head_ms_cat.
    { apply head_ms_alt_l. by apply head_ms_lit. }
    eapply head_ms_cat.
    { apply (head_ms_star DashSpace [" "%char]); [by repeat constructor|].
      by apply digit_not_dash_space. }
    eapply head_ms_cat.
    { apply head_ms_grp. apply (head_ms_plus Digit (x :: a)); [done| |done].
      by apply digits_in_cls. }
    eapply head_ms_cat.
    { by apply (head_ms_star DashSpace [" "%char]); [repeat constructor|]. }
    eapply head_ms_cat.
    { apply head_ms_alt_l. by apply head_ms_lit. }
    eapply head_ms_cat.
    { apply (head_ms_star DashSpace [" "%char]); [by repeat constructor|].
      by apply digit_not_dash_space. }
    apply head_ms_grp. apply (head_ms_plus Digit (y :: b) []); [done| |done].
    by apply digits_in_cls. }
  rewrite app_nil_r in H. exact H.
Qed.

Lemma findall_from_skip r s k : (length s ≤ k)%nat → findall_from r s k = [].
Proof.
  revert k. induction s as [|x s IH]; intros k Hk; simpl; [done|].
  destruct k as [|k]; [simpl in Hk; lia|]. apply IH. simpl in Hk. lia.
Qed.

(** A pattern that matches the whole text at its start is found once. *)
Lemma findall_whole r s c :
  s ≠ [] → match_here r s = Some (s, [], c) → findall_from r s 0 = [c].
Proof.
  intros Hne Hm. destruct s as [|x s]; [done|].
  cbn [findall_from]. rewrite Hm. f_equal.
  apply findall_from_skip. simpl. lia.
Qed.

Lemma findall_range_text a b :
  digits a → digits b →
  findall range_pattern (pour_range_text a b) = [[(2%nat, b); (1%nat, a)]].
Proof.
  intros Ha Hb. unfold findall. apply findall_whole.
  - unfold pour_range_text. by rewrite chars_str.
  - by apply range_pattern_on_text.
Qed.

Lemma search_common_none s :
  Forall (λ x, lower_char x ≠ "c"%char ∧ lower_char x ≠ "f"%char) s →
  search common_pattern s = None.
Proof.
  induction 1 as [|x s [Hc Hf] _ IH]; [done|].
  cbn [search]. rewrite IH.
  unfold match_here, common_pattern. cbn [ms lit_match chars list_ascii_of_string].
  change (lower_char "c") with "c"%char. change (lower_char "f") with "f"%char.
  rewrite !decide_False by done. done.
Qed.

Lemma not_found_common_range_text a b :
  digits a → digits b → found common_pattern (pour_range_text a b) = false.
Proof.
  intros [_ Ha] [_ Hb]. unfold found, pour_range_text. rewrite chars_str.
  rewrite search_common_none; [done|].
  repeat (apply Forall_app; split);
    try (by repeat constructor);
    (eapply Forall_impl; [eassumption|]); apply digit_not_marker_start.
Qed.

Lemma elem_of_range_labels start_num end_num x :
  x ∈ (list_to_set (P <$> py_range start_num end_num) : gset string)
  ↔ ∃ i, start_num ≤ i ≤ end_num ∧ x = P i.
Proof.
  unfold py_range. rewrite elem_of_list_to_set, list_elem_of_fmap.
  split; intros (i & H1 & H2).
  - apply elem_of_seqZ in H2. exists i. split; [lia|done].
  - destruct H1. exists i. split; [done|]. apply elem_of_seqZ. lia.
Qed.

(** The pours of a description with a single pour range that is accepted *)
Lemma extract_pours_single_range description m :
  found common_pattern description = false →
  findall range_pattern description = [m] →
  int (group m 1) ≤ int (group m 2) →
  int (group m 2) - int (group m 1) ≤ 20 →
  extract_pours description
  = sorted (list_to_set (P <$> py_range (int (group m 1)) (int (group m 2))))
  ∧ ∀ x, x ∈ extract_pours description
         ↔ ∃ i, int (group m 1) ≤ i ≤ int (group m 2) ∧ x = P i.
Proof.
  intros Hc Hf Hle Hspan.
  remember (list_to_set (P <$> py_range (int (group m 1)) (int (group m 2))) : gset string)
    as labels eqn:Hlabels.
  assert (range_tier description = labels) as Hr.
  { unfold range_tier. rewrite Hf. cbn [foldl]. unfold add_range.
    rewrite !bool_decide_eq_true_2 by done. cbn [andb].
    by rewrite (left_id_L ∅ (∪)), Hlabels. }
  assert (labels ≠ ∅) as Hne.
  { intros He. assert (P (int (group m 1)) ∈ labels) as Hin.
    { rewrite Hlabels. apply elem_of_range_labels.
      exists (int (group m 1)). split; [lia|done]. }
    rewrite He in Hin. by apply not_elem_of_empty in Hin. }
  assert (extract_pours description = sorted labels) as ->.
  { unfold extract_pours, pours_set. rewrite Hc, Hr.
    repeat case_decide; try done; congruence. }
  split; [done|]. intros x. rewrite elem_of_sorted, Hlabels.
  apply elem_of_range_labels.
Qed.

(** The pours one range match adds *)
Lemma elem_of_add_range (pours : gset string) m x :
  x ∈ add_range pours m
  ↔ x ∈ pours
    ∨ (accepted m ∧ ∃ i, int (group m 1) ≤ i ≤ int (group m 2) ∧ x = P i).
Proof.
  unfold add_range, accepted.
  destruct (decide (int (group m 1) ≤ int (group m 2)
                    ∧ int (group m 2) - int (group m 1) ≤ 20)) as [[H1 H2]|Hn].
  - rewrite !bool_decide_eq_true_2 by done. cbn [andb].
    rewrite elem_of_union, elem_of_range_labels. split.
    + intros [Hx|Hx]; [by left|by right].
    + intros [Hx|[_ Hx]]; [by left|by right].
  - assert (bool_decide (int (group m 1) ≤ int (group m 2))
            && bool_decide (int (group m 2) - int (group m 1) ≤ 20) = false) as ->.
    { apply not_true_is_false. by rewrite andb_true_iff, !bool_decide_eq_true. }
    split; [by left|]. by intros [Hx|[Hacc _]].
Qed.

(** The pours of the range tier: those of every accepted range *)
Lemma elem_of_fold_add_range (ranges : list caps) (pours : gset string) x :
  x ∈ foldl add_range pours ranges
  ↔ x ∈ pours
    ∨ ∃ m i, m ∈ ranges ∧ accepted m ∧ int (group m 1) ≤ i ≤ int (group m 2) ∧ x = P i.
Proof.
  revert pours. induction ranges as [|m ranges IH]; intros pours; cbn [foldl].
  - split; [by left|]. intros [Hx|(m & i & Hm & _)]; [done|by apply elem_of_nil in Hm].
  - rewrite IH, elem_of_add_range. split.
    + intros [[Hx|(Hacc & i & Hi & ->)]|(m' & i & Hm' & Hacc & Hi & ->)].
      * by left.
      * right. exists m, i. split; [by left|done].
      * right. exists m', i. split; [by right|done].
    + intros [Hx|(m' & i & [->|Hm']%elem_of_cons & Hacc & Hi & ->)].
      * by left; left.
      * left; right. split; [done|]. by exists i.
      * right. by exists m', i.
Qed.

(** The pours of a description some range of which is accepted *)
Lemma extract_pours_ranges description :
  found common_pattern description = false →
  (∃ m, m ∈ findall range_pattern description ∧ accepted m) →
  ∀ x, x ∈ extract_pours description
       ↔ ∃ m i, m ∈ findall range_pattern description ∧ accepted m
                ∧ int (group m 1) ≤ i ≤ int (group m 2) ∧ x = P i.
Proof.
  intros Hc (m0 & Hm0 & Hacc0) x.
  assert (∀ y, y ∈ range_tier description
               ↔ ∃ m i, m ∈ findall range_pattern description ∧ accepted m
                        ∧ int (group m 1) ≤ i ≤ int (group m 2) ∧ y = P i) as Hr.
  { intros y. unfold range_tier. rewrite elem_of_fold_add_range.
    split; [intros [Hy|Hy]; [by apply not_elem_of_empty in Hy|done]|by right]. }
  assert (range_tier description ≠ ∅) as Hne.
  { intros He. destruct Hacc0 as [Hle Hspan].
    assert (P (int (group m0 1)) ∈ range_tier description) as Hin.
    { apply Hr. exists m0, (int (group m0 1)). repeat split; [done..|lia|lia]. }
    rewrite He in Hin. by apply not_elem_of_empty in Hin. }
  assert (extract_pours description = sorted (range_tier description)) as ->.
  { unfold extract_pours, pours_set. rewrite Hc.
    repeat case_decide; try done; congruence. }
  rewrite elem_of_sorted. apply Hr.
Qed.

(** The pours of a description whose pour ranges are all rejected *)
Lemma extract_pours_rejected_range description m :
  found common_pattern description = false →
  findall range_pattern description = [m] →
  20 < int (group m 2) - int (group m 1) →
  range_tier description = ∅
  ∧ pours_set description
    = (if decide (list_tier description = ∅)
       then individual_tier description else list_tier description)
  ∧ extract_pours description
    = (let pours := if decide (list_tier description = ∅)
                    then individual_tier description else list_tier description in
       if decide (pours = ∅) then ["Common"] else sorted pours).
Proof.
  intros Hc Hf Hspan.
  assert (range_tier description = ∅) as Hr.
  { unfold range_tier. rewrite Hf. cbn [foldl]. unfold add_range.
    rewrite (bool_decide_eq_false_2 (_ - _ ≤ 20)) by lia.
    by rewrite andb_false_r. }
  split; [done|].
  assert (pours_set description
          = (if decide (list_tier description = ∅)
             then individual_tier description else list_tier description)) as Hp.
  { unfold pours_set. rewrite Hr.
    repeat case_decide; try done; congruence. }
  split; [done|].
  unfold extract_pours. by rewrite Hc, Hp.
Qed.

(** *** Numbers and their decimal text *)

Lemma uint_text_digits d :
  Forall (λ x, is_digit x = true) (chars (NilEmpty.string_of_uint d)).
Proof. induction d; simpl; by constructor. Qed.

Lemma int_from_uint d p :
  foldl (λ acc c, 10 * acc + digit_val c) (Z.pos p) (chars (NilEmpty.string_of_uint d))
  = Z.pos (Pos.of_uint_acc d p).
Proof.
  revert p. induction d as [|d IH|d IH|d IH|d IH|d IH|d IH|d IH|d IH|d IH|d IH];
    intros p;
    cbn [NilEmpty.string_of_uint chars list_ascii_of_string foldl Pos.of_uint_acc];
    [done|..]; rewrite <-IH; f_equal;
    match goal with
    | |- context [digit_val ?c] =>
        let v := eval vm_compute in (digit_val c) in change (digit_val c) with v
    end; lia.
Qed.

Lemma int_uint d : int (chars (NilEmpty.string_of_uint d)) = Z.of_N (Pos.of_uint d).
Proof.
  unfold int.
  induction d as [|d IH|d IH|d IH|d IH|d IH|d IH|d IH|d IH|d IH|d IH];
    cbn [NilEmpty.string_of_uint chars list_ascii_of_string foldl Pos.of_uint Z.of_N];
    [done|exact IH|..];
    match goal with
    | |- foldl _ ?a _ = _ => let v := eval vm_compute in a in change a with v
    end; apply int_from_uint.
Qed.

Lemma dec_pos p : dec (Z.pos p) = NilEmpty.string_of_uint (Pos.to_uint p).
Proof.
  unfold dec. simpl. unfold NilZero.string_of_uint.
  pose proof (DecimalPos.Unsigned.to_uint_nonnil p).
  by destruct (Pos.to_uint p).
Qed.

(** [int(str(i)) == i] for a natural number *)
Lemma int_dec i : 0 ≤ i → int (chars (dec i)) = i.
Proof.
  intros Hi. destruct i as [|p|p]; [done| |lia].
  by rewrite dec_pos, int_uint, DecimalPos.Unsigned.of_to.
Qed.

Lemma digits_dec i : 0 ≤ i → digits (chars (dec i)).
Proof.
  intros Hi. destruct i as [|p|p]; [by split; [|repeat constructor]| |lia].
  rewrite dec_pos. split; [|apply uint_text_digits].
  pose proof (DecimalPos.Unsigned.to_uint_nonnil p).
  by destruct (Pos.to_uint p).
Qed.

Lemma str_app l1 l2 : str (l1 ++ l2) = str l1 +:+ str l2.
Proof. induction l1 as [|x l1 IH]; simpl; [done|]. by rewrite IH. Qed.

Lemma pour_range_text_dec (N M : Z) :
  pour_range_text (chars (dec N)) (chars (dec M))
  = "pour " +:+ dec N +:+ " to " +:+ dec M.
Proof.
  unfold pour_range_text. by rewrite !str_app, !str_chars.
Qed.

(** ** Pour extraction *)

(** C4: a description with a "common area" or "flat no" marker, in any
    case, has the pours ["Common"], whatever else it holds; the description
    "pour N to M" with N <= M and M - N <= 20 (the numbers written in
    decimal, or any two runs of digits), and any description without marker
    whose only range match is such a range, has exactly the pours
    P N, ..., P M (with several range matches, the pours of every accepted
    one); a description without marker that none of the three patterns
    matches has the pours ["Common"]. *)
Theorem C4_pour_extraction :
  (∀ Description,
     common_marker (lower Description) →
     extract_pours (lower Description) = ["Common"])
  ∧ (∀ N M : Z,
       0 ≤ N → N ≤ M → M - N ≤ 20 →
       extract_pours ("pour " +:+ dec N +:+ " to " +:+ dec M)
       = sorted (list_to_set (P <$> py_range N M))
       ∧ ∀ x, x ∈ extract_pours ("pour " +:+ dec N +:+ " to " +:+ dec M)
              ↔ ∃ i, N ≤ i ≤ M ∧ x = P i)
  ∧ (∀ a b,
       digits a → digits b → int a ≤ int b → int b - int a ≤ 20 →
       extract_pours (pour_range_text a b)
       = sorted (list_to_set (P <$> py_range (int a) (int b)))
       ∧ ∀ x, x ∈ extract_pours (pour_range_text a b)
              ↔ ∃ i, int a ≤ i ≤ int b ∧ x = P i)
  ∧ (∀ description m,
       found common_pattern description = false →
       findall range_pattern description = [m] →
       int (group m 1) ≤ int (group m 2) →
       int (group m 2) - int (group m 1) ≤ 20 →
       ∀ x, x ∈ extract_pours description
            ↔ ∃ i, int (group m 1) ≤ i ≤ int (group m 2) ∧ x = P i)
  ∧ (∀ description,
       found common_pattern description = false →
       (∃ m, m ∈ findall range_pattern description ∧ accepted m) →
       ∀ x, x ∈ extract_pours description
            ↔ ∃ m i, m ∈ findall range_pattern description ∧ accepted m
                     ∧ int (group m 1) ≤ i ≤ int (group m 2) ∧ x = P i)
  ∧ (∀ description,
       found common_pattern description = false →
       findall range_pattern description = [] →
       findall list_pattern description = [] →
       findall individual_pattern description = [] →
       extract_pours description = ["Common"]).
Proof.
  split; [|split; [|split; [|split; [|split]]]].
  - intros D Hm. unfold extract_pours. by rewrite found_common_marker.
  - intros N M HN Hle Hspan. rewrite <-pour_range_text_dec.
    pose proof (extract_pours_single_range
                  (pour_range_text (chars (dec N)) (chars (dec M)))
                  [(2%nat, chars (dec M)); (1%nat, chars (dec N))]) as H.
    rewrite group_cons_eq, group_cons_ne, group_cons_eq in H by done.
    rewrite !int_dec in H by lia.
    apply H; [apply not_found_common_range_text | apply findall_range_text | lia..];
      apply digits_dec; lia.
  - intros a b Ha Hb Hle Hspan.
    apply (extract_pours_single_range _ [(2%nat, b); (1%nat, a)]);
      [by apply not_found_common_range_text | by apply findall_range_text | done..].
  - intros description m Hc Hf Hle Hspan.
    by apply extract_pours_single_range.
  - apply extract_pours_ranges.
  - intros description Hc Hr Hl Hi.
    unfold extract_pours, pours_set, range_tier, list_tier, individual_tier.
    by rewrite Hc, Hr, Hl, Hi.
Qed.

Lemma C4_pour_extraction_witness :
  extract_pours (lower "Common Area near Pour 3") = ["Common"]
  ∧ extract_pours (lower "Flat  No 12, P4") = ["Common"]
  ∧ extract_pours "pour 3 to 6" = ["P3"; "P4"; "P5"; "P6"]
  ∧ (∀ x, x ∈ extract_pours "leak at p3-6" ↔ ∃ i, 3 ≤ i ≤ 6 ∧ x = P i)
  ∧ extract_pours "leak in wall" = ["Common"].
Proof.
  destruct C4_pour_extraction as (Hcommon & _ & Htext & Hrange & _ & Hnone).
  split; [|split; [|split; [|split]]].
  - apply Hcommon. left. vm_compute. reflexivity.
  - apply Hcommon. right. exists [], (chars "  "), (chars " 12, p4").
    split; [by repeat constructor|vm_compute; reflexivity].
  - destruct (Htext (chars "3") (chars "6")) as [Heq _].
    + split; [done|]. by repeat constructor.
    + split; [done|]. by repeat constructor.
    + vm_compute. discriminate.
    + vm_compute. discriminate.
    + change (extract_pours (pour_range_text (chars "3") (chars "6"))
              = ["P3"; "P4"; "P5"; "P6"]).
      rewrite Heq. vm_compute. reflexivity.
  - apply (Hrange "leak at p3-6" [(2%nat, chars "6"); (1%nat, chars "3")]).
    + vm_compute. reflexivity.
    + vm_compute. reflexivity.
    + vm_compute. discriminate.
    + vm_compute. discriminate.
  - apply Hnone; vm_compute; reflexivity.
Defined.

(** C5: when the only pour range of a description spans more than 20, the
    range tier adds no pour, and the pours are those of the list pattern,
    or those of the individual pattern when the list pattern gives none
    (["Common"] when both give none). *)
Theorem C5_rejected_range_falls_through description m :
  found common_pattern description = false →
  findall range_pattern description = [m] →
  20 < int (group m 2) - int (group m 1) →
  range_tier description = ∅
  ∧ pours_set description
    = (if decide (list_tier description = ∅)
       then individual_tier description else list_tier description)
  ∧ extract_pours description
    = (let pours := if decide (list_tier description = ∅)
                    then individual_tier description else list_tier description in
       if decide (pours = ∅) then ["Common"] else sorted pours).
Proof. apply extract_pours_rejected_range. Qed.

Lemma C5_rejected_range_falls_through_witness :
  found common_pattern "pour 1 to 30" = false
  ∧ findall range_pattern "pour 1 to 30" = [[(2%nat, chars "30"); (1%nat, chars "1")]]
  ∧ range_tier "pour 1 to 30" = ∅
  ∧ extract_pours "pour 1 to 30" = ["P1"].
Proof.
  assert (found common_pattern "pour 1 to 30" = false) as Hc
    by (vm_compute; reflexivity).
  assert (findall range_pattern "pour 1 to 30"
          = [[(2%nat, chars "30"); (1%nat, chars "1")]]) as Hf
    by (vm_compute; reflexivity).
  assert (20 < int (group [(2%nat, chars "30"); (1%nat, chars "1")] 2)
               - int (group [(2%nat, chars "30"); (1%nat, chars "1")] 1)) as Hspan
    by (vm_compute; reflexivity).
  destruct (C5_rejected_range_falls_through "pour 1 to 30" _ Hc Hf Hspan)
    as (Hr & Hp & He).
  split; [exact Hc|]. split; [exact Hf|]. split; [exact Hr|].
  rewrite He. vm_compute. reflexivity.
Defined.

(** * Further properties of the pipeline *)

(** ** The chunk loop of the three generators *)

(** X1: with a positive chunk size the chunks of the loop, taken in order,
    make up the cleaned data again; they are numbered 0, 1, 2, ..., none of
    them is empty and none is longer than the chunk size. *)
Theorem chunk_loop_partition {A} (chunk_size : nat) (data : list A) :
  (0 < chunk_size)%nat →
  concat (snd <$> chunks chunk_size data) = data
  ∧ fst <$> chunks chunk_size data = seq 0 (length (chunks chunk_size data))
  ∧ Forall (λ kc : nat * list A, kc.2 ≠ [] ∧ (length kc.2 ≤ chunk_size)%nat)
           (chunks chunk_size data).
Proof.
  intros Hpos. split; [by apply chunks_concat|]. split.
  - unfold chunks, range_step. rewrite <-!list_fmap_compose, !length_fmap, length_seq.
    etrans; [|apply list_fmap_id].
    apply list_fmap_ext. intros _ k _. simpl. apply Nat.div_mul. lia.
  - apply Forall_forall. intros [k chunk] (i & [= -> ->] & Hi)%list_elem_of_fmap.
    apply range_step_bound in Hi as [Hi _]; [|done]. simpl. split.
    + intros Hnil. apply (f_equal length) in Hnil.
      rewrite length_take, length_drop in Hnil. simpl in Hnil. lia.
    + rewrite length_take. lia.
Qed.

Lemma chunk_loop_partition_witness :
  (0 < 2)%nat
  ∧ chunks 2 ["a"; "b"; "c"; "d"; "e"] = [(0%nat, ["a"; "b"]); (1%nat, ["c"; "d"]); (2%nat, ["e"])]
  ∧ concat (snd <$> chunks 2 ["a"; "b"; "c"; "d"; "e"]) = ["a"; "b"; "c"; "d"; "e"].
Proof.
  split; [lia|]. split; [reflexivity|].
  apply (chunk_loop_partition 2 ["a"; "b"; "c"; "d"; "e"]). lia.
Defined.

(** ** The Open filter of the NCR report *)

(** X2: the Open filter needs a valid until date; with one it keeps exactly
    the rows that have status Open and a creation date more than 21 days
    before the until date, each with that number of days. *)
Theorem open_filter_rows df until_date :
  match until_date with
  | NoDate => filter_open df until_date = inl "Open Until Date is required"
  | BadDate => filter_open df until_date = inl "Invalid Open Until Date"
  | Date today =>
      ∃ l, filter_open df until_date = inr l
        ∧ ∀ r days_from_today,
            (r, days_from_today) ∈ l
            ↔ ∃ r0 c, r0 ∈ rows df
                ∧ Status r0 = Some "Open"
                ∧ Created_Date r0 = Some c
                ∧ 21 < today - c
                ∧ days_from_today = Some (today - c)
                ∧ r = mkRow (if has_column df "Days" then Days r0 else None)
                            (Created_Date r0) (Expected_Close_Date r0)
                            (Description r0) (Status r0) (Discipline r0)
  end.
Proof.
  destruct until_date as [| |today]; [done..|].
  eexists. split; [reflexivity|]. intros r dft.
  rewrite list_elem_of_filter, list_elem_of_fmap. split.
  - intros [Hgt (r0 & [= -> ->] & Hr0)].
    apply list_elem_of_filter in Hr0 as [Hc Hr0].
    apply list_elem_of_filter in Hr0 as [[c Hcr] Hr0].
    apply andb_prop in Hc as [Hst _].
    apply bool_decide_eq_true in Hst.
    exists r0, c. simpl in Hgt. rewrite Hcr in Hgt. simpl in Hgt.
    apply bool_decide_eq_true in Hgt. by rewrite Hcr.
  - intros (r0 & c & Hin & Hst & Hcr & Hgt & -> & ->). split.
    + simpl. by apply bool_decide_eq_true.
    + exists r0. split; [by rewrite Hcr|].
      apply list_elem_of_filter. split.
      * apply andb_true_intro. split; [by apply bool_decide_eq_true|].
        apply bool_decide_eq_true. by rewrite Hcr.
      * apply list_elem_of_filter. by rewrite Hcr.
Qed.

(** ** The Closed filter on the table of [process_json_data] *)

Lemma series_min_le (l : list (option Z)) (c : Z) :
  Some c ∈ l → ∃ m, series_min l = Some m ∧ m ≤ c.
Proof.
  unfold series_min.
  assert (∀ acc, Some c ∈ l ∨ (∃ a, acc = Some a ∧ a ≤ c) →
    ∃ m, foldl (λ acc x, match acc, x with
                         | Some a, Some b => Some (Z.min a b)
                         | None, o | o, None => o
                         end) acc l = Some m ∧ m ≤ c) as H.
  { induction l as [|x l IH]; intros acc Hc.
    - destruct Hc as [Hc|(a & -> & Ha)]; [by apply elem_of_nil in Hc|]. by exists a.
    - cbn [foldl]. apply IH.
      destruct Hc as [[<-|Hc]%elem_of_cons|(a & -> & Ha)]; [right|by left|right].
      + destruct acc as [a|]; eexists; (split; [done|lia]).
      + destruct x as [b|]; eexists; (split; [done|lia]). }
  intros Hc. apply H. by left.
Qed.

Lemma series_max_ge (l : list (option Z)) (c : Z) :
  Some c ∈ l → ∃ m, series_max l = Some m ∧ c ≤ m.
Proof.
  unfold series_max.
  assert (∀ acc, Some c ∈ l ∨ (∃ a, acc = Some a ∧ c ≤ a) →
    ∃ m, foldl (λ acc x, match acc, x with
                         | Some a, Some b => Some (Z.max a b)
                         | None, o | o, None => o
                         end) acc l = Some m ∧ c ≤ m) as H.
  { induction l as [|x l IH]; intros acc Hc.
    - destruct Hc as [Hc|(a & -> & Ha)]; [by apply elem_of_nil in Hc|]. by exists a.
    - cbn [foldl]. apply IH.
      destruct Hc as [[<-|Hc]%elem_of_cons|(a & -> & Ha)]; [right|by left|right].
      + destruct acc as [a|]; eexists; (split; [done|lia]).
      + destruct x as [b|]; eexists; (split; [done|lia]). }
  intros Hc. apply H. by left.
Qed.

(** X3: on a table whose Days cell is the close date minus the creation
    date, as [process_json_data] builds it, the Closed filter without a date
    range keeps exactly the rows with status Closed, both dates present and
    more than 21 days between them: the default range, from the earliest
    creation date to the latest close date of the table, excludes none of
    them. *)
Theorem closed_filter_default_window (table : list Row) :
  Forall (λ r, Days r = days_diff (Created_Date r) (Expected_Close_Date r)) table →
  ∃ l, filter_closed (mkDF json_columns table) NoDate NoDate = inr l
    ∧ ∀ r x, (r, x) ∈ l
        ↔ x = None ∧ r ∈ table ∧ Status r = Some "Closed"
          ∧ ∃ c e, Created_Date r = Some c ∧ Expected_Close_Date r = Some e
                   ∧ 21 < e - c.
Proof.
  intros Hdays. eexists. split; [reflexivity|]. intros r x.
  change (has_column (mkDF json_columns table) "Days") with true.
  cbn [rows]. rewrite list_elem_of_fmap.
  set (df1 := filter (λ r, is_Some (Created_Date r)) table).
  assert (∀ r0 : Row, mkRow (Days r0) (Created_Date r0) (Expected_Close_Date r0)
                         (Description r0) (Status r0) (Discipline r0) = r0) as Heta
    by (by intros []).
  split.
  - intros (r1 & [= -> ->] & Hr1). split; [done|].
    apply list_elem_of_filter in Hr1 as [Hp Hr1].
    apply list_elem_of_fmap in Hr1 as (r0 & -> & Hr0). rewrite Heta in *.
    apply list_elem_of_filter in Hr0 as [[e He] Hr0].
    apply list_elem_of_filter in Hr0 as [[c Hc] Hr0].
    repeat (apply andb_prop in Hp as [Hp ?]).
    apply bool_decide_eq_true in Hp.
    split; [done|]. split; [done|]. exists c, e. repeat split; [done..|].
    rewrite Forall_forall in Hdays. specialize (Hdays r0 Hr0).
    match goal with H : cell_gt _ _ = true |- _ => rename H into Hgt end.
    rewrite Hdays, Hc, He in Hgt. simpl in Hgt. by apply bool_decide_eq_true in Hgt.
  - intros (-> & Hin & Hst & c & e & Hc & He & Hgt).
    exists r. split; [done|].
    assert (r ∈ df1) as Hdf1 by (apply list_elem_of_filter; by rewrite Hc).
    apply list_elem_of_filter. split.
    + rewrite Forall_forall in Hdays. rewrite (Hdays r Hin), Hc, He. simpl.
      destruct (series_min_le (Created_Date <$> df1) c) as (lo & -> & Hlo).
      { apply list_elem_of_fmap. exists r. by rewrite Hc. }
      destruct (series_max_ge (Expected_Close_Date <$> df1) e) as (hi & -> & Hhi).
      { apply list_elem_of_fmap. exists r. by rewrite He. }
      simpl. rewrite Hst.
      rewrite !andb_true_iff, !bool_decide_eq_true. repeat split; [done|lia..].
    + apply list_elem_of_fmap. exists r. rewrite Heta. split; [done|].
      apply list_elem_of_filter. by rewrite He.
Qed.

Lemma closed_filter_default_window_witness :
  let r1 := process_json_row (Some 0) (Some 30) (Some "Crack at tower 4")
                             (Some "Closed") (Some "SW") in
  let r2 := process_json_row (Some 5) (Some 10) (Some "Leak at tower 5")
                             (Some "Closed") (Some "MEP") in
  ∃ l, filter_closed (mkDF json_columns [r1; r2]) NoDate NoDate = inr l
    ∧ ((r1, None) ∈ l) ∧ ¬ ((r2, None) ∈ l).
Proof.
  intros r1 r2.
  destruct (closed_filter_default_window [r1; r2]) as (l & Hl & Hiff).
  { by repeat constructor. }
  exists l. split; [exact Hl|]. split.
  - apply Hiff. split; [done|]. split; [by left|]. split; [done|].
    exists 0, 30. by repeat split.
  - intros (_ & _ & _ & c & e & Hc & He & Hgt)%Hiff.
    simpl in Hc, He. injection Hc as <-. injection He as <-. lia.
Defined.

(** ** The local aggregator [process_chunk_locally] *)

Section LocalFacts.
Import Ncr.

Lemma add_record_consistent record b : consistent b → consistent (add_record record b).
Proof.
  unfold consistent, add_record, count_discipline.
  intros (H1 & H2 & H3 & H4 & H5 & H6 & H7 & H8 & H9 & H10).
  repeat case_bool_decide; simpl; rewrite !length_app; simpl; lia.
Qed.

Lemma process_record_consistent agg record :
  (∀ site b, Sites agg !! site = Some b → consistent b) →
  ∀ site b, Sites (process_record agg record) !! site = Some b → consistent b.
Proof.
  intros Hagg site b. rewrite process_record_lookup. case_decide as Hs.
  - intros [= <-]. apply add_record_consistent. unfold bucket_of.
    destruct (Sites agg !! site) as [b0|] eqn:E; simpl; [by eapply Hagg|].
    unfold consistent. simpl. lia.
  - apply Hagg.
Qed.

Lemma process_record_sites agg record site :
  is_Some (Sites (process_record agg record) !! site)
  ↔ is_Some (Sites agg !! site) ∨ c_Tower record = site.
Proof.
  rewrite process_record_lookup. case_decide as Hs.
  - split; [by right|by eauto].
  - split; [by left|]. by intros [?|?].
Qed.

Lemma process_chunk_locally_sites chunk agg site :
  is_Some (Sites (process_chunk_locally chunk agg) !! site)
  ↔ is_Some (Sites agg !! site) ∨ ∃ record, record ∈ chunk ∧ c_Tower record = site.
Proof.
  unfold process_chunk_locally. revert agg.
  induction chunk as [|r chunk IH]; intros agg; cbn [foldl].
  - split; [by left|]. intros [?|(r & Hr & _)]; [done|]. by apply elem_of_nil in Hr.
  - rewrite IH, process_record_sites. split.
    + intros [[?|?]|(r' & ? & ?)]; [by left|right..].
      * exists r. split; [by left|done].
      * exists r'. split; [by right|done].
    + intros [?|(r' & [->|?]%elem_of_cons & ?)]; [by left; left|by left; right|].
      right. by exists r'.
Qed.

Lemma bump_lookup key n (counts : gmap string Z) p :
  default 0 (bump key n counts !! p)
  = default 0 (counts !! p) + (if decide (p = key) then n else 0).
Proof.
  unfold bump. case_decide as Hp.
  - subst. by rewrite lookup_insert_eq.
  - rewrite lookup_insert_ne by done. lia.
Qed.

Lemma fold_bump_lookup (pours : list string) (counts : gmap string Z) p :
  default 0 (foldl (λ pc pour, bump pour 1 pc) counts pours !! p)
  = default 0 (counts !! p) + Z.of_nat (length (filter (λ q, q = p) pours)).
Proof.
  revert counts. induction pours as [|q pours IH]; intros counts; cbn [foldl].
  - simpl. lia.
  - rewrite IH, bump_lookup, filter_cons.
    destruct (decide (p = q)) as [->|Hne].
    + rewrite decide_True by done. simpl. lia.
    + rewrite decide_False by done. lia.
Qed.

Lemma fold_add_record_counts (l : list Cleaned) (b : Bucket) :
  let b' := foldl (λ b record, add_record record b) b l in
  SW b' = SW b + with_category "SW" l
  ∧ FW b' = FW b + with_category "FW" l
  ∧ MEP b' = MEP b + with_category "MEP" l
  ∧ Pours b' = Pours b ++ (c_Pours <$> l)
  ∧ Disciplines b' = Disciplines b ++ (c_Discipline <$> l)
  ∧ ∀ p, default 0 (PoursCount b' !! p) = default 0 (PoursCount b !! p) + listed p l.
Proof.
  unfold with_category, listed. revert b.
  induction l as [|r l IH]; intros b; cbn [foldl].
  - simpl. rewrite !app_nil_r. repeat split; try lia.
  - destruct (IH (add_record r b)) as (H1 & H2 & H3 & H4 & H5 & H6).
    rewrite H1, H2, H3, H4, H5. rewrite !filter_cons.
    assert (SW (add_record r b)
            = SW b + (if decide (c_Discipline_Category r = "SW") then 1 else 0)
            ∧ FW (add_record r b)
              = FW b + (if decide (c_Discipline_Category r = "FW") then 1 else 0)
            ∧ MEP (add_record r b)
              = MEP b + (if decide (c_Discipline_Category r = "MEP") then 1 else 0))
      as (-> & -> & ->).
    { unfold add_record, count_discipline.
      repeat case_bool_decide; repeat case_decide; simpl; try lia; congruence. }
    split; [case_decide; simpl; lia|].
    split; [case_decide; simpl; lia|].
    split; [case_decide; simpl; lia|].
    split; [unfold add_record, count_discipline; repeat case_bool_decide; simpl;
            by rewrite <-app_assoc|].
    split; [unfold add_record, count_discipline; repeat case_bool_decide; simpl;
            by rewrite <-app_assoc|].
    intros p. rewrite H6.
    assert (PoursCount (add_record r b)
            = foldl (λ pc pour, bump pour 1 pc) (PoursCount b) (c_Pours r)) as ->.
    { unfold add_record, count_discipline. by repeat case_bool_decide. }
    rewrite fold_bump_lookup. rewrite fmap_cons. cbn [concat].
    rewrite filter_app, length_app. lia.
Qed.

End LocalFacts.

(** X4: the local aggregator keeps the buckets consistent: when every
    bucket has arrays of the length of its Total and discipline counters
    that are non-negative and add up to at most the Total, the same holds
    after a chunk was processed. *)
Theorem local_aggregator_consistent (chunk : list Cleaned) (all_results : Ncr.Agg) :
  (∀ site b, Ncr.Sites all_results !! site = Some b → consistent b) →
  ∀ site b, Ncr.Sites (Ncr.process_chunk_locally chunk all_results) !! site = Some b →
            consistent b.
Proof.
  unfold Ncr.process_chunk_locally. revert all_results.
  induction chunk as [|r chunk IH]; intros agg Hagg; cbn [foldl]; [done|].
  apply IH. by apply process_record_consistent.
Qed.

Lemma local_aggregator_consistent_witness :
  let r1 := mkCleaned "Crack at tower 4" "SW" "2024-01-01" "2024-03-01" "Closed"
                      60 "Eden-Tower-04" None ["Common"] "SW" in
  let r2 := mkCleaned "Odd category" "Lift" "2024-01-02" "2024-03-02" "Closed"
                      60 "Eden-Tower-04" None ["P1"; "P2"] "Unknown" in
  ∃ b, Ncr.Sites (Ncr.process_chunk_locally [r1; r2] Ncr.empty_agg) !! "Eden-Tower-04" = Some b
       ∧ consistent b ∧ Ncr.Total b = 2 ∧ Ncr.SW b + Ncr.FW b + Ncr.MEP b = 1.
Proof.
  intros r1 r2. eexists. split; [vm_compute; reflexivity|]. split; [|done].
  apply (local_aggregator_consistent [r1; r2] Ncr.empty_agg) with (site := "Eden-Tower-04");
    [|vm_compute; reflexivity].
  intros site b Hb. vm_compute in Hb. discriminate.
Defined.

Lemma process_chunk_locally_fields (chunk : list Cleaned) (site : string) :
  match Ncr.Sites (Ncr.process_chunk_locally chunk Ncr.empty_agg) !! site with
  | None => records_of site chunk = []
  | Some b =>
      records_of site chunk ≠ []
      ∧ Ncr.Total b = Z.of_nat (length (records_of site chunk))
      ∧ Ncr.SW b = with_category "SW" (records_of site chunk)
      ∧ Ncr.FW b = with_category "FW" (records_of site chunk)
      ∧ Ncr.MEP b = with_category "MEP" (records_of site chunk)
      ∧ Ncr.Pours b = c_Pours <$> records_of site chunk
      ∧ Ncr.Disciplines b = c_Discipline <$> records_of site chunk
      ∧ ∀ pour, default 0 (Ncr.PoursCount b !! pour) = listed pour (records_of site chunk)
  end.
Proof.
  pose proof (process_chunk_locally_sites chunk Ncr.empty_agg site) as Hs.
  pose proof (process_chunk_locally_bucket chunk Ncr.empty_agg site) as Hb.
  unfold bucket_of in Hb.
  destruct (Ncr.Sites (Ncr.process_chunk_locally chunk Ncr.empty_agg) !! site)
    as [b|] eqn:E; simpl in Hb.
  - destruct (proj1 Hs) as [[? H]|(r & Hr & Ht)]; [by eauto|by cbn in H; rewrite lookup_empty in H|].
    split.
    { intros Hnil. assert (r ∈ records_of site chunk) as Hin
        by (by apply list_elem_of_filter). rewrite Hnil in Hin. by apply elem_of_nil in Hin. }
    cbn in Hb. rewrite lookup_empty in Hb. simpl in Hb. subst b.
    destruct (fold_add_record_counts (records_of site chunk) Ncr.new_bucket)
      as (H1 & H2 & H3 & H4 & H5 & H6).
    rewrite fold_add_record_total. simpl in *.
    rewrite H1, H2, H3, H4, H5. repeat split; try lia.
    intros pour. rewrite H6, lookup_empty. simpl. lia.
  - destruct (records_of site chunk) as [|r l] eqn:Hl; [done|]. exfalso.
    assert (r ∈ records_of site chunk) as [Ht Hr]%list_elem_of_filter
      by (rewrite Hl; by left).
    destruct (proj2 Hs) as [? H]; [right; by exists r|done].
Qed.


(** ** The chunk loop when no reply can be used *)



(** ** The Safety and Housekeeping reports *)

Section HseReport.
Import Hse.
Context (keywords : list string) (report_key open_days_key : string).

Lemma hse_fold_fallback service (cl : list (nat * list Cleaned)) (result : option Agg) :
  (∀ k, falls_back (service k) = true) →
  foldl (λ result '(k, chunk),
           result ← result;
           process_chunk keywords report_key open_days_key chunk (service k) result)
        result cl
  = result ≫= count_locally keywords open_days_key (concat (snd <$> cl)).
Proof.
  intros Hf. revert result.
  induction cl as [|[k chunk] cl IH]; intros result; [by destruct result|].
  cbn [foldl]. rewrite IH, fmap_cons. cbn [concat snd].
  destruct result as [result|]; [|done]. cbn [mbind option_bind].
  rewrite hse_process_chunk_falls_back by done.
  by rewrite hse_count_locally_app.
Qed.

Lemma hse_count_locally_lookup chunk result result' site :
  count_locally keywords open_days_key chunk result = Some result' →
  Sites result' !! site
  = match counted_of keywords open_days_key site chunk with
    | [] => Sites result !! site
    | l => Some (foldl (λ b record, add_record record b)
                       (default new_bucket (Sites result !! site)) l)
    end.
Proof.
  unfold counted_of. revert result.
  induction chunk as [|r chunk IH]; intros result; [by intros [= <-]|].
  rewrite hse_count_locally_cons. unfold count_record. rewrite !filter_cons.
  destruct (counted_locally keywords open_days_key r) as [[]|] eqn:E;
    cbn [mbind option_bind]; [..|done].
  - intros ->%IH. rewrite decide_True by done. rewrite filter_cons.
    destruct (decide (c_Tower r = site)) as [<-|Hne].
    + simpl. rewrite lookup_alter_eq.
      unfold ensure_site. destruct (Sites result !! c_Tower r) eqn:E'; simpl.
      * rewrite E'. simpl. by case_match.
      * rewrite lookup_insert_eq. simpl. by case_match.
    + simpl. rewrite lookup_alter_ne by done.
      unfold ensure_site. destruct (Sites result !! c_Tower r) eqn:E'; simpl; [done|].
      by rewrite lookup_insert_ne.
  - intros ->%IH. by rewrite decide_False by done.
Qed.

Lemma hse_fold_add_record (l : list Cleaned) (b : Bucket) :
  let b' := foldl (λ b record, add_record record b) b l in
  Count b' = Count b + Z.of_nat (length l)
  ∧ Descriptions b' = Descriptions b ++ (c_Description <$> l)
  ∧ Created b' = Created b ++ (c_Created_Date <$> l)
  ∧ Expected_Close b' = Expected_Close b ++ (c_Expected_Close_Date <$> l)
  ∧ Statuses b' = Statuses b ++ (c_Status <$> l).
Proof.
  revert b. induction l as [|r l IH]; intros b; cbn [foldl].
  - simpl. rewrite !app_nil_r. repeat split; lia.
  - destruct (IH (add_record r b)) as (-> & -> & -> & -> & ->). simpl.
    rewrite <-!app_assoc. repeat split; lia.
Qed.

End HseReport.

(** X7: in the report of the Safety and Housekeeping generators no array of
    a site lists a value twice: the final pass removes the repeated values
    of each array on its own and leaves Count alone, so the arrays of a
    site need not be as long as each other or as its Count. *)
Theorem hse_report_arrays_distinct
    (keywords : list string) (report_key open_days_key : string)
    (service : nat → Hse.Reply) (cleaned_data : list Hse.Cleaned)
    (key : string) (result : Hse.Agg) :
  Hse.aggregate keywords report_key open_days_key service cleaned_data = Report key result →
  key = report_key
  ∧ ∀ site b, Hse.Sites result !! site = Some b →
      NoDup (Hse.Descriptions b) ∧ NoDup (Hse.Created b)
      ∧ NoDup (Hse.Expected_Close b) ∧ NoDup (Hse.Statuses b).
Proof.
  unfold Hse.aggregate. case_match; [|done]. intros [= <- <-]. split; [done|].
  intros site b. simpl. rewrite lookup_fmap.
  intros (b0 & _ & ->)%fmap_Some. simpl.
  repeat split; apply NoDup_remove_dups.
Qed.

Lemma hse_report_arrays_distinct_witness :
  let r1 := Hse.mkCleaned "Garbage heap near Tower 4" "2024-01-01" "2024-02-01"
                          "Closed" (Hse.Num 31) None "HSE" "Eden-Tower04" in
  let r2 := Hse.mkCleaned "Debris on stairs of Tower 4" "2024-01-05" "2024-02-01"
                          "Closed" (Hse.Num 27) None "HSE" "Eden-Tower04" in
  ∃ result b,
    housekeeping_aggregate (λ _, Hse.ReadTimeout) [r1; r2] = Report "Housekeeping" result
    ∧ Hse.Sites result !! "Eden-Tower04" = Some b
    ∧ Hse.Count b = 2
    ∧ length (Hse.Descriptions b) = 2%nat
    ∧ Hse.Statuses b = ["Closed"]
    ∧ NoDup (Hse.Statuses b).
Proof.
  intros r1 r2.
  destruct (housekeeping_aggregate (λ _, Hse.ReadTimeout) [r1; r2]) as [|key result] eqn:E;
    [vm_compute in E; discriminate|].
  destruct (hse_report_arrays_distinct _ _ _ _ _ _ _ E) as [-> Hd].
  destruct (Hse.Sites result !! "Eden-Tower04") as [b|] eqn:Eb;
    [|vm_compute in E; injection E as <-; vm_compute in Eb; discriminate].
  exists result, b. split; [done|]. split; [done|].
  destruct (Hd _ _ Eb) as (_ & _ & _ & Hs).
  vm_compute in E. injection E as <-. vm_compute in Eb. injection Eb as <-.
  by repeat split.
Defined.



(** ** The numbers the pour tiers accept *)

Lemma add_number_up_to pours num_str :
  digits num_str → labels_up_to 50 pours → labels_up_to 50 (add_number pours num_str).
Proof.
  intros [_ Hd] Hp x. unfold add_number. case_bool_decide as Hle; [|apply Hp].
  intros [Hx| ->%elem_of_singleton]%elem_of_union; [by apply Hp|].
  exists (int num_str). split; [|done]. split; [by apply int_nonneg|done].
Qed.

(** X9: the list tier and the single-number tier of the pour extraction
    never make a label of a number above 50; the range tier has no such
    limit, every label of it lies in a matched range that is at most 20
    wide. *)
Theorem pour_tiers_limits (description : string) :
  labels_up_to 50 (list_tier description)
  ∧ labels_up_to 50 (individual_tier description)
  ∧ ∀ x, x ∈ range_tier description →
      ∃ m i, m ∈ findall range_pattern description
             ∧ int (group m 2) - int (group m 1) ≤ 20
             ∧ int (group m 1) ≤ i ≤ int (group m 2) ∧ x = P i.
Proof.
  split; [|split].
  - unfold list_tier.
    apply (foldl_invariant (labels_up_to 50)); [by intros x ?%not_elem_of_empty|].
    intros acc m _ Hacc. unfold add_list.
    apply (foldl_invariant (labels_up_to 50)); [done|].
    intros acc' num_str (c & -> & Hc)%list_elem_of_fmap Hacc'.
    apply add_number_up_to; [|done].
    apply (findall_digits digits_pattern (str (group m 1)) c 0); [done|].
    by apply (bool_decide_unpack _).
  - unfold individual_tier.
    apply (foldl_invariant (labels_up_to 50)); [by intros x ?%not_elem_of_empty|].
    intros acc num_str (c & -> & Hc)%list_elem_of_fmap Hacc.
    apply add_number_up_to; [|done].
    apply (findall_digits individual_pattern description c 1); [done|].
    by apply (bool_decide_unpack _).
  - intros x Hx. unfold range_tier in Hx.
    apply elem_of_fold_add_range in Hx as [Hx|(m & i & Hm & [_ Hw] & Hi & ->)];
      [by apply not_elem_of_empty in Hx|].
    by exists m, i.
Qed.

(** ** The names of the sheets *)

Lemma chars_app (s1 s2 : string) : chars (s1 +:+ s2) = chars s1 ++ chars s2.
Proof.
  rewrite <-(str_chars s1), <-(str_chars s2) at 1.
  by rewrite <-str_app, chars_str.
Qed.

(** X10: with a maximal length of at least 3, as the default of 31, the
    name of a sheet never exceeds the maximal length: a name that fits is
    kept, a longer one is cut to three characters less and closed by three
    dots; truncating twice changes nothing. *)
Theorem sheet_name_fits (base_name : string) (max_length : Z) :
  3 ≤ max_length →
  let name := truncate_sheet_name base_name max_length in
  Z.of_nat (length (chars name)) ≤ max_length
  ∧ (Z.of_nat (length (chars base_name)) ≤ max_length → name = base_name)
  ∧ (max_length < Z.of_nat (length (chars base_name)) →
     name = str (take (Z.to_nat (max_length - 3)) (chars base_name)) +:+ "..."
     ∧ Z.of_nat (length (chars name)) = max_length)
  ∧ truncate_sheet_name name max_length = name.
Proof.
  intros Hmax name.
  assert (max_length < Z.of_nat (length (chars base_name)) →
          name = str (take (Z.to_nat (max_length - 3)) (chars base_name)) +:+ "..."
          ∧ Z.of_nat (length (chars name)) = max_length) as Hlong.
  { intros Hlt. unfold name, truncate_sheet_name, slice_to.
    rewrite bool_decide_eq_true_2 by done.
    rewrite bool_decide_eq_true_2 by lia. split; [done|].
    rewrite chars_app, chars_str, length_app, length_take. simpl. lia. }
  assert (Z.of_nat (length (chars base_name)) ≤ max_length → name = base_name) as Hshort.
  { intros Hle. unfold name, truncate_sheet_name.
    by rewrite bool_decide_eq_false_2 by lia. }
  assert (Z.of_nat (length (chars name)) ≤ max_length) as Hfit.
  { destruct (decide (max_length < Z.of_nat (length (chars base_name)))) as [Hlt|Hge].
    - destruct (Hlong Hlt) as [_ ->]. lia.
    - rewrite Hshort by lia. lia. }
  repeat split; try done; try (by apply Hlong).
  unfold truncate_sheet_name at 1. by rewrite bool_decide_eq_false_2 by lia.
Qed.

Lemma sheet_name_fits_witness :
  truncate_sheet_name "Housekeeping NCR Details 04_November_2026" 31
  = "Housekeeping NCR Details 04_..."
  ∧ Z.of_nat (length (chars (truncate_sheet_name
                               "Housekeeping NCR Details 04_November_2026" 31))) ≤ 31.
Proof.
  split; [vm_compute; reflexivity|].
  apply (sheet_name_fits "Housekeeping NCR Details 04_November_2026" 31). lia.
Defined.

(** ** The level of a pour *)

Lemma pour_level_of_range num :
  pour_level_of num ∈ ["common"; "Pour 1"; "Pour 2"].
Proof.
  unfold pour_level_of. destruct num as [num|]; [|by left].
  destruct (bool_decide (1 ≤ num)) eqn:H1; [|by left].
  destruct (bool_decide (num ≤ 2)) eqn:H2; [|by left].
  apply bool_decide_eq_true in H1, H2. simpl.
  assert (num = 1 ∨ num = 2) as [-> | ->] by lia.
  - right. by left.
  - right. right. by left.
Qed.


Lemma lower_digit x : is_digit x = true → lower_char x = x.
Proof. by destruct x as [[] [] [] [] [] [] [] []]. Qed.

Lemma digit_not_space x : is_digit x = true → is_space x = false.
Proof. by destruct x as [[] [] [] [] [] [] [] []]. Qed.

Lemma lstrip_head x l : is_space x = false → lstrip (x :: l) = x :: l.
Proof. intros Hx. simpl. by rewrite Hx. Qed.

Lemma strip_label (ds : list ascii) :
  digits ds → strip (str ("P"%char :: ds)) = str ("P"%char :: ds).
Proof.
  intros [Hne Hd]. unfold strip. rewrite chars_str. f_equal.
  rewrite lstrip_head by done.
  destruct (reverse ds) as [|y rds] eqn:Hr.
  { apply (f_equal reverse) in Hr. rewrite reverse_involutive in Hr. done. }
  assert (is_digit y = true) as Hy.
  { rewrite Forall_forall in Hd. apply Hd. apply elem_of_reverse. rewrite Hr. by left. }
  rewrite reverse_cons, Hr. cbn [app]. rewrite lstrip_head by by apply digit_not_space.
  change (y :: rds ++ ["P"%char]) with ((y :: rds) ++ ["P"%char]).
  by rewrite <-Hr, <-reverse_cons, reverse_involutive.
Qed.

Lemma lower_label (ds : list ascii) :
  Forall (λ x, is_digit x = true) ds →
  lower (str ("P"%char :: ds)) = str ("p"%char :: ds).
Proof.
  intros Hd. unfold lower. rewrite chars_str. f_equal. cbn [map]. f_equal.
  induction Hd as [|x l Hx _ IH]; [done|]. cbn [map]. by rewrite lower_digit, IH.
Qed.

Lemma label_level (n : Z) : 0 ≤ n → map_pour_to_level (P n) = "common".
Proof.
  intros Hn. destruct (digits_dec n Hn) as [Hne Hd].
  unfold P. rewrite <-(str_chars (dec n)).
  change ("P" +:+ str (chars (dec n))) with (str ("P"%char :: chars (dec n))).
  unfold map_pour_to_level.
  rewrite strip_label by done. rewrite lower_label by done.
  destruct (chars (dec n)) as [|y ds] eqn:E; [done|].
  pose proof (Forall_inv Hd) as Hy.
  assert (startswith "module " (str ("p"%char :: y :: ds)) = false) as ->.
  { unfold startswith. by rewrite chars_str. }
  assert (startswith "pour " (str ("p"%char :: y :: ds)) = false) as ->.
  { unfold startswith. rewrite chars_str. cbn [chars list_ascii_of_string is_prefix].
    rewrite decide_True by done. rewrite decide_False; [done|].
    intros <-. done. }
  assert (isdigit (chars (str ("p"%char :: y :: ds))) = false) as ->.
  { unfold isdigit. rewrite chars_str. by apply andb_false_intro2. }
  by repeat case_match.
Qed.

Lemma extract_pours_level (description pour : string) :
  pour ∈ extract_pours description → map_pour_to_level pour = "common".
Proof.
  intros Hin.
  destruct (extract_pours_form description) as [Hc|(_ & _ & _ & Hl)].
  - rewrite Hc in Hin. apply list_elem_of_singleton in Hin as ->.
    vm_compute. reflexivity.
  - rewrite Forall_forall in Hl. destruct (Hl pour Hin) as (n & Hn & ->).
    by apply label_level.
Qed.

(** X12: every pour the classifier of the NCR report extracts from a
    description, a label P<n> or "Common", has the level "common" in the
    workbook: none of them is counted in a "Pour 1" or "Pour 2" row. *)
Theorem classifier_pours_level (description pour : string) :
  pour ∈ extract_pours description →
  map_pour_to_level pour = "common" ∧ map_pour_to_level pour ∉ pour_levels.
Proof.
  intros Hin. rewrite (extract_pours_level description pour Hin).
  split; [done|]. unfold pour_levels.
  by intros [?|[?|?%elem_of_nil]%elem_of_cons]%elem_of_cons.
Qed.

Lemma classifier_pours_level_witness :
  extract_pours "crack at pour 1 and pour 2" = ["P1"; "P2"]
  ∧ map_pour_to_level "P1" = "common"
  ∧ map_pour_to_level "Pour 1" = "Pour 1".
Proof.
  split; [vm_compute; reflexivity|]. split; [|vm_compute; reflexivity].
  apply (classifier_pours_level "crack at pour 1 and pour 2" "P1").
  vm_compute. by left.
Defined.

(** ** The summary rows of a tower *)

Section OpenCloseFacts.
Import OpenClose.

Lemma tally_total cat counts :
  cat ∈ ["Civil Finishing"; "Structure Works"; "MEP"] →
  total (tally cat counts) = total counts + 1.
Proof.
  intros Hcat. unfold tally, total.
  repeat case_bool_decide; simpl; try lia.
  exfalso. repeat (apply elem_of_cons in Hcat as [?|Hcat]; [done|]).
  by apply elem_of_nil in Hcat.
Qed.

Lemma category_key discipline :
  category discipline ∈ ["Civil Finishing"; "Structure Works"; "MEP"].
Proof.
  unfold category.
  repeat case_bool_decide; apply (bool_decide_unpack _); vm_compute; exact I.
Qed.

Lemma level_counts_alter f level level' pc cc :
  is_Some (pc !! level) →
  level_counts level' (mkTowerCounts (alter f level pc) cc)
  = if decide (level' = level) then f (level_counts level' (mkTowerCounts pc cc))
    else level_counts level' (mkTowerCounts pc cc).
Proof.
  intros [c Hc]. unfold level_counts. simpl. rewrite lookup_alter.
  case_decide as Hl; [|by rewrite decide_False by done].
  subst. rewrite decide_True by done. by rewrite Hc.
Qed.

Lemma count_pour_present cat tc pour :
  levels_present tc → levels_present (count_pour cat tc pour).
Proof.
  intros Hp level Hl. unfold count_pour. case_bool_decide; simpl; [|by apply Hp].
  rewrite lookup_alter. case_decide; [|by apply Hp]. subst.
  apply fmap_is_Some. by apply Hp.
Qed.

Lemma count_pour_site_total cat tc pour :
  cat ∈ ["Civil Finishing"; "Structure Works"; "MEP"] →
  levels_present tc →
  total (row_counts (count_pour cat tc pour)) = total (row_counts tc) + 1.
Proof.
  intros Hcat Hp. unfold count_pour. case_bool_decide as Hl.
  - destruct tc as [pc cc]. unfold row_counts, total, pour_levels in *. simpl.
    rewrite !(level_counts_alter _ _ _ pc cc) by (by apply Hp).
    pose proof (tally_total cat (level_counts (map_pour_to_level pour)
                                   (mkTowerCounts pc cc)) Hcat) as Ht.
    unfold total in Ht.
    apply elem_of_cons in Hl as [Hl|Hl].
    + rewrite Hl in *. rewrite decide_True by done. rewrite decide_False by done.
      simpl. lia.
    + apply list_elem_of_singleton in Hl. rewrite Hl in *.
      rewrite decide_False by done. rewrite decide_True by done. simpl. lia.
  - destruct tc as [pc cc]. unfold row_counts, total. simpl.
    pose proof (tally_total cat cc Hcat) as Ht. unfold total in Ht.
    unfold level_counts. simpl. lia.
Qed.

End OpenCloseFacts.

Section OpenCloseRows.
Import OpenClose.

Lemma fold_count_pour cat tc (pours : list string) :
  cat ∈ ["Civil Finishing"; "Structure Works"; "MEP"] →
  levels_present tc →
  levels_present (foldl (count_pour cat) tc pours)
  ∧ total (row_counts (foldl (count_pour cat) tc pours))
    = total (row_counts tc) + Z.of_nat (length pours).
Proof.
  intros Hcat. revert tc. induction pours as [|p pours IH]; intros tc Hp; cbn [foldl].
  - split; [done|]. simpl. lia.
  - destruct (IH (count_pour cat tc p)) as [Hp' ->]; [by apply count_pour_present|].
    split; [done|]. rewrite count_pour_site_total by done. simpl. lia.
Qed.

Lemma fold_count_entries (entries : list (nat * string)) pours tc :
  levels_present tc →
  let tc' := foldl (λ tc '(i, discipline),
                      foldl (count_pour (category discipline)) tc (pour_list pours i))
                   tc entries in
  levels_present tc'
  ∧ total (row_counts tc')
    = total (row_counts tc)
      + foldr (λ '(i, _) acc, Z.of_nat (length (pour_list pours i)) + acc) 0 entries.
Proof.
  revert tc. induction entries as [|[i d] entries IH]; intros tc Hp; cbn [foldl foldr].
  - split; [done|]. lia.
  - destruct (fold_count_pour (category d) tc (pour_list pours i)) as [Hp' Ht];
      [apply category_key|done|].
    destruct (IH _ Hp') as [Hp'' ->]. split; [done|]. rewrite Ht. lia.
Qed.

Lemma row_counts_rows (tc : TowerCounts) :
  total (row_counts tc)
  = total (level_counts "Pour 1" tc) + total (level_counts "Pour 2" tc)
    + total (common_counts tc).
Proof. unfold row_counts, total, pour_levels. simpl. lia. Qed.

Lemma no_tower_counts_present : levels_present no_tower_counts.
Proof.
  intros level Hl. unfold pour_levels in Hl.
  apply elem_of_cons in Hl as [->|Hl]; [by eexists|].
  apply list_elem_of_singleton in Hl as ->. by eexists.
Qed.

End OpenCloseRows.



Section OpenCloseLocal.
Import OpenClose.

Lemma fold_count_pour_common cat tc (pours : list string) :
  cat ∈ ["Civil Finishing"; "Structure Works"; "MEP"] →
  Forall (λ p, map_pour_to_level p ∉ pour_levels) pours →
  pour_counts (foldl (count_pour cat) tc pours) = pour_counts tc
  ∧ total (common_counts (foldl (count_pour cat) tc pours))
    = total (common_counts tc) + Z.of_nat (length pours).
Proof.
  intros Hcat Hl. revert tc. induction Hl as [|p pours Hp _ IH]; intros tc; cbn [foldl].
  - split; [done|]. simpl. lia.
  - destruct (IH (count_pour cat tc p)) as [-> ->].
    unfold count_pour. rewrite bool_decide_eq_false_2 by done. simpl.
    split; [done|]. rewrite tally_total by done. lia.
Qed.

Lemma fold_count_entries_common (entries : list (nat * string)) pours tc :
  (∀ i, Forall (λ p, map_pour_to_level p ∉ pour_levels) (pour_list pours i)) →
  let tc' := foldl (λ tc '(i, discipline),
                      foldl (count_pour (category discipline)) tc (pour_list pours i))
                   tc entries in
  pour_counts tc' = pour_counts tc
  ∧ total (common_counts tc')
    = total (common_counts tc)
      + foldr (λ '(i, _) acc, Z.of_nat (length (pour_list pours i)) + acc) 0 entries.
Proof.
  intros Hl. revert tc. induction entries as [|[i d] entries IH]; intros tc; cbn [foldl foldr].
  - split; [done|]. lia.
  - destruct (fold_count_pour_common (category d) tc (pour_list pours i)) as [Hp Ht];
      [apply category_key|done|].
    destruct (IH (foldl (count_pour (category d)) tc (pour_list pours i))) as [-> ->].
    split; [done|]. rewrite Ht. lia.
Qed.

Lemma pours_counted_aligned {A} (f : A → string) (g : A → list string)
    (l : list A) (pre : list (list string)) :
  foldr (λ '(i, _) acc, Z.of_nat (length (pour_list (pre ++ (g <$> l)) i)) + acc) 0
        (enumerate (length pre) (f <$> l))
  = Z.of_nat (length (concat (g <$> l))).
Proof.
  revert pre. induction l as [|x l IH]; intros pre; [done|].
  rewrite !fmap_cons. cbn [enumerate foldr concat].
  unfold pour_list at 1. rewrite lookup_app_r by lia.
  rewrite Nat.sub_diag. cbn [lookup list_lookup default].
  specialize (IH (pre ++ [g x])).
  rewrite <-app_assoc, length_app in IH. cbn [app length] in IH.
  rewrite Nat.add_1_r in IH. rewrite IH, length_app. unfold id. lia.
Qed.

End OpenCloseLocal.

Lemma clean_record_pours date_str df report_type record cleaned :
  clean_record date_str df report_type record = Some cleaned →
  ∃ description, c_Pours cleaned = extract_pours description.
Proof.
  unfold clean_record. destruct record as [row dft].
  case_bool_decide; [done|]. case_match; try done.
  intros [= <-]. eexists. simpl. reflexivity.
Qed.



(** ** More on the matcher *)

Lemma lit_match_elem p s m rest :
  lit_match p s = Some (m, rest) →
  s = m ++ rest ∧ lower_char <$> m = lower_char <$> p.
Proof.
  revert s m rest. induction p as [|a p IH]; intros s m rest; cbn [lit_match].
  - by intros [= <- <-].
  - destruct s as [|b s]; [done|]. case_decide as Hab; [|done].
    destruct (lit_match p s) as [[m' rest']|] eqn:E; [|done].
    cbn [mbind option_bind]. intros [= <- <-]. destruct (IH _ _ _ E) as [-> Hm].
    split; [done|]. rewrite !fmap_cons. by rewrite Hm, Hab.
Qed.

(** A match is a prefix of the text. *)
Lemma ms_prefix r s c m rest c' : (m, rest, c') ∈ ms r s c → s = m ++ rest.
Proof.
  revert s c m rest c'.
  induction r as [l|p|r1 IH1 r2 IH2|r1 IH1 r2 IH2|p|p|r IH|k r IH|r IH];
    intros s c m rest c' Hin; cbn [ms] in Hin.
  - destruct (lit_match _ _) as [[m0 rest0]|] eqn:E; [|by apply elem_of_nil in Hin].
    apply list_elem_of_singleton in Hin. injection Hin as -> -> ->.
    by apply lit_match_elem in E as [-> _].
  - destruct s as [|x s]; [by apply elem_of_nil in Hin|].
    case_match; [|by apply elem_of_nil in Hin].
    apply list_elem_of_singleton in Hin. by injection Hin as -> -> ->.
  - destruct (proj1 (list_elem_of_bind _ _ _) Hin) as ([[m1 s1] c1] & Hin2 & H1).
    destruct (proj1 (list_elem_of_fmap _ _ _) Hin2) as ([[m2 s2] c2] & [= -> -> ->] & H2).
    rewrite (IH1 _ _ _ _ _ H1), (IH2 _ _ _ _ _ H2). by rewrite app_assoc.
  - destruct (proj1 (elem_of_app _ _ _) Hin) as [Hin1|Hin2];
      [by eapply IH1|by eapply IH2].
  - destruct (proj1 (list_elem_of_fmap _ _ _) Hin) as ([m1 s1] & [= -> -> ->] & H1).
    by apply star_elem in H1 as [<- _].
  - destruct (proj1 (list_elem_of_fmap _ _ _) Hin) as ([m1 s1] & [= -> -> ->] & H1).
    by apply plus_elem in H1 as (_ & <- & _).
  - destruct (proj1 (elem_of_app _ _ _) Hin) as [Hin1|Hin2]; [by eapply IH|].
    apply list_elem_of_singleton in Hin2. by injection Hin2 as -> -> ->.
  - destruct (proj1 (list_elem_of_fmap _ _ _) Hin) as ([[m1 s1] c1] & [= -> -> ->] & H1).
    by eapply IH.
  - destruct (ms r s c); [|by apply elem_of_nil in Hin].
    apply list_elem_of_singleton in Hin. by injection Hin as -> -> ->.
Qed.

(** A match holds the characters its pattern cannot do without. *)
Lemma ms_must_have r s c m rest c' x :
  (m, rest, c') ∈ ms r s c → must_have r x = true → ∃ y, y ∈ m ∧ lower_char y = x.
Proof.
  revert s c m rest c'.
  induction r as [l|p|r1 IH1 r2 IH2|r1 IH1 r2 IH2|p|p|r IH|k r IH|r IH];
    intros s c m rest c' Hin Hx; cbn [ms must_have] in *; try done.
  - destruct (lit_match _ _) as [[m0 rest0]|] eqn:E; [|by apply elem_of_nil in Hin].
    apply list_elem_of_singleton in Hin. injection Hin as -> -> ->.
    apply lit_match_elem in E as [_ Hm].
    apply bool_decide_eq_true in Hx. rewrite <-Hm in Hx.
    apply list_elem_of_fmap in Hx as (y & -> & Hy). by exists y.
  - destruct (proj1 (list_elem_of_bind _ _ _) Hin) as ([[m1 s1] c1] & Hin2 & H1).
    destruct (proj1 (list_elem_of_fmap _ _ _) Hin2) as ([[m2 s2] c2] & [= -> -> ->] & H2).
    apply orb_prop in Hx as [Hx|Hx].
    + destruct (IH1 _ _ _ _ _ H1 Hx) as (y & Hy & <-). exists y.
      split; [|done]. apply elem_of_app. by left.
    + destruct (IH2 _ _ _ _ _ H2 Hx) as (y & Hy & <-). exists y.
      split; [|done]. apply elem_of_app. by right.
  - apply andb_prop in Hx as [Hx1 Hx2].
    destruct (proj1 (elem_of_app _ _ _) Hin) as [Hin1|Hin2];
      [by eapply IH1|by eapply IH2].
  - destruct (proj1 (list_elem_of_fmap _ _ _) Hin) as ([[m1 s1] c1] & [= -> -> ->] & H1).
    by eapply IH.
Qed.

(** No match in a text that lacks such a character *)
Lemma search_must_have r x s :
  must_have r x = true → Forall (λ y, lower_char y ≠ x) s → search r s = None.
Proof.
  intros Hx. 
  assert (∀ s, Forall (λ y, lower_char y ≠ x) s → match_here r s = None) as Hhere.
  { intros s' Hs. destruct (match_here r s') as [[[m rest] c]|] eqn:E; [|done].
    apply match_here_elem in E. pose proof (ms_prefix _ _ _ _ _ _ E) as ->.
    destruct (ms_must_have _ _ _ _ _ _ x E Hx) as (y & Hy & Hl).
    apply Forall_app in Hs as [Hs _]. rewrite Forall_forall in Hs.
    by destruct (Hs y Hy). }
  intros Hs. induction Hs as [|y s Hy Hs IH].
  - simpl. by rewrite (Hhere []) by constructor.
  - cbn [search]. rewrite (Hhere (y :: s)) by by constructor. exact IH.
Qed.

Lemma ms_digit_only r s c m rest c' :
  (m, rest, c') ∈ ms r s c → digit_only r = true → Forall (λ x, is_digit x = true) m.
Proof.
  revert s c m rest c'.
  induction r as [l|p|r1 IH1 r2 IH2|r1 IH1 r2 IH2|p|p|r IH|k r IH|r IH];
    intros s c m rest c' Hin Hd; cbn [ms digit_only] in *; try done.
  - destruct (lit_match _ _) as [[m0 rest0]|] eqn:E; [|by apply elem_of_nil in Hin].
    apply list_elem_of_singleton in Hin. injection Hin as -> -> ->.
    apply lit_match_elem in E as [_ Hm].
    apply Forall_forall. intros y Hy.
    assert (lower_char y ∈ lower_char <$> chars l) as Hl.
    { rewrite <-Hm. apply list_elem_of_fmap. by exists y. }
    apply list_elem_of_fmap in Hl as (d & Hd' & Hin).
    rewrite forallb_forall in Hd. apply list_elem_of_In, Hd in Hin.
    rewrite <-is_digit_lower, Hd', is_digit_lower. exact Hin.
  - destruct p; try done. destruct s as [|x s]; [by apply elem_of_nil in Hin|].
    destruct (in_cls Digit (lower_char x)) eqn:E; [|by apply elem_of_nil in Hin].
    apply list_elem_of_singleton in Hin. injection Hin as -> -> ->.
    repeat constructor. simpl in E. by rewrite is_digit_lower in E.
  - destruct (proj1 (list_elem_of_bind _ _ _) Hin) as ([[m1 s1] c1] & Hin2 & H1).
    destruct (proj1 (list_elem_of_fmap _ _ _) Hin2) as ([[m2 s2] c2] & [= -> -> ->] & H2).
    apply andb_prop in Hd as [Hd1 Hd2]. apply Forall_app. split; [by eapply IH1|by eapply IH2].
  - apply andb_prop in Hd as [Hd1 Hd2].
    destruct (proj1 (elem_of_app _ _ _) Hin) as [Hin1|Hin2];
      [by eapply IH1|by eapply IH2].
  - destruct p; try done.
    destruct (proj1 (list_elem_of_fmap _ _ _) Hin) as ([m1 s1] & [= -> -> ->] & H1).
    apply star_elem in H1 as [_ Hall].
    eapply Forall_impl; [exact Hall|]. intros x Hx. simpl in Hx.
    by rewrite is_digit_lower in Hx.
  - destruct p; try done.
    destruct (proj1 (list_elem_of_fmap _ _ _) Hin) as ([m1 s1] & [= -> -> ->] & H1).
    apply plus_elem in H1 as (_ & _ & Hall).
    eapply Forall_impl; [exact Hall|]. intros x Hx. simpl in Hx.
    by rewrite is_digit_lower in Hx.
  - destruct (proj1 (elem_of_app _ _ _) Hin) as [Hin1|Hin2]; [by eapply IH|].
    apply list_elem_of_singleton in Hin2. by injection Hin2 as -> -> ->.
  - destruct (proj1 (list_elem_of_fmap _ _ _) Hin) as ([[m1 s1] c1] & [= -> -> ->] & H1).
    by eapply IH.
Qed.

(** A group that only encloses patterns of digits only ever holds digits. *)
Lemma ms_digit_grouped n r s c m rest c' :
  (m, rest, c') ∈ ms r s c → digit_grouped n r = true →
  Forall (λ x, is_digit x = true) (group c n) →
  Forall (λ x, is_digit x = true) (group c' n).
Proof.
  revert s c m rest c'.
  induction r as [l|p|r1 IH1 r2 IH2|r1 IH1 r2 IH2|p|p|r IH|k r IH|r IH];
    intros s c m rest c' Hin Hg Hc; cbn [ms digit_grouped] in *.
  - destruct (lit_match _ _) as [[m0 rest0]|] eqn:E; [|by apply elem_of_nil in Hin].
    apply list_elem_of_singleton in Hin. by injection Hin as -> -> ->.
  - destruct s as [|x s]; [by apply elem_of_nil in Hin|].
    case_match; [|by apply elem_of_nil in Hin].
    apply list_elem_of_singleton in Hin. by injection Hin as -> -> ->.
  - destruct (proj1 (list_elem_of_bind _ _ _) Hin) as ([[m1 s1] c1] & Hin2 & H1).
    destruct (proj1 (list_elem_of_fmap _ _ _) Hin2) as ([[m2 s2] c2] & [= -> -> ->] & H2).
    apply andb_prop in Hg as [Hg1 Hg2]. eapply IH2; [exact H2|done|]. by eapply IH1.
  - apply andb_prop in Hg as [Hg1 Hg2].
    destruct (proj1 (elem_of_app _ _ _) Hin) as [Hin1|Hin2];
      [by eapply IH1|by eapply IH2].
  - by destruct (proj1 (list_elem_of_fmap _ _ _) Hin) as ([m1 s1] & [= -> -> ->] & H1).
  - by destruct (proj1 (list_elem_of_fmap _ _ _) Hin) as ([m1 s1] & [= -> -> ->] & H1).
  - destruct (proj1 (elem_of_app _ _ _) Hin) as [Hin1|Hin2]; [by eapply IH|].
    apply list_elem_of_singleton in Hin2. by injection Hin2 as -> -> ->.
  - destruct (proj1 (list_elem_of_fmap _ _ _) Hin) as ([[m1 s1] c1] & [= -> -> ->] & H1).
    apply andb_prop in Hg as [Hk Hg]. cbn [group].
    case_decide as Hkn.
    + by eapply ms_digit_only.
    + by eapply IH.
  - destruct (ms r s c); [|by apply elem_of_nil in Hin].
    apply list_elem_of_singleton in Hin. by injection Hin as -> -> ->.
Qed.

Lemma search_digit_grouped n r s m rest c :
  search r s = Some (m, rest, c) → digit_grouped n r = true →
  Forall (λ x, is_digit x = true) (group c n).
Proof.
  intros [s' Hin]%search_elem Hg. eapply ms_digit_grouped; [exact Hin|done|].
  by constructor.
Qed.

Lemma zfill_padded_digits l :
  Forall (λ x, is_digit x = true) l → padded_digits (zfill 2 l).
Proof.
  intros Hall. unfold zfill, padded_digits. split.
  - rewrite length_app, length_replicate. lia.
  - apply Forall_app. split; [|done]. by apply Forall_replicate.
Qed.

Lemma zfill_id l : (2 ≤ length l)%nat → zfill 2 l = l.
Proof. intros Hl. unfold zfill. by replace (2 - length l)%nat with 0%nat by lia. Qed.

(** *** The first match, continued *)

Lemma head_ms_opt r s c res :
  head (ms r s c) = Some res → head (ms (Opt r) s c) = Some res.
Proof. intros H. cbn [ms]. by rewrite head_app, H. Qed.

Lemma head_ms_opt_skip r s c :
  ms r s c = [] → head (ms (Opt r) s c) = Some ([], s, c).
Proof. intros H. cbn [ms]. by rewrite H. Qed.

Lemma head_ms_alt_r r1 r2 s c res :
  ms r1 s c = [] → head (ms r2 s c) = Some res → head (ms (Alt r1 r2) s c) = Some res.
Proof. intros H1 H2. cbn [ms]. by rewrite H1. Qed.

Lemma search_here r s res : match_here r s = Some res → search r s = Some res.
Proof. intros H. destruct s; simpl; by rewrite H. Qed.

Lemma contains_chars_head a p hay : contains_chars (a :: p) hay = true → a ∈ hay.
Proof.
  induction hay as [|x hay IH]; simpl; [done|].
  intros [H|H]%orb_prop.
  - case_decide; [subst; by left|done].
  - right. by apply IH.
Qed.

(** ** The site a key is shown under *)

Lemma str_cat (s : string) (l : list ascii) : s +:+ str l = str (chars s ++ l).
Proof. by rewrite str_app, str_chars. Qed.

Lemma is_prefix_app p rest : is_prefix p (p ++ rest) = true.
Proof. induction p as [|a p IH]; simpl; [done|]. by rewrite decide_True. Qed.

Lemma split_from_skip sep pre s cur :
  split_from sep (pre ++ s) (length pre) cur = split_from sep s 0 cur.
Proof. induction pre as [|x pre IH]; [done|]. exact IH. Qed.

Lemma split_from_plain a sep s cur :
  Forall (λ x, x ≠ a) s → split_from (a :: sep) s 0 cur = [reverse cur ++ s].
Proof.
  intros Hs. revert cur. induction Hs as [|x s Hx _ IH]; intros cur.
  - simpl. by rewrite app_nil_r.
  - cbn [split_from is_prefix]. rewrite decide_False by done.
    rewrite IH, reverse_cons. by rewrite <-app_assoc.
Qed.

(** [(sep + tail).split(sep)] when the first character of [sep] does not
    occur in [tail] *)
Lemma split_after_prefix a sep tail :
  Forall (λ x, x ≠ a) tail →
  split_from (a :: sep) ((a :: sep) ++ tail) 0 [] = [[]; tail].
Proof.
  intros Ht. cbn [app split_from is_prefix].
  rewrite decide_True by done. rewrite is_prefix_app.
  replace (length (a :: sep) - 1)%nat with (length sep) by (simpl; lia).
  rewrite split_from_skip. by rewrite split_from_plain.
Qed.

Lemma digit_is_not (a : ascii) x : is_digit a = false → is_digit x = true → x ≠ a.
Proof. by intros Ha Hx ->; rewrite Ha in Hx. Qed.

Lemma digits_are_not (a : ascii) l :
  is_digit a = false → Forall (λ x, is_digit x = true) l → Forall (λ x, x ≠ a) l.
Proof.
  intros Ha Hl. eapply Forall_impl; [exact Hl|]. intros x. by apply digit_is_not.
Qed.

Lemma digits_lower_not (a : ascii) l :
  is_digit a = false → Forall (λ x, is_digit x = true) l →
  Forall (λ x, lower_char x ≠ a) l.
Proof.
  intros Ha Hl. eapply Forall_impl; [exact Hl|]. intros x Hx.
  rewrite lower_digit by done. by apply digit_is_not.
Qed.

Lemma isdigit_digits l : digits l → isdigit l = true.
Proof.
  intros [Hne Hd]. unfold isdigit. rewrite bool_decide_eq_true_2 by done.
  simpl. apply forallb_forall. intros x Hx%list_elem_of_In.
  rewrite Forall_forall in Hd. unfold is_digit_char. by rewrite (Hd x Hx).
Qed.

Lemma padded_digits_digits l : padded_digits l → digits l.
Proof. intros [Hl Hd]. split; [|done]. intros ->. simpl in Hl. lia. Qed.

(** The pattern of the tower names on "Eden-Tower", a dash, a blank or
    nothing, and a number *)
Lemma site_tower_on_name (sep ds : list ascii) :
  sep ∈ [[]; ["-"%char]; [" "%char]] → digits ds →
  search site_tower_pattern (chars "Eden-Tower" ++ sep ++ ds)
  = Some (chars "Eden-Tower" ++ sep ++ ds, [], [(1%nat, ds)]).
Proof.
  intros Hsep [Hne Hd]. apply search_here. unfold match_here.
  destruct ds as [|d ds]; [done|]. pose proof (Forall_inv Hd) as Hd0.
  assert (head (ms site_tower_pattern
                   (chars "Eden-" ++ chars "Tower" ++ sep ++ (d :: ds) ++ []) [])
          = Some (chars "Eden-" ++ chars "Tower" ++ sep ++ (d :: ds), [],
                  [(1%nat, d :: ds)])) as H.
  { unfold site_tower_pattern.
    eapply head_ms_cat.
    { apply head_ms_opt. by apply head_ms_lit. }
    eapply head_ms_cat.
    { apply head_ms_alt_l. by apply head_ms_lit. }
    eapply (head_ms_cat _ _ _ _ sep ((d :: ds) ++ []) []).
    { repeat (apply elem_of_cons in Hsep as [->|Hsep]);
        [| |  | by apply elem_of_nil in Hsep].
      - apply head_ms_opt_skip. cbn [ms app lit_match chars list_ascii_of_string].
        rewrite (lower_digit d) by done.
        rewrite !decide_False; [done|..]; intros Heq; by rewrite <-Heq in Hd0.
      - apply head_ms_opt. apply head_ms_alt_l. by apply head_ms_lit.
      - apply head_ms_opt. apply head_ms_alt_r; [|by apply head_ms_lit].
        by cbn [ms app lit_match chars list_ascii_of_string]. }
    apply head_ms_grp. apply (head_ms_plus Digit (d :: ds) []); [done| |done].
    by apply digits_in_cls. }
  rewrite app_nil_r in H. exact H.
Qed.

Lemma name_has_no_C (sep ds : list ascii) :
  sep ∈ [[]; ["-"%char]; [" "%char]] → Forall (λ x, is_digit x = true) ds →
  "C"%char ∉ chars "Eden-Tower" ++ sep ++ ds.
Proof.
  intros Hsep Hd Hin.
  apply elem_of_app in Hin as [Hin|Hin].
  { revert Hin. by apply (bool_decide_unpack _). }
  apply elem_of_app in Hin as [Hin|Hin].
  - repeat (apply elem_of_cons in Hsep as [->|Hsep]); try (by apply elem_of_nil in Hsep);
      revert Hin; by apply (bool_decide_unpack _).
  - rewrite Forall_forall in Hd. by apply Hd in Hin.
Qed.

Lemma hse_normalize_name (sep ds : list ascii) :
  sep ∈ [[]; ["-"%char]; [" "%char]] → padded_digits ds →
  HseExcel.normalize_site_name (str (chars "Eden-Tower" ++ sep ++ ds))
  = "Eden-Tower " +:+ str ds.
Proof.
  intros Hsep Hp. pose proof (padded_digits_digits _ Hp) as Hd.
  unfold HseExcel.normalize_site_name.
  rewrite bool_decide_eq_false_2.
  2:{ intros Heq. apply (f_equal chars) in Heq. rewrite chars_str in Heq. done. }
  unfold contains. rewrite chars_str.
  destruct (contains_chars (chars "CommonArea") _) eqn:E1.
  { apply contains_chars_head in E1. by apply name_has_no_C in E1; [|done|apply Hd]. }
  destruct (contains_chars (chars "Common Area") _) eqn:E2.
  { apply contains_chars_head in E2. by apply name_has_no_C in E2; [|done|apply Hd]. }
  cbn [orb]. rewrite site_tower_on_name by done.
  rewrite group_cons_eq. rewrite zfill_id; [done|apply Hp].
Qed.

(** X15: the tower the Housekeeping generator gives a record is
    "Common_Area" or "Eden-Tower" followed by at least two digits, and the
    workbook shows such a site under "Eden-Tower ", a blank and the same
    digits: a record of "tower 4" is counted under the standard site
    "Eden-Tower 04". *)
Theorem housekeeping_tower_in_workbook (description : string) :
  let tower := housekeeping_tower description in
  (tower = "Common_Area" ∧ HseExcel.normalize_site_name tower = "Common_Area")
  ∨ ∃ ds, padded_digits ds
          ∧ tower = "Eden-Tower" +:+ str ds
          ∧ HseExcel.normalize_site_name tower = "Eden-Tower " +:+ str ds.
Proof.
  unfold housekeeping_tower.
  destruct (search housekeeping_tower_pattern (chars (lower description)))
    as [[[m rest] c]|] eqn:E; [|by left].
  right. exists (zfill 2 (group c 2)).
  assert (padded_digits (zfill 2 (group c 2))) as Hp.
  { apply zfill_padded_digits. by eapply (search_digit_grouped 2). }
  split; [done|]. split; [done|].
  rewrite str_cat. by apply (hse_normalize_name []); [left|].
Qed.

Lemma tower_name_no_C (l : list ascii) :
  Forall (λ x, is_digit x = true) l → "C"%char ∉ chars "Eden-Tower-" ++ l.
Proof.
  intros Hd Hin. apply elem_of_app in Hin as [Hin|Hin].
  - revert Hin. by apply (bool_decide_unpack _).
  - rewrite Forall_forall in Hd. by apply Hd in Hin.
Qed.

(** A single tower of the classifier in the NCR workbook *)
Lemma open_close_normalize_tower (n : list ascii) :
  digits n →
  OpenClose.normalize_site_name (str (chars "Eden-Tower-" ++ n))
  = Single ("Tower " +:+ dec (int n)).
Proof.
  intros [Hne Hd]. unfold OpenClose.normalize_site_name. rewrite chars_str.
  rewrite (search_must_have tower_common_pattern "c"%char); [|done|].
  2:{ apply Forall_app. split; [by repeat constructor|]. by apply digits_lower_not. }
  unfold contains. rewrite chars_str.
  destruct (contains_chars (chars "CommonArea") _) eqn:E1.
  { apply contains_chars_head in E1. by apply tower_name_no_C in E1. }
  destruct (contains_chars (chars "Common Area") _) eqn:E2.
  { apply contains_chars_head in E2. by apply tower_name_no_C in E2. }
  cbn [orb]. unfold startswith, split. rewrite chars_str.
  rewrite is_prefix_app.
  change (chars "Eden-Tower-") with ("E"%char :: chars "den-Tower-").
  rewrite split_after_prefix by by apply digits_are_not.
  cbn [lookup list_lookup mbind option_bind].
  by rewrite isdigit_digits.
Qed.

(** The common area of two towers of the classifier in the NCR workbook *)
Lemma open_close_normalize_pair (n m : list ascii) :
  digits n → digits m →
  OpenClose.normalize_site_name
    (str (chars "Eden-Tower-" ++ n ++ chars "-" ++ m ++ chars "-CommonArea"))
  = Combined ("Tower " +:+ dec (int n)) ("Tower " +:+ dec (int m)).
Proof.
  intros [Hn Hdn] [Hm Hdm]. unfold OpenClose.normalize_site_name. rewrite chars_str.
  assert (search tower_common_pattern
            (chars "Eden-Tower-" ++ n ++ chars "-" ++ m ++ chars "-CommonArea")
          = Some (chars "Eden-Tower-" ++ n ++ chars "-" ++ m ++ chars "-CommonArea", [],
                  [(2%nat, m); (1%nat, n)])) as ->.
  { apply search_here. unfold match_here.
    assert (head (ms tower_common_pattern
                     (chars "Eden-" ++ chars "Tower-" ++ n ++ chars "-" ++ m
                      ++ chars "-CommonArea" ++ []) [])
            = Some (chars "Eden-" ++ chars "Tower-" ++ n ++ chars "-" ++ m
                    ++ chars "-CommonArea", [], [(2%nat, m); (1%nat, n)])) as H.
    { unfold tower_common_pattern.
      eapply head_ms_cat.
      { apply head_ms_opt. by apply head_ms_lit. }
      eapply head_ms_cat.
      { by apply head_ms_lit. }
      eapply head_ms_cat.
      { apply head_ms_grp. apply (head_ms_plus Digit n); [done| |done].
        by apply digits_in_cls. }
      eapply (head_ms_cat _ _ _ _ (chars "-" ++ m) (chars "-CommonArea" ++ [])
                          [(2%nat, m); (1%nat, n)]).
      { apply head_ms_opt.
        eapply head_ms_cat; [by apply head_ms_lit|].
        apply head_ms_grp. apply (head_ms_plus Digit m); [done| |done].
        by apply digits_in_cls. }
      by apply head_ms_lit. }
    rewrite app_nil_r in H. exact H. }
  rewrite group_cons_eq. rewrite bool_decide_eq_true_2 by done.
  rewrite group_cons_ne by done. by rewrite group_cons_eq.
Qed.

(** X16: in the NCR workbook every tower name of the classifier is shown
    under "Eden-Club", "Common_Area", "Tower <n>" or, for the common area
    of two towers, under both "Tower <n>" and "Tower <m>", where the
    numbers are those of the name without their leading zeros. *)
Theorem classifier_tower_in_workbook (description : string) :
  let tower := tower_of description in
  (tower = "Eden-Club" ∧ OpenClose.normalize_site_name tower = Single "Eden-Club")
  ∨ (tower = "Common_Area" ∧ OpenClose.normalize_site_name tower = Single "Common_Area")
  ∨ (∃ n, padded_digits n
          ∧ tower = "Eden-Tower-" +:+ str n
          ∧ OpenClose.normalize_site_name tower = Single ("Tower " +:+ dec (int n)))
  ∨ (∃ n m, padded_digits n ∧ padded_digits m
            ∧ tower = "Eden-Tower-" +:+ str n +:+ "-" +:+ str m +:+ "-CommonArea"
            ∧ OpenClose.normalize_site_name tower
              = Combined ("Tower " +:+ dec (int n)) ("Tower " +:+ dec (int m))).
Proof.
  intros tower.
  destruct (tower_of_form description) as [H|[H|[(n & Hn & H)|(n & m & Hn & Hm & H)]]];
    fold tower in H; rewrite H.
  - left. split; [done|]. vm_compute. reflexivity.
  - right; left. split; [done|]. vm_compute. reflexivity.
  - right; right; left. exists n. split; [done|]. split; [done|].
    rewrite str_cat. by apply open_close_normalize_tower, padded_digits_digits.
  - right; right; right. exists n, m. split; [done|]. split; [done|]. split; [done|].
    replace ("Eden-Tower-" +:+ str n +:+ "-" +:+ str m +:+ "-CommonArea")
      with (str (chars "Eden-Tower-" ++ n ++ chars "-" ++ m ++ chars "-CommonArea")).
    + by apply open_close_normalize_pair; apply padded_digits_digits.
    + rewrite !str_app, !str_chars. reflexivity.
Qed.

(** ** The summary of the Housekeeping and Safety workbooks *)

(** X17: the cell of a site in the summary shows the count of the first
    key of the result that is shown under the site; the counts of later
    keys shown under the same site are not added. *)
Theorem summary_takes_first_key
    (before after : list (string * Hse.Bucket)) (key : string) (site_data : Hse.Bucket)
    (site : string) :
  Forall (λ kv : string * Hse.Bucket, HseExcel.normalize_site_name kv.1 ≠ site) before →
  HseExcel.normalize_site_name key = site →
  key ≠ "" →
  HseExcel.summary_value (before ++ (key, site_data) :: after) site = Hse.Count site_data.
Proof.
  intros Hbefore Hkey Hne. unfold HseExcel.summary_value.
  rewrite filter_app.
  replace (filter (λ kv : string * Hse.Bucket, HseExcel.normalize_site_name kv.1 = site)
                  before) with (@nil (string * Hse.Bucket)).
  - rewrite filter_cons_True by done. simpl.
    by rewrite bool_decide_eq_true_2.
  - symmetry. induction Hbefore as [|kv l Hkv _ IH]; [done|].
    by rewrite filter_cons_False.
Qed.

Lemma summary_takes_first_key_witness :
  let data := [("Eden-Tower04", Hse.mkBucket 3 [] [] [] []);
               ("Tower 4", Hse.mkBucket 5 [] [] [] [])] in
  HseExcel.normalize_site_name "Tower 4" = "Eden-Tower 04"
  ∧ HseExcel.summary_value data "Eden-Tower 04" = 3.
Proof.
  intros data. split; [vm_compute; reflexivity|].
  apply (summary_takes_first_key [] [("Tower 4", Hse.mkBucket 5 [] [] [] [])]
           "Eden-Tower04" (Hse.mkBucket 3 [] [] [] []) "Eden-Tower 04").
  - constructor.
  - vm_compute. reflexivity.
  - done.
Defined.

(** ** The object in the generated text *)

Lemma depth_snoc cur c : depth (cur ++ [c]) = depth_step (depth cur) c.
Proof. unfold depth. by rewrite foldl_app. Qed.

Lemma take_snoc_le {A} (cur : list A) c k :
  (k ≤ length cur)%nat → take k (cur ++ [c]) = take k cur.
Proof. intros Hk. by rewrite take_app_le. Qed.

Lemma snoc_app {A} (cur : list A) c l : cur ++ c :: l = (cur ++ [c]) ++ l.
Proof. by rewrite <-app_assoc. Qed.

Lemma prefixes_snoc cur c :
  (∀ k, (0 < k ≤ length cur)%nat → 0 < depth (take k cur)) →
  0 < depth (cur ++ [c]) →
  ∀ k, (0 < k ≤ length (cur ++ [c]))%nat → 0 < depth (take k (cur ++ [c])).
Proof.
  intros Hcur Hc k Hk. rewrite length_app in Hk. simpl in Hk.
  destruct (decide (k ≤ length cur)%nat) as [Hle|Hgt].
  - rewrite take_snoc_le by done. apply Hcur. lia.
  - rewrite take_ge; [done|]. rewrite length_app. simpl. lia.
Qed.

(** The scan inside an object: [cur] is what was read of it *)
Lemma scan_inside rest cur idx s s' e :
  0 < depth cur →
  (∀ k, (0 < k ≤ length cur)%nat → 0 < depth (take k cur)) →
  brace_scan rest idx (depth cur) (Some s) = Some (s', e) →
  s' = s
  ∧ ∃ j' post, rest = j' ++ post ∧ (e + 1 = idx + length j')%nat
      ∧ last j' = Some "}"%char
      ∧ depth (cur ++ j') = 0
      ∧ ∀ k, (0 < k < length (cur ++ j'))%nat → 0 < depth (take k (cur ++ j')).
Proof.
  revert cur idx. induction rest as [|c rest IH]; intros cur idx Hpos Hpre; [done|].
  cbn [brace_scan]. pose proof (depth_snoc cur c) as Hd. unfold depth_step in Hd.
  assert (
    0 < depth (cur ++ [c]) →
    brace_scan rest (S idx) (depth (cur ++ [c])) (Some s) = Some (s', e) →
    s' = s
    ∧ ∃ j' post, c :: rest = j' ++ post ∧ (e + 1 = idx + length j')%nat
        ∧ last j' = Some "}"%char
        ∧ depth (cur ++ j') = 0
        ∧ ∀ k, (0 < k < length (cur ++ j'))%nat → 0 < depth (take k (cur ++ j')))
    as Hnext.
  { intros Hpos' Hscan.
    apply IH in Hscan as (-> & j' & post & -> & He & Hlast & Hdepth & Hk);
      [|done|by apply prefixes_snoc].
    split; [done|]. exists (c :: j'), post. rewrite snoc_app.
    split_and!; [done|simpl; lia| |done|done].
    destruct j'; [|done]. rewrite app_nil_r in Hdepth. lia. }
  destruct (decide (c = "{"%char)) as [->|Hopen].
  - rewrite decide_False by lia. rewrite <-Hd. apply Hnext. lia.
  - destruct (decide (c = "}"%char)) as [->|Hclose].
    + cbn zeta. case_decide as Hz.
      * intros [= <- <-]. split; [done|]. exists ["}"%char], rest.
        split_and!; [done|simpl; lia|done|lia|].
        intros k Hk. rewrite length_app in Hk. simpl in Hk.
        rewrite take_snoc_le by lia. apply Hpre. lia.
      * rewrite <-Hd. apply Hnext. lia.
    + rewrite <-Hd. apply Hnext. lia.
Qed.

(** The scan before an object *)
Lemma scan_outside rest idx count s e :
  brace_scan rest idx count None = Some (s, e) →
  ∃ pre j post, rest = pre ++ j ++ post ∧ s = (idx + length pre)%nat
    ∧ (e + 1 = s + length j)%nat
    ∧ head j = Some "{"%char ∧ last j = Some "}"%char ∧ balanced j.
Proof.
  revert idx count. induction rest as [|c rest IH]; intros idx count; [done|].
  cbn [brace_scan].
  assert (∀ count',
    brace_scan rest (S idx) count' None = Some (s, e) →
    ∃ pre j post, c :: rest = pre ++ j ++ post ∧ s = (idx + length pre)%nat
      ∧ (e + 1 = s + length j)%nat
      ∧ head j = Some "{"%char ∧ last j = Some "}"%char ∧ balanced j) as Hnext.
  { intros count' (pre & j & post & -> & -> & He & Hh & Hl & Hb)%IH.
    exists (c :: pre), j, post. split_and!; [done|simpl; lia|simpl in *; lia|done..]. }
  destruct (decide (c = "{"%char)) as [->|Hopen].
  - case_decide as Hz; [|apply Hnext].
    subst count. change (0 + 1) with (depth ["{"%char]). intros Hscan.
    apply scan_inside in Hscan as (-> & j' & post & -> & He & Hlast & Hdepth & Hk);
      [|done|].
    2:{ intros k Hk. simpl in Hk. by replace k with 1%nat by lia. }
    exists [], ("{"%char :: j'), post.
    split_and!; [done|simpl; lia|simpl; lia|done| |done].
    by destruct j'.
  - destruct (decide (c = "}"%char)) as [->|Hclose]; apply Hnext.
Qed.

(** X18: when the scan of the generated text yields a text, it is a piece
    of the generated text that opens with a brace, closes with a brace and
    whose braces close at its end and not before. *)
Theorem json_str_balanced (generated_text j : string) :
  json_str generated_text = Some j →
  ∃ pre post,
    chars generated_text = pre ++ chars j ++ post
    ∧ head (chars j) = Some "{"%char ∧ last (chars j) = Some "}"%char
    ∧ balanced (chars j).
Proof.
  unfold json_str.
  destruct (brace_scan (chars generated_text) 0 0 None) as [[s e]|] eqn:E; [|done].
  cbn [mbind option_bind]. intros [= <-].
  apply scan_outside in E as (pre & j & post & Ht & -> & He & Hh & Hl & Hb).
  exists pre, post. rewrite Ht, chars_str. simpl.
  rewrite drop_app_length.
  replace (S e - length pre)%nat with (length j) by lia.
  by rewrite take_app_length.
Qed.

Lemma json_str_balanced_witness :
  json_str "Here it is: {a: {b: 1}} and {more}" = Some "{a: {b: 1}}"
  ∧ balanced (chars "{a: {b: 1}}").
Proof.
  split; [vm_compute; reflexivity|].
  destruct (json_str_balanced "Here it is: {a: {b: 1}} and {more}" "{a: {b: 1}}")
    as (pre & post & _ & _ & _ & Hb); [vm_compute; reflexivity|exact Hb].
Defined.

Lemma scan_brace_free pre rest idx count start_idx :
  brace_free pre →
  brace_scan (pre ++ rest) idx count start_idx
  = brace_scan rest (idx + length pre) count start_idx.
Proof.
  intros Hpre. revert idx. induction Hpre as [|c pre [Ho Hc] _ IH]; intros idx.
  - simpl. by rewrite Nat.add_0_r.
  - cbn [app brace_scan]. rewrite !decide_False by done. rewrite IH.
    f_equal. simpl. lia.
Qed.

Lemma scan_no_open text idx count :
  "{"%char ∉ text → brace_scan text idx count None = None.
Proof.
  revert idx count. induction text as [|c text IH]; intros idx count Hno; [done|].
  apply not_elem_of_cons in Hno as [Hc Hno]. cbn [brace_scan].
  rewrite decide_False by done. case_decide; by apply IH.
Qed.

(** The scan inside an object runs to the brace that closes it. *)
Lemma scan_inside_complete j0 cur idx s post :
  0 < depth cur →
  depth (cur ++ j0) = 0 →
  (∀ k, (length cur ≤ k < length (cur ++ j0))%nat → 0 < depth (take k (cur ++ j0))) →
  brace_scan (j0 ++ post) idx (depth cur) (Some s) = Some (s, (idx + length j0 - 1)%nat).
Proof.
  revert cur idx. induction j0 as [|c j0 IH]; intros cur idx Hpos Hzero Hk.
  { rewrite app_nil_r in Hzero. lia. }
  cbn [app brace_scan]. pose proof (depth_snoc cur c) as Hd. unfold depth_step in Hd.
  assert (0 < depth (cur ++ [c]) →
          brace_scan (j0 ++ post) (S idx) (depth (cur ++ [c])) (Some s)
          = Some (s, (idx + length (c :: j0) - 1)%nat)) as Hnext.
  { intros Hpos'. rewrite IH; [f_equal; f_equal; simpl; lia|done|by rewrite <-snoc_app|].
    intros k Hlen. rewrite <-snoc_app. apply Hk.
    rewrite !length_app in Hlen. simpl in Hlen.
    rewrite !length_app. simpl. lia. }
  assert (j0 ≠ [] → 0 < depth (cur ++ [c])) as Hmid.
  { intros Hne. specialize (Hk (S (length cur))).
    rewrite snoc_app, take_app_length' in Hk by (rewrite length_app; simpl; lia).
    apply Hk. rewrite !length_app. simpl. destruct j0; [done|]. simpl. lia. }
  destruct (decide (c = "{"%char)) as [->|Hopen].
  - rewrite decide_False by lia. rewrite <-Hd. apply Hnext. lia.
  - destruct (decide (c = "}"%char)) as [->|Hclose].
    + cbn zeta. case_decide as Hz.
      * destruct j0 as [|c' j0]; [f_equal; f_equal; simpl; lia|].
        assert (0 < depth (cur ++ ["}"%char])) by by apply Hmid. lia.
      * rewrite <-Hd. apply Hnext. lia.
    + rewrite <-Hd. apply Hnext. lia.
Qed.

(** X19: the scan finds the first object of the generated text: when
    nothing but text without braces stands in front of a piece that opens
    with a brace and whose braces close at its end and not before, that
    piece is the result; and a text without an opening brace yields
    nothing. *)
Theorem json_str_found (pre j post : list ascii) :
  brace_free pre → head j = Some "{"%char → balanced j →
  json_str (str (pre ++ j ++ post)) = Some (str j)
  ∧ ∀ generated_text, "{"%char ∉ chars generated_text → json_str generated_text = None.
Proof.
  intros Hpre Hhead [Hzero Hk]. split.
  - unfold json_str. rewrite chars_str.
    destruct j as [|c j0]; [done|]. injection Hhead as ->.
    rewrite scan_brace_free by done.
    cbn [app brace_scan]. rewrite decide_True by done. rewrite decide_True by done.
    change (0 + 1) with (depth ["{"%char]).
    rewrite (scan_inside_complete j0 ["{"%char]); [|done|done|].
    + cbn [mbind option_bind]. f_equal. f_equal.
      change (0 + length pre)%nat with (length pre).
      rewrite drop_app_length.
      replace (S (S (length pre) + length j0 - 1) - length pre)%nat
        with (S (length j0)) by lia.
      cbn [take]. f_equal. apply take_app_length.
    + intros k Hlen. apply Hk. simpl in *. lia.
  - intros generated_text Hno. unfold json_str. by rewrite scan_no_open.
Qed.

Lemma json_str_found_witness :
  json_str "Result: {Sites: {}} done" = Some "{Sites: {}}"
  ∧ json_str "no object here }" = None.
Proof.
  destruct (json_str_found (chars "Result: ") (chars "{Sites: {}}") (chars " done"))
    as [H1 H2].
  - by repeat constructor.
  - reflexivity.
  - split; [reflexivity|]. intros k Hk. simpl in Hk.
    do 11 (destruct k as [|k]; [try lia; vm_compute; reflexivity|]). lia.
  - split; [exact H1|]. apply H2.
    apply (bool_decide_unpack _). vm_compute. exact I.
Defined.

(** ** The cleaning loop of the Housekeeping report *)

Section HousekeepingClean.
Import Housekeeping.
Context (date_str : option Z → string) (report_type : string)
        (days_dtype : Hse.Dtype).

Lemma clean_from_descriptions seen processed_data d :
  d ∈ Hse.c_Description <$> clean_from date_str report_type days_dtype seen processed_data
  ↔ (d ∉ seen) ∧ d ≠ ""
    ∧ ∃ fr : FilteredRow, fr ∈ processed_data ∧ d = strip (py_str (Description fr.1)).
Proof.
  revert seen. induction processed_data as [|[row dft] l IH]; intros seen.
  - simpl. split; [by intros ?%elem_of_nil|]. by intros (_ & _ & fr & ?%elem_of_nil & _).
  - cbn [clean_from].
    destruct (bool_decide (strip (py_str (Description row)) ≠ "")) eqn:E1;
      [destruct (bool_decide (strip (py_str (Description row)) ∉ seen)) eqn:E2|];
      cbn [andb].
    + apply bool_decide_eq_true in E1, E2.
      rewrite fmap_cons, elem_of_cons, IH. cbn [Hse.c_Description]. split.
      * intros [->|(Hs & Hne & fr & Hin & ->)].
        -- split; [done|]. split; [done|]. exists (row, dft). split; [by left|done].
        -- split; [by apply not_elem_of_union in Hs as [? _]|]. split; [done|].
           exists fr. split; [by right|done].
      * intros (Hs & Hne & fr & [->|Hin]%elem_of_cons & ->); [by left|].
        destruct (decide (strip (py_str (Description fr.1))
                          = strip (py_str (Description row)))) as [Heq|Hneq]; [by left|].
        right. split; [|split; [done|by exists fr]].
        apply not_elem_of_union. split; [done|]. by apply not_elem_of_singleton.
    + apply bool_decide_eq_true in E1. apply bool_decide_eq_false in E2.
      rewrite IH. split.
      * intros (Hs & Hne & fr & Hin & ->). split; [done|]. split; [done|].
        exists fr. split; [by right|done].
      * intros (Hs & Hne & fr & [->|Hin]%elem_of_cons & ->).
        -- exfalso. apply E2. exact Hs.
        -- split; [done|]. split; [done|]. by exists fr.
    + apply bool_decide_eq_false in E1.
      rewrite IH. split.
      * intros (Hs & Hne & fr & Hin & ->). split; [done|]. split; [done|].
        exists fr. split; [by right|done].
      * intros (Hs & Hne & fr & [->|Hin]%elem_of_cons & ->).
        -- exfalso. apply E1. exact Hne.
        -- split; [done|]. split; [done|]. by exists fr.
Qed.

Lemma clean_from_NoDup seen processed_data :
  NoDup (Hse.c_Description <$> clean_from date_str report_type days_dtype seen processed_data).
Proof.
  revert seen. induction processed_data as [|[row dft] l IH]; intros seen.
  - simpl. constructor.
  - cbn [clean_from].
    destruct (bool_decide (strip (py_str (Description row)) ≠ "")
              && bool_decide (strip (py_str (Description row)) ∉ seen)); [|apply IH].
    rewrite fmap_cons. constructor; [|apply IH].
    cbn [Hse.c_Description]. rewrite clean_from_descriptions.
    intros (Hs & _). apply Hs. apply elem_of_union. right. by apply elem_of_singleton.
Qed.

Lemma clean_from_record seen processed_data record :
  record ∈ clean_from date_str report_type days_dtype seen processed_data →
  ∃ row dft, (row, dft) ∈ processed_data
    ∧ record = {| Hse.c_Description := strip (py_str (Description row));
                  Hse.c_Created_Date := date_str (Created_Date row);
                  Hse.c_Expected_Close_Date := date_str (Expected_Close_Date row);
                  Hse.c_Status := py_str (Status row);
                  Hse.c_Days := Hse.cell_of days_dtype (Days row);
                  Hse.c_Days_From_Today :=
                    if bool_decide (report_type = "Open")
                    then Some (default 0 dft) else None;
                  Hse.c_Discipline := "HSE";
                  Hse.c_Tower := housekeeping_tower (strip (py_str (Description row))) |}.
Proof.
  revert seen. induction processed_data as [|[row dft] l IH]; intros seen.
  - by intros ?%elem_of_nil.
  - cbn [clean_from].
    destruct (bool_decide (strip (py_str (Description row)) ≠ "")
              && bool_decide (strip (py_str (Description row)) ∉ seen)).
    + intros [->|Hin]%elem_of_cons.
      * exists row, dft. split; [by left|done].
      * apply IH in Hin as (row' & dft' & Hin & ->). exists row', dft'.
        split; [by right|done].
    + intros (row' & dft' & Hin & ->)%IH. exists row', dft'. split; [by right|done].
Qed.

End HousekeepingClean.

(** X20: the cleaning loop of the Housekeeping report keeps one record for
    each description: the descriptions of the cleaned records are distinct,
    and they are exactly the non-empty stripped descriptions of the
    filtered rows; a row whose description was seen before is dropped,
    whatever its dates. *)
Theorem housekeeping_clean_distinct
    (date_str : option Z → string) (report_type : string) (days_dtype : Hse.Dtype)
    (processed_data : list FilteredRow) :
  let cleaned_data :=
    Housekeeping.clean date_str report_type days_dtype processed_data in
  NoDup (Hse.c_Description <$> cleaned_data)
  ∧ ∀ d, d ∈ Hse.c_Description <$> cleaned_data
         ↔ d ≠ "" ∧ ∃ fr : FilteredRow,
                      fr ∈ processed_data ∧ d = strip (py_str (Description fr.1)).
Proof.
  split; [apply clean_from_NoDup|].
  intros d. unfold Housekeeping.clean. rewrite clean_from_descriptions.
  split; [by intros (_ & ? & ?)|]. intros [? ?]. split; [|done].
  apply not_elem_of_empty.
Qed.

(** ** The fallback of the Housekeeping report counts what its filter kept *)

Lemma lstrip_keeps pre x t :
  is_space x = false → ∃ pre', lstrip (pre ++ x :: t) = pre' ++ x :: t.
Proof.
  intros Hx. induction pre as [|y pre [pre' IH]].
  - exists []. simpl. by rewrite Hx.
  - cbn [app lstrip]. destruct (is_space y); [by exists pre'|]. by exists (y :: pre).
Qed.

Lemma contains_chars_app needle pre post :
  contains_chars needle (pre ++ needle ++ post) = true.
Proof.
  induction pre as [|x pre IH].
  - pose proof (is_prefix_app needle post) as H.
    destruct needle as [|a needle]; [by destruct post|].
    cbn [app contains_chars]. cbn [app] in H. by rewrite H.
  - cbn [app contains_chars]. rewrite IH. apply orb_true_r.
Qed.

(** A word without blanks at its ends that occurs in a text in lower case
    still occurs when the text is stripped first. *)
Lemma contains_strip_lower (keyword d : string) :
  trimmed keyword = true →
  contains keyword (lower d) = true → contains keyword (lower (strip d)) = true.
Proof.
  unfold trimmed, contains, lower, strip. rewrite !chars_str.
  change (map lower_char) with (fmap (M := list) lower_char).
  destruct (chars keyword) as [|a K'] eqn:EK; [done|].
  destruct (reverse (a :: K')) as [|z RK'] eqn:ER; [done|].
  intros [Ha Hz]%andb_prop. apply negb_true_iff in Ha, Hz.
  intros (pre & post & Hsplit)%contains_chars_split.
  apply fmap_app_inv in Hsplit as (pre0 & rest0 & -> & Hrest & Hd).
  symmetry in Hrest. apply fmap_app_inv in Hrest as (K0 & post0 & HK & -> & ->).
  rewrite Hd.
  destruct K0 as [|x K0']; [done|]. rewrite fmap_cons in HK. injection HK as -> ->.
  assert (is_space x = false) as Hx by by rewrite <-is_space_lower.
  cbn [app].
  destruct (lstrip_keeps pre0 x (K0' ++ post0) Hx) as [pre1 ->].
  change (pre1 ++ x :: K0' ++ post0) with (pre1 ++ (x :: K0') ++ post0).
  rewrite !reverse_app.
  rewrite <-fmap_cons, <-fmap_reverse in ER.
  destruct (reverse (x :: K0')) as [|y RK0] eqn:ER0; [done|].
  rewrite fmap_cons in ER. injection ER as <- <-.
  assert (is_space y = false) as Hy by by rewrite <-is_space_lower.
  rewrite <-app_assoc. cbn [app].
  destruct (lstrip_keeps (reverse post0) y (RK0 ++ reverse pre1) Hy) as [post1 ->].
  change (post1 ++ y :: RK0 ++ reverse pre1) with (post1 ++ (y :: RK0) ++ reverse pre1).
  rewrite <-ER0, !reverse_app, !reverse_involutive, <-app_assoc.
  rewrite !fmap_app. apply contains_chars_app.
Qed.

Lemma housekeeping_keywords_trimmed :
  Forall (λ keyword, trimmed keyword = true) housekeeping_keywords.
Proof. apply (bool_decide_unpack _). vm_compute. exact I. Qed.

Lemma filter_all {A} (P : A → Prop) `{∀ x, Decision (P x)} (l : list A) :
  Forall P l → filter P l = l.
Proof.
  induction 1 as [|x l Hx _ IH]; [done|]. by rewrite filter_cons_True, IH.
Qed.

Lemma housekeeping_filtered_row today table report_type start_date end_date until_date
    row dft :
  (row, dft) ∈ Housekeeping.filtered today table report_type start_date end_date until_date →
  Housekeeping.is_housekeeping_record (Description row) = true
  ∧ (if bool_decide (report_type = "Closed")
     then cell_gt (Days row) 7 else cell_gt dft 7) = true.
Proof.
  unfold Housekeeping.filtered. case_bool_decide as Hrt.
  - unfold Housekeeping.filter_closed. intros (r & [= -> ->] & Hin)%list_elem_of_fmap.
    assert (r ∈ filter (λ r, cell_is (Discipline r) "HSE" && cell_is (Status r) "Closed"
                             && bool_decide (is_Some (Days r)) && cell_gt (Days r) 7
                             && Housekeeping.is_housekeeping_record (Description r) = true)
                       table) as Hr.
    { destruct (Housekeeping.date_of start_date), (Housekeeping.date_of end_date);
        try done. by apply list_elem_of_filter in Hin as [_ ?]. }
    apply list_elem_of_filter in Hr as [Hp _].
    apply andb_prop in Hp as [Hp Hk]. by apply andb_prop in Hp as [_ Hd].
  - unfold Housekeeping.filter_open. intros Hin.
    assert ((row, dft) ∈
            filter (λ fr : FilteredRow, cell_gt fr.2 7 = true)
              ((λ r, (r, (λ c, today - c) <$> Created_Date r)) <$>
               filter (λ r, cell_is (Discipline r) "HSE" && cell_is (Status r) "Open"
                            && bool_decide (is_Some (Created_Date r))
                            && Housekeeping.is_housekeeping_record (Description r) = true)
                      table)) as Hr.
    { destruct (Housekeeping.date_of until_date); [|done].
      by apply list_elem_of_filter in Hin as [_ ?]. }
    apply list_elem_of_filter in Hr as [Hgt Hr].
    apply list_elem_of_fmap in Hr as (r & [= -> ->] & Hr).
    apply list_elem_of_filter in Hr as [Hp _].
    by apply andb_prop in Hp as [_ Hk].
Qed.

Lemma housekeeping_record_after_strip (d : string) :
  Hse.is_report_record housekeeping_keywords d = true →
  Hse.is_report_record housekeeping_keywords (strip d) = true.
Proof.
  unfold Hse.is_report_record. rewrite !existsb_exists.
  intros (keyword & Hin & Hc). exists keyword. split; [done|].
  apply contains_strip_lower; [|done].
  pose proof housekeeping_keywords_trimmed as Ht. rewrite Forall_forall in Ht.
  by apply Ht, list_elem_of_In.
Qed.

(** A cleaned record either passes the test of the fallback loop, or
    holds [None] under "Days" and makes the test raise. *)
Lemma housekeeping_cleaned_counted today date_str table report_type days_dtype
    start_date end_date until_date record :
  report_type ∈ ["Open"; "Closed"] →
  record ∈ Housekeeping.clean date_str report_type days_dtype
             (Housekeeping.filtered today table report_type
                                    start_date end_date until_date) →
  match Hse.c_Days record with
  | Hse.PyNone =>
      report_type = "Open" ∧ days_dtype = Hse.Object
      ∧ Hse.counted_locally housekeeping_keywords "Days_From_Today" record = None
  | _ => Hse.counted_locally housekeeping_keywords "Days_From_Today" record = Some true
  end.
Proof.
  intros Hrt (row & dft & Hin & ->)%clean_from_record.
  apply housekeeping_filtered_row in Hin as [Hk Hage].
  assert (Hse.is_report_record housekeeping_keywords (strip (py_str (Description row)))
          = true) as Hkey.
  { destruct (Description row) as [d|]; [|done]. by apply housekeeping_record_after_strip. }
  unfold Hse.counted_locally, Hse.get_number.
  cbn [Hse.c_Description Hse.c_Discipline Hse.c_Days Hse.c_Days_From_Today].
  rewrite Hkey.
  rewrite (bool_decide_eq_true_2 ("HSE" = "HSE")) by done.
  rewrite (bool_decide_eq_true_2 ("Days" = "Days")) by done.
  rewrite (bool_decide_eq_false_2 ("Days_From_Today" = "Days")) by done.
  rewrite (bool_decide_eq_true_2 ("Days_From_Today" = "Days_From_Today")) by done.
  apply elem_of_cons in Hrt as [->|Hrt].
  - rewrite bool_decide_eq_false_2 in Hage by done.
    rewrite (bool_decide_eq_true_2 ("Open" = "Open")) by done.
    destruct dft as [v|]; [|by simpl in Hage]. simpl in Hage. cbn [default].
    destruct (Days row) as [n|], days_dtype; cbn [Hse.cell_of Hse.gt mbind option_bind];
      unfold id; rewrite ?Hage; try done; by destruct (bool_decide (7 < n)).
  - apply list_elem_of_singleton in Hrt as ->.
    rewrite bool_decide_eq_true_2 in Hage by done.
    destruct (Days row) as [n|]; [|done]. simpl in Hage.
    cbn [Hse.cell_of Hse.gt mbind option_bind]. by rewrite Hage.
Qed.





(** ** The pages of the fetch loop *)

Section FetchFacts.
Context {A : Type} (post : Z → option (Page A)) (record_limit : Z).
Context (page : Z → Page A).
Hypothesis Hlimit : 0 < record_limit.
Hypothesis Hanswer : ∀ start, post start = Some (page start).

Lemma fetch_loop_pages (total : Z) (m k fuel : nat) (total_records : option Z)
    (all_data : list A) :
  default (results_total (page (page_start record_limit k))) total_records = total →
  (S m ≤ fuel)%nat →
  (k + S m)%nat = pages_needed total record_limit →
  fetch_loop post record_limit fuel (page_start record_limit k) total_records all_data
  = Some (Some total,
          all_data ++ concat ((λ i, forms (page (page_start record_limit i)))
                                <$> seq k (S m))).
Proof.
  revert k fuel total_records all_data.
  induction m as [|m IH]; intros k fuel total_records all_data Htotal Hfuel Hn;
    (destruct fuel as [|fuel]; [lia|]); cbn [fetch_loop]; rewrite Hanswer, Htotal;
    unfold pages_needed in Hn;
    pose proof (Z.div_mod (total + record_limit - 1) record_limit ltac:(lia)) as Hdm;
    pose proof (Z.mod_pos_bound (total + record_limit - 1) record_limit Hlimit) as Hmod.
  - rewrite bool_decide_eq_true_2 by (unfold page_start; nia).
    cbn [seq fmap list_fmap concat]. by rewrite app_nil_r.
  - rewrite bool_decide_eq_false_2 by (unfold page_start; nia).
    replace (page_start record_limit k + record_limit)
      with (page_start record_limit (S k)) by (unfold page_start; lia).
    rewrite IH; [|done|lia|unfold pages_needed; lia].
    f_equal. f_equal. rewrite <-app_assoc. f_equal.
Qed.

End FetchFacts.

(** X23: with a positive page size and a service that answers every
    request, the fetch loop ends: it asks for the pages that start at the
    records 1, 1 + limit, 1 + 2 limit, ... up to the number of records the
    first answer announces (one page when it announces none), and returns
    that number with the forms of these pages in order. *)
Theorem fetch_reads_every_page {A} (post : Z → option (Page A)) (record_limit : Z)
    (page : Z → Page A) (fuel : nat) :
  0 < record_limit →
  (∀ start, post start = Some (page start)) →
  let total := results_total (page 1) in
  (pages_needed total record_limit ≤ fuel)%nat →
  fetch_project_data post record_limit fuel
  = Some (Some total,
          concat ((λ k, forms (page (page_start record_limit k)))
                    <$> seq 0 (pages_needed total record_limit))).
Proof.
  intros Hlimit Hanswer total Hfuel. unfold fetch_project_data.
  assert (∃ m, pages_needed total record_limit = S m) as [m Hm].
  { unfold pages_needed. exists (Z.to_nat (Z.max 1 ((total + record_limit - 1) / record_limit)) - 1)%nat.
    lia. }
  change 1 with (page_start record_limit 0) at 1.
  rewrite (fetch_loop_pages post record_limit page Hlimit Hanswer total m 0);
    [by rewrite Hm|done|lia|by rewrite Hm].
Qed.

Lemma fetch_reads_every_page_witness :
  let page (start : Z) := mkPage 25 [start; start + 1] in
  fetch_project_data (λ start, Some (page start)) 10 5
  = Some (Some 25, [1; 2; 11; 12; 21; 22]).
Proof.
  intros page.
  rewrite (fetch_reads_every_page (λ start, Some (page start)) 10 page 5);
    [reflexivity|lia|done|vm_compute; lia].
Defined.

(** ** The towers of the Safety report *)

Lemma workbook_site_fixed site :
  workbook_site site → HseExcel.normalize_site_name site = site.
Proof.
  intros [->|(ds & Hp & ->)]; [vm_compute; reflexivity|].
  replace ("Eden-Tower " +:+ str ds)
    with (str (chars "Eden-Tower" ++ [" "%char] ++ ds))
    by (by rewrite !str_app, !str_chars).
  rewrite hse_normalize_name; [|by right; right; left|done].
  by rewrite !str_app, !str_chars.
Qed.

Lemma safety_normalize_sites description site :
  site ∈ shown_under (Safety.normalize_site_name description) → workbook_site site.
Proof.
  unfold Safety.normalize_site_name.
  destruct (search tower_common_pattern (chars (lower description)))
    as [[[m rest] c]|] eqn:E.
  - assert (padded_digits (zfill 2 (group c 1))) as H1.
    { apply zfill_padded_digits. by eapply (search_digit_grouped 1). }
    assert (padded_digits (zfill 2 (group c 2))) as H2.
    { apply zfill_padded_digits. by eapply (search_digit_grouped 2). }
    case_bool_decide; cbn [shown_under].
    + intros [->|[->|?%elem_of_nil]%elem_of_cons]%elem_of_cons; [| |done];
        right; eauto.
    + intros ->%list_elem_of_singleton. right; eauto.
  - destruct (_ || _); cbn [shown_under].
    { intros ->%list_elem_of_singleton. by left. }
    destruct (search Safety.tower_pattern (chars (lower description)))
      as [[[m rest] c]|] eqn:E'; cbn [shown_under].
    + intros ->%list_elem_of_singleton. right.
      exists (zfill 2 (group c 1)). split; [|done].
      apply zfill_padded_digits. by eapply (search_digit_grouped 1).
    + intros ->%list_elem_of_singleton. by left.
Qed.

Section SafetyClean.
Import Safety.
Context (date_str : option Z → string) (report_type : string)
        (days_dtype : Hse.Dtype).

(** Two conditionals that only differ in equivalent conditions *)
Local Ltac same_branches :=
  match goal with
  | |- (if ?b1 then _ else _) = (if ?b2 then _ else _) =>
      replace b1 with b2; [done|]; apply bool_decide_ext
  end.

Lemma safety_clean_from_towers seen processed_data d :
  Hse.c_Tower <$> filter (λ r, Hse.c_Description r = d)
                         (clean_from date_str report_type days_dtype seen processed_data)
  = if bool_decide ((d ∉ seen) ∧ d ≠ ""
                    ∧ d ∈ (λ fr : FilteredRow, strip (py_str (Description fr.1)))
                          <$> processed_data)
    then shown_under (normalize_site_name d) else [].
Proof.
  revert seen. induction processed_data as [|[row dft] l IH]; intros seen.
  - simpl. rewrite bool_decide_eq_false_2; [done|].
    by intros (_ & _ & ?%elem_of_nil).
  - cbn [clean_from]. set (d0 := strip (py_str (Description row))).
    rewrite fmap_cons. cbn [fst]. fold d0.
    set (f := λ fr : FilteredRow, strip (py_str (Description fr.1))) in *.
    destruct (bool_decide (d0 ≠ "")) eqn:E1;
      [destruct (bool_decide (d0 ∉ seen)) eqn:E2|]; cbn [andb].
    + apply bool_decide_eq_true in E1, E2.
      rewrite filter_app, fmap_app, IH.
      destruct (decide (d = d0)) as [Heq|Hne].
      * rewrite Heq. rewrite filter_all.
        2:{ apply Forall_forall. by intros r (t & -> & _)%list_elem_of_fmap. }
        rewrite <-list_fmap_compose.
        assert (bool_decide ((d0 ∉ seen ∪ {[d0]}) ∧ d0 ≠ "" ∧ d0 ∈ f <$> l) = false) as ->.
        { apply bool_decide_eq_false_2. intros (Hs & _).
          apply Hs, elem_of_union. right. by apply elem_of_singleton. }
        assert (bool_decide ((d0 ∉ seen) ∧ d0 ≠ "" ∧ d0 ∈ d0 :: (f <$> l)) = true) as ->.
        { apply bool_decide_eq_true_2. split_and!; [done|done|by left]. }
        rewrite app_nil_r. apply list_fmap_id.
      * replace (filter (λ r, Hse.c_Description r = d) _) with (@nil Hse.Cleaned).
        2:{ symmetry. generalize (shown_under (normalize_site_name d0)). intros ts.
            induction ts as [|t ts IHt]; [done|].
            rewrite fmap_cons, filter_cons_False; [done|]. simpl. congruence. }
        cbn [fmap list_fmap app].
        same_branches. split.
        -- intros (Hs & Hd & [?|Hin]%elem_of_cons); [done|]. split_and!; [|done|done].
           apply not_elem_of_union. split; [done|]. by apply not_elem_of_singleton.
        -- intros (Hs & Hd & Hin). split_and!; [|done|by right].
           by apply not_elem_of_union in Hs as [? _].
    + apply bool_decide_eq_true in E1. apply bool_decide_eq_false in E2.
      rewrite IH. same_branches. split.
      * intros (Hs & Hd & [->|Hin]%elem_of_cons); [by destruct E2|]. by split_and!.
      * intros (Hs & Hd & Hin). split_and!; [done|done|by right].
    + apply bool_decide_eq_false in E1.
      rewrite IH. same_branches. split.
      * intros (Hs & Hd & [->|Hin]%elem_of_cons); [by destruct E1|]. by split_and!.
      * intros (Hs & Hd & Hin). split_and!; [done|done|by right].
Qed.

Lemma safety_clean_from_record seen processed_data record :
  record ∈ clean_from date_str report_type days_dtype seen processed_data →
  Hse.c_Tower record ∈ shown_under (normalize_site_name (Hse.c_Description record))
  ∧ Hse.c_Description record ≠ "" ∧ Hse.c_Discipline record = "HSE".
Proof.
  revert seen. induction processed_data as [|[row dft] l IH]; intros seen.
  - by intros ?%elem_of_nil.
  - cbn [clean_from].
    destruct (bool_decide (strip (py_str (Description row)) ≠ "")) eqn:E1;
      [|apply IH].
    destruct (bool_decide (strip (py_str (Description row)) ∉ seen)); [|apply IH].
    cbn [andb]. apply bool_decide_eq_true in E1.
    intros [(t & -> & Ht)%list_elem_of_fmap|Hin]%elem_of_app; [done|by eapply IH].
Qed.

End SafetyClean.

(** X24: the cleaning loop of the Safety report makes, for every new
    description, one record for each tower of the description, so a
    description of the common area of two towers gives two records with
    the same description; every tower is "Common_Area" or "Eden-Tower "
    followed by at least two digits, the name under which the workbook
    shows it. *)
Theorem safety_clean_towers
    (date_str : option Z → string) (report_type : string) (days_dtype : Hse.Dtype)
    (processed_data : list FilteredRow) (d : string) :
  let cleaned_data := Safety.clean date_str report_type days_dtype processed_data in
  (Hse.c_Tower <$> filter (λ r, Hse.c_Description r = d) cleaned_data
   = if bool_decide (d ≠ "" ∧ d ∈ (λ fr : FilteredRow, strip (py_str (Description fr.1)))
                                   <$> processed_data)
     then shown_under (Safety.normalize_site_name d) else [])
  ∧ Forall (λ record,
              workbook_site (Hse.c_Tower record)
              ∧ HseExcel.normalize_site_name (Hse.c_Tower record) = Hse.c_Tower record
              ∧ Hse.c_Discipline record = "HSE")
           cleaned_data.
Proof.
  split.
  - unfold Safety.clean. rewrite safety_clean_from_towers.
    match goal with
    | |- (if ?b1 then _ else _) = (if ?b2 then _ else _) =>
        replace b1 with b2; [done|]; apply bool_decide_ext
    end.
    split; [|by intros (_ & ? & ?)].
    intros [? ?]. split_and!; [apply not_elem_of_empty|done|done].
  - apply Forall_forall. intros record Hin.
    apply safety_clean_from_record in Hin as (Ht & _ & Hd).
    apply safety_normalize_sites in Ht. split; [done|]. split; [|done].
    by apply workbook_site_fixed.
Qed.
